(** * moma-rl-ad: replay buffer, data logger, reward aggregation and
      reward bounds of the multi-objective multi-agent DQN.

    The development follows the Python sources:
    - [src/utils.py]: [ReplayBuffer], [DataLogger];
    - [src/MOMA_DQN.py]: [compute_reward_summary], [reduce_epsilon], the
      episode loop of [train];
    - [src/envs/mo_highway_env.py]: [_rewards] and [_reward].

    Numbers.  Tensor entries are exact rationals extended with a
    not-a-number value ([tval]).  The replay buffer is a float32 tensor:
    a write into it rounds every entry to the nearest binary32 number
    ([float32]).  Arithmetic on entries that were read back is exact.
    The epsilon schedule, whose claim is about exact binary64 results,
    is modelled on the kernel's binary64 floats ([PrimFloat]), which is
    the arithmetic of a Python [float].

    Errors.  A raised Python exception is a value [Err e] of [result]. *)

From Stdlib Require Import ZArith QArith Qround Qabs Qminmax Qpower Lia Lqa Bool String Ascii.
From Stdlib Require Import PrimFloat Uint63.
From Stdlib Require SpecFloat FloatOps FloatAxioms.
From stdpp Require Import base tactics option list strings.

Set Default Proof Using "Type".

(** ** Exceptions and results *)

Inductive exn : Set :=
| AssertionError
| IndexError
| TypeError
| ValueError
| RuntimeError
| ZeroDivisionError
| AttributeError
| OverflowError
| KeyError
| Diverged.

Inductive result (A : Type) : Type :=
| Ok (a : A)
| Err (e : exn).
Arguments Ok {A} a.
Arguments Err {A} e.

#[global] Instance result_ret : MRet result := fun A a => Ok a.
#[global] Instance result_bind : MBind result := fun A B f m =>
  match m with
  | Ok a => f a
  | Err e => Err e
  end.
#[global] Instance result_fmap : FMap result := fun A B f m =>
  match m with
  | Ok a => Ok (f a)
  | Err e => Err e
  end.

Definition of_option {A} (e : exn) (o : option A) : result A :=
  match o with
  | Some a => Ok a
  | None => Err e
  end.

Definition is_ok {A} (r : result A) : bool :=
  match r with
  | Ok _ => true
  | Err _ => false
  end.

(** [for x in xs: ys.append(f x)], stopping at the first exception. *)
Fixpoint mapM_result {A B} (f : A -> result B) (xs : list A) : result (list B) :=
  match xs with
  | [] => Ok []
  | x :: rest =>
      y ← f x;
      ys ← mapM_result f rest;
      Ok (y :: ys)
  end.

(** ** Tensor entries *)

(** A tensor entry: a rational number or [nan]. *)
Inductive tval : Type :=
| Num (q : Q)
| NaN.

Abbreviation tensor := (list tval).

Definition tzero : tval := Num 0.
Definition tone : tval := Num 1.

Definition isnan (x : tval) : bool :=
  match x with
  | NaN => true
  | Num _ => false
  end.

(** [x == 0] on an entry: [nan == 0] is false. *)
Definition is_zero (x : tval) : bool :=
  match x with
  | Num q => Qeq_bool q 0
  | NaN => false
  end.

(** [x.to(torch.bool)]: every non-zero entry is true, [nan] included. *)
Definition to_bool (x : tval) : bool := negb (is_zero x).

(** [torch.tensor([b])] stored into a float buffer. *)
Definition of_bool (b : bool) : tval := if b then tone else tzero.

Definition tadd (x y : tval) : tval :=
  match x, y with
  | Num a, Num b => Num (a + b)
  | _, _ => NaN
  end.

Definition tsub (x y : tval) : tval :=
  match x, y with
  | Num a, Num b => Num (a - b)
  | _, _ => NaN
  end.

Definition tmul (x y : tval) : tval :=
  match x, y with
  | Num a, Num b => Num (a * b)
  | _, _ => NaN
  end.

(** Division of entries.  A zero divisor gives [inf] or [nan] in torch;
    both are merged into [NaN] here. *)
Definition tdiv (x y : tval) : tval :=
  match x, y with
  | Num a, Num b => if Qeq_bool b 0 then NaN else Num (a / b)
  | _, _ => NaN
  end.

(** [torch.min] of two entries; [nan] propagates. *)
Definition tmin (x y : tval) : tval :=
  match x, y with
  | Num a, Num b => if Qle_bool a b then Num a else Num b
  | _, _ => NaN
  end.

(** Equality of entries up to the representation of a rational. *)
Definition teq (x y : tval) : Prop :=
  match x, y with
  | Num a, Num b => a == b
  | NaN, NaN => True
  | _, _ => False
  end.

(** Python slice [l[a:b]] for non-negative bounds. *)
Definition slice {A} (a b : nat) (l : list A) : list A := take (b - a) (drop a l).

(** Python index [l[-k]] for [k >= 1]. *)
Definition index_from_end {A} (k : nat) (l : list A) : option A :=
  if decide (k <= length l) then l !! (length l - k) else None.

(** Column [-k] of a matrix given by its rows: [m[:, -k]]. *)
Definition column_from_end (k : nat) (rows : list tensor) : result tensor :=
  mapM_result (fun row => of_option IndexError (index_from_end k row)) rows.

(** Sum of a 1-d tensor, left to right (the last entry of [torch.cumsum]). *)
Definition tsum (xs : tensor) : tval := fold_left tadd xs tzero.

(** [torch.min] of a 1-d tensor; an empty tensor has no minimum. *)
Definition tensor_min (xs : tensor) : result tval :=
  match xs with
  | [] => Err RuntimeError
  | x :: rest => Ok (fold_left tmin rest x)
  end.

(** The rationals of a tensor without [nan]. *)
Fixpoint rationals (xs : tensor) : option (list Q) :=
  match xs with
  | [] => Some []
  | Num q :: rest => cons q <$> rationals rest
  | NaN :: _ => None
  end.

(** Python [round] of a number: to the nearest integer, ties to even. *)
Definition py_round (x : Q) : Z :=
  let f := Qfloor x in
  match (x - inject_Z f ?= 1 # 2)%Q with
  | Lt => f
  | Gt => (f + 1)%Z
  | Eq => if Z.even f then f else (f + 1)%Z
  end.

(** ** float32

    The cast of a number to binary32, as an assignment into a float32
    tensor performs it: round to nearest, ties to even, on a grid of
    24 significant bits whose exponent does not go below that of the
    subnormal numbers.  A result of magnitude [2^128] or more is
    infinite in torch; it is merged into [NaN], as in [tdiv]. *)

Definition pow2 (z : Z) : Q := (2 ^ z)%Q.

(** The exponent [e] of a positive number [a]: [2^e <= a < 2^(e+1)]. *)
Definition exponent (a : Q) : Z :=
  let e0 := (Z.log2 (Qnum a) - Z.log2 (Zpos (Qden a)))%Z in
  if Qle_bool (pow2 e0) a then e0 else (e0 - 1)%Z.

Definition float32_of_Q (q : Q) : tval :=
  if Qeq_bool q 0 then Num 0
  else
    let a := Qabs q in
    let quantum := pow2 (Z.max (exponent a) (-126) - 23) in
    let r := (inject_Z (py_round (a / quantum)) * quantum)%Q in
    if Qle_bool (pow2 128) r then NaN
    else Num (Qred (if Qle_bool 0 q then r else - r)).

(** [x.to(torch.float32)] on an entry. *)
Definition float32 (x : tval) : tval :=
  match x with
  | Num q => float32_of_Q q
  | NaN => NaN
  end.

(** The numbers of binary32, as the format defines them: an integer
    significand below [2^24] times a power of two between [2^-149] and
    [2^104]. *)
Definition binary32 (x : tval) : Prop :=
  match x with
  | Num q => exists M E : Z,
      (Z.abs M < 2 ^ 24)%Z /\ (-149 <= E <= 104)%Z /\ (q == inject_Z M * pow2 E)%Q
  | NaN => True
  end.

(** ** The random generator (numpy.random.Generator)

    The generator is an explicit state: a stream of uniform draws and the
    position of the next one.  [choice] follows numpy's algorithm for a
    given probability vector: the cumulative sums of [p], normalised by
    the last one, are searched for each uniform draw. *)

Module Generator.

Record t : Type := mk {
  uniform : nat -> Q;
  position : nat
}.

(** Every draw lies in [0, 1). *)
Definition well_formed (g : t) : Prop :=
  forall k, (0 <= uniform g k /\ uniform g k < 1)%Q.

(** [rng.random(n)] *)
Definition random (g : t) (n : nat) : list Q * t :=
  (uniform g <$> seq (position g) n,
   {| uniform := uniform g; position := position g + n |}).

Fixpoint cumsum_from (acc : Q) (p : list Q) : list Q :=
  match p with
  | [] => []
  | x :: rest => (acc + x)%Q :: cumsum_from (acc + x)%Q rest
  end.

Definition cumsum (p : list Q) : list Q := cumsum_from 0 p.

(** [cdf.searchsorted(u, side='right')] on a non-decreasing [cdf]: the
    first position whose entry exceeds [u]. *)
Fixpoint searchsorted_right (cdf : list Q) (u : Q) : nat :=
  match cdf with
  | [] => 0
  | c :: rest => if Qle_bool c u then S (searchsorted_right rest u) else 0
  end.

(** Tolerance of numpy's check that [p] sums to one: [sqrt(eps)] of
    binary64, which is [2^-26]. *)
Definition atol : Q := 1 # 67108864.

(** numpy's validation of [p] for a population of [n] items. *)
Definition valid_p (n : nat) (p : tensor) : result (list Q) :=
  if decide (length p = n) then
    match rationals p with
    | None => Err ValueError
    | Some qs =>
        if forallb (fun q => Qle_bool 0 q) qs
           && Qle_bool (Qabs (fold_left Qplus qs 0 - 1)%Q) atol
        then Ok qs else Err ValueError
    end
  else Err ValueError.

Definition normalised_cdf (qs : list Q) : list Q :=
  let cdf := cumsum qs in
  (fun c => (c / List.last cdf 0)%Q) <$> cdf.

(** The sum of the first [k] probabilities: the draws that select
    position [i] are those from [prefix_sum i] up to [prefix_sum (i+1)]. *)
Definition prefix_sum (k : nat) (qs : list Q) : Q :=
  fold_left Qplus (take k qs) 0%Q.

(** [rng.choice(n, p=p, size=count, replace=True)] *)
Definition choice (g : t) (n : nat) (p : tensor) (count : nat)
    : result (list nat) * t :=
  if decide (n = 0) then (Err ValueError, g)
  else match valid_p n p with
       | Err e => (Err e, g)
       | Ok qs =>
           let (us, g') := random g count in
           (Ok (searchsorted_right (normalised_cdf qs) <$> us), g')
       end.

End Generator.

(** ** ReplayBuffer (src/utils.py) *)

Module ReplayBuffer.

Record t : Type := mk {
  size : nat;
  num_objectives : nat;
  observation_space_size : nat;
  importance_sampling : bool;
  prioritise_crashes : bool;
  buffer : list tensor;
  running_index : nat;
  num_elements : nat
}.

(** Width of a row: observation, action, next observation, rewards,
    termination flag, importance sampling id. *)
Definition row_width (L O : nat) : nat := L * 2 + O + 3.

Definition width (rb : t) : nat :=
  row_width (observation_space_size rb) (num_objectives rb).

(** [__init__]: a zero matrix, both counters at 0. *)
Definition init (buffer_size observation_space_shape n_objectives : nat)
    (imp_sampling prio_crashes : bool) : t :=
  {| size := buffer_size;
     num_objectives := n_objectives;
     observation_space_size := observation_space_shape;
     importance_sampling := imp_sampling;
     prioritise_crashes := prio_crashes;
     buffer := replicate buffer_size
                 (replicate (row_width observation_space_shape n_objectives) tzero);
     running_index := 0;
     num_elements := 0 |}.

Definition with_buffer (rb : t) (b : list tensor) : t :=
  {| size := size rb;
     num_objectives := num_objectives rb;
     observation_space_size := observation_space_size rb;
     importance_sampling := importance_sampling rb;
     prioritise_crashes := prioritise_crashes rb;
     buffer := b;
     running_index := running_index rb;
     num_elements := num_elements rb |}.

(** [self.buffer[i] = elem]: the index must exist; [elem] must have the
    width of the row, or a single entry, which torch broadcasts.  The
    buffer is a float32 tensor ([torch.zeros] without a dtype): the
    assignment casts every entry of [elem] to float32. *)
Definition write_row (buf : list tensor) (i : nat) (elem : tensor)
    : result (list tensor) :=
  match buf !! i with
  | None => Err IndexError
  | Some old =>
      if decide (length elem = length old) then Ok (<[i := float32 <$> elem]> buf)
      else match elem with
           | [x] => Ok (<[i := replicate (length old) (float32 x)]> buf)
           | _ => Err RuntimeError
           end
  end.

(** [__increment_indices] *)
Definition increment_indices (rb : t) : result t :=
  if decide (size rb = 0) then Err ZeroDivisionError
  else Ok {| size := size rb;
             num_objectives := num_objectives rb;
             observation_space_size := observation_space_size rb;
             importance_sampling := importance_sampling rb;
             prioritise_crashes := prioritise_crashes rb;
             buffer := buffer rb;
             running_index := (running_index rb + 1) mod size rb;
             num_elements := if decide (num_elements rb < size rb)
                             then num_elements rb + 1 else num_elements rb |}.

(** The arguments of a single-sample [push]: every field is a 1-d
    tensor ([obs.flatten()] and [next_obs.flatten()] are written
    flattened); the id is [None] or a tensor. *)
Record transition : Type := mk_transition {
  t_obs : tensor;
  t_action : tensor;
  t_next_obs : tensor;
  t_reward : tensor;
  t_terminated : tensor;
  t_id : option tensor
}.

(** The id that [push] stores: the caller's when importance sampling is
    on, [torch.tensor([0])] otherwise. *)
Definition effective_id (rb : t) (id : option tensor) : result tensor :=
  if importance_sampling rb then of_option AssertionError id
  else Ok [tzero].

(** [torch.concatenate([obs, action, next_obs, reward, terminated, id])] *)
Definition concat_row (obs action next_obs reward terminated id : tensor) : tensor :=
  obs ++ action ++ next_obs ++ reward ++ terminated ++ id.

Definition store (rb : t) (elem : tensor) : result t :=
  buf ← write_row (buffer rb) (running_index rb) elem;
  increment_indices (with_buffer rb buf).

(** The row that a single-sample [push] writes. *)
Definition stored_row (rb : t) (tr : transition) : result tensor :=
  id ← effective_id rb (t_id tr);
  Ok (concat_row (t_obs tr) (t_action tr) (t_next_obs tr)
                 (t_reward tr) (t_terminated tr) id).

(** [push] with [num_samples == 1]. *)
Definition push (rb : t) (tr : transition) : result t :=
  elem ← stored_row rb tr;
  store rb elem.

(** Row [i] of a [push] with [num_samples > 1]: it is built from the
    [i]-th entry of every argument; all rows share one scalar id. *)
Definition multi_row (obs : list tensor) (action : list tval)
    (next_obs reward : list tensor) (terminated : list bool) (id : tval)
    (i : nat) : result tensor :=
  o ← of_option IndexError (obs !! i);
  a ← of_option IndexError (action !! i);
  n ← of_option IndexError (next_obs !! i);
  r ← of_option IndexError (reward !! i);
  d ← of_option IndexError (terminated !! i);
  Ok (concat_row o [a] n r [of_bool d] [id]).

Fixpoint push_rows (rb : t) (rows : list nat) (row : nat -> result tensor)
    : result t :=
  match rows with
  | [] => Ok rb
  | i :: rest =>
      elem ← row i;
      rb' ← store rb elem;
      push_rows rb' rest row
  end.

(** [push] called with per-vehicle lists, as [train] calls it.  With
    [num_samples == 1] the call takes the single-sample branch, where
    [obs.flatten()] is applied to a list and raises. *)
Definition push_multi (rb : t) (obs : list tensor) (action : list tval)
    (next_obs reward : list tensor) (terminated : list bool)
    (id : option tval) (num_samples : nat) : result t :=
  if decide (num_samples = 0) then Err AssertionError
  else
    id' ← (if importance_sampling rb then of_option AssertionError id
           else Ok tzero);
    if decide (num_samples = 1) then Err AttributeError
    else push_rows rb (seq 0 num_samples)
                   (multi_row obs action next_obs reward terminated id').

(** A sequence of single-sample pushes. *)
Fixpoint push_all (rb : t) (trs : list transition) : result t :=
  match trs with
  | [] => Ok rb
  | tr :: rest => rb' ← push rb tr; push_all rb' rest
  end.

(** *** Well-formed buffers

    What [__init__] establishes for a positive capacity and every
    [push] keeps. *)
Record wf (rb : t) : Prop := mk_wf {
  wf_size : 0 < size rb;
  wf_rows : length (buffer rb) = size rb;
  wf_width : Forall (fun row => length row = width rb) (buffer rb);
  wf_index : running_index rb < size rb;
  wf_count : num_elements rb <= size rb
}.

(** The arguments of a single-sample push for a buffer with
    observations of [L] entries and [O] objectives: both observations
    have [L] entries, the reward has [O], action and termination flag
    have one, and with importance sampling the id is a tensor of one
    entry. *)
Record well_shaped (L O : nat) (imp : bool) (tr : transition) : Prop := mk_shape {
  ws_obs : length (t_obs tr) = L;
  ws_action : length (t_action tr) = 1;
  ws_next_obs : length (t_next_obs tr) = L;
  ws_reward : length (t_reward tr) = O;
  ws_terminated : length (t_terminated tr) = 1;
  ws_id : imp = true -> exists x, t_id tr = Some [x]
}.

(** The row of a transition, as the specification lays it out: the
    observation, the action, the next observation, the rewards, the
    termination flag and the id (0 without importance sampling), each
    entry as a float32 number. *)
Definition transition_row (imp : bool) (tr : transition) : tensor :=
  (float32 <$> t_obs tr) ++ (float32 <$> t_action tr)
  ++ (float32 <$> t_next_obs tr) ++ (float32 <$> t_reward tr)
  ++ (float32 <$> t_terminated tr)
  ++ (if imp then float32 <$> default [] (t_id tr) else [Num 0]).

(** Row [j] of the buffer holds the transition [tr]. *)
Definition holds (rb : t) (j : nat) (tr : transition) : Prop :=
  buffer rb !! j = Some (transition_row (importance_sampling rb) tr).

(** The row of a slot that was never written. *)
Definition zero_row (rb : t) : tensor := replicate (width rb) tzero.

(** The buffer with the row [elem] at the running index, after the
    index step. *)
Definition stored (rb : t) (elem : tensor) : t :=
  {| size := size rb;
     num_objectives := num_objectives rb;
     observation_space_size := observation_space_size rb;
     importance_sampling := importance_sampling rb;
     prioritise_crashes := prioritise_crashes rb;
     buffer := <[running_index rb := elem]> (buffer rb);
     running_index := (running_index rb + 1) mod size rb;
     num_elements := Nat.min (num_elements rb + 1) (size rb) |}.

(** The state of the ring after the pushes [trs] into a fresh buffer
    [rb0]: counters, the slots of the last [size] pushes, and the
    slots never written. *)
Record ring_state (rb0 : t) (trs : list transition) (rb : t) : Prop := mk_ring {
  rs_wf : wf rb;
  rs_size : size rb = size rb0;
  rs_width : width rb = width rb0;
  rs_flag : importance_sampling rb = importance_sampling rb0;
  rs_index : running_index rb = length trs mod size rb0;
  rs_count : num_elements rb = Nat.min (length trs) (size rb0);
  rs_recent : forall i tr, trs !! i = Some tr -> length trs <= i + size rb0 ->
              holds rb (i mod size rb0) tr;
  rs_fresh : forall j, length trs <= j -> j < size rb0 ->
             buffer rb !! j = Some (zero_row rb0)
}.

(** *** Accessors over a batch of rows *)

Definition get_observations (rb : t) (samples : list tensor) : list tensor :=
  (fun row => slice 0 (observation_space_size rb) row) <$> samples.

Definition get_next_obs (rb : t) (samples : list tensor) : list tensor :=
  (fun row => slice (observation_space_size rb + 1)
                    (observation_space_size rb * 2 + 1) row) <$> samples.

(** [samples[:, L*2+1 : -2]] *)
Definition get_rewards (rb : t) (samples : list tensor) : list tensor :=
  (fun row => slice (observation_space_size rb * 2 + 1) (length row - 2) row)
    <$> samples.

(** [samples[:, -2].flatten().to(torch.bool)] *)
Definition get_termination_flag (samples : list tensor) : result (list bool) :=
  mapM_result (fun row => to_bool <$> of_option IndexError (index_from_end 2 row))
              samples.

(** [samples[:, -1].flatten()] *)
Definition get_importance_sampling_id (samples : list tensor) : result tensor :=
  mapM_result (fun row => of_option IndexError (index_from_end 1 row)) samples.

(** *** Sampling *)

(** The occupied rows [self.buffer[:self.num_elements]]. *)
Definition occupied (rb : t) : list tensor := take (num_elements rb) (buffer rb).

(** [compute_importance_sampling_probs] *)
Definition compute_importance_sampling_probs (rb : t) : result tensor :=
  imp_sampling_ids ← column_from_end 1 (occupied rb);
  min_id ← tensor_min imp_sampling_ids;
  Ok ((fun id => tadd (tsub id min_id) tone) <$> imp_sampling_ids).

(** [sample_probs[crashed_flag] = sample_probs[crashed_flag] * 2]: the
    mask must have the shape of the tensor it indexes. *)
Definition double_where (mask : list bool) (probs : tensor) : result tensor :=
  if decide (length mask = length probs) then
    Ok (zip_with (fun (m : bool) p => if m then tmul p (Num 2) else p) mask probs)
  else Err IndexError.

(** The probability vector that [sample] hands to the generator. *)
Definition sample_probs (rb : t) : result tensor :=
  let uniform_probs :=
    replicate (num_elements rb)
              (tdiv tone (Num (inject_Z (Z.of_nat (num_elements rb))))) in
  probs ← (if importance_sampling rb then compute_importance_sampling_probs rb
           else Ok uniform_probs);
  probs ← (if prioritise_crashes rb then
             flags ← column_from_end 2 (occupied rb);
             double_where (to_bool <$> flags) probs
           else Ok probs);
  match probs with
  | [] => Err IndexError
  | _ => Ok ((fun p => tdiv p (tsum probs)) <$> probs)
  end.

(** *** Selection weights, as the specification words them *)

(** The importance sampling id of a row (its last column). *)
Definition id_of (row : tensor) : Q :=
  match index_from_end 1 row with
  | Some (Num q) => q
  | _ => 0%Q
  end.

(** The terminal flag of a row (its last column but one). *)
Definition is_terminal (row : tensor) : bool :=
  match index_from_end 2 row with
  | Some x => to_bool x
  | None => false
  end.

(** The smallest id among the occupied rows. *)
Definition min_id (rb : t) : Q :=
  match id_of <$> occupied rb with
  | [] => 0%Q
  | q :: qs => fold_left Qmin qs q
  end.

(** Weight 1 without importance sampling, [id - min_id + 1] with it;
    doubled for a terminal row when crashes are prioritised. *)
Definition selection_weight (rb : t) (row : tensor) : Q :=
  let base := (if importance_sampling rb then id_of row - min_id rb + 1 else 1)%Q in
  if prioritise_crashes rb && is_terminal row then (base * 2)%Q else base.

Definition total_weight (rb : t) : Q :=
  fold_left Qplus (selection_weight rb <$> occupied rb) 0%Q.

(** No occupied row has [nan] as its id. *)
Definition finite_ids (rb : t) : Prop :=
  Forall (fun row => exists q, index_from_end 1 row = Some (Num q)) (occupied rb).

(** The weight of a row before normalisation, as [sample] computes
    it: the uniform base is [1/n] where the specification has 1. *)
Definition raw_weight (rb : t) (row : tensor) : Q :=
  let base := (if importance_sampling rb then id_of row - min_id rb + 1
               else 1 / inject_Z (Z.of_nat (num_elements rb)))%Q in
  if prioritise_crashes rb && is_terminal row then (base * 2)%Q else base.

Definition raw_total (rb : t) : Q :=
  fold_left Qplus (raw_weight rb <$> occupied rb) 0%Q.

(** The weights of the specification and those of the code differ by
    one positive factor. *)
Definition weight_scale (rb : t) : Q :=
  (if importance_sampling rb then 1
   else 1 / inject_Z (Z.of_nat (num_elements rb)))%Q.

(** [max(1, round(sample_size))] *)
Definition sample_count (sample_size : Q) : Z := Z.max 1 (py_round sample_size).

(** [sample]: the rows drawn and the generator after the draws. *)
Definition sample (rb : t) (rng : Generator.t) (sample_size : Q)
    : result (list tensor) * Generator.t :=
  match sample_probs rb with
  | Err e => (Err e, rng)
  | Ok probs =>
      match Generator.choice rng (num_elements rb) probs
              (Z.to_nat (sample_count sample_size)) with
      | (Err e, rng') => (Err e, rng')
      | (Ok sample_indices, rng') =>
          (mapM_result (fun i => of_option IndexError (buffer rb !! i))
                       sample_indices, rng')
      end
  end.

(** *** get_actions *)

(** [x.to(torch.int64)] on an entry: a number within the range of a
    64-bit integer is truncated toward zero; what torch gives for
    [nan] and for numbers out of range is not specified, and is taken
    from [unspecified_cast]. *)
Definition to_int64 (unspecified_cast : tval -> Z) (x : tval) : Z :=
  match x with
  | Num q =>
      let z := Z.quot (Qnum q) (Zpos (Qden q)) in
      if bool_decide (- 2 ^ 63 <= z < 2 ^ 63)%Z then z else unspecified_cast x
  | NaN => unspecified_cast x
  end.

(** [t.repeat_interleave(repeats)]: every entry in turn, [repeats] times. *)
Definition repeat_interleave {A} (repeats : nat) (xs : list A) : list A :=
  xs ≫= replicate repeats.

(** [count] consecutive groups of [k] entries. *)
Fixpoint groups {A} (k count : nat) (xs : list A) : list (list A) :=
  match count with
  | 0 => []
  | S count' => take k xs :: groups k count' (drop k xs)
  end.

(** [t.reshape(-1, k, 1)]: the number of entries must be a multiple of
    [k]; for [k = 0] the free dimension cannot be inferred. *)
Definition reshape_groups {A} (k : nat) (xs : list A) : result (list (list (list A))) :=
  if decide (k = 0) then Err RuntimeError
  else if decide (length xs mod k = 0) then
    Ok (map (map (fun x => [x])) (groups k (length xs / k) xs))
  else Err RuntimeError.

(** [get_actions]: column [L] of the batch as integers, each repeated
    once per objective, in the shape (batch, objectives, 1). *)
Definition get_actions (unspecified_cast : tval -> Z) (rb : t)
    (samples : list tensor) : result (list (list (list Z))) :=
  column ← mapM_result
             (fun row => of_option IndexError (row !! observation_space_size rb))
             samples;
  let elem := to_int64 unspecified_cast <$> column in
  reshape_groups (num_objectives rb) (repeat_interleave (num_objectives rb) elem).

(** The scalar id that a multi-sample [push] stores in every row. *)
Definition shared_id (rb : t) (id : option tval) : tval :=
  if importance_sampling rb then default tzero id else tzero.

End ReplayBuffer.

(** ** Python values stored by the loggers *)

#[warnings="-register-all"]
Inductive pyobj : Type :=
| PyNone
| PyBool (b : bool)
| PyInt (z : Z)
| PyFloat (x : float)
| PyStr (s : string)
| PyList (l : list pyobj)
| PyTuple (l : list pyobj).

(** The items that [*x] expands to; [None] when [x] is not iterable.  A
    string iterates over its characters. *)
Definition py_iter (x : pyobj) : option (list pyobj) :=
  match x with
  | PyList l | PyTuple l => Some l
  | PyStr s => Some ((fun c => PyStr (String c EmptyString)) <$> list_ascii_of_string s)
  | PyNone | PyBool _ | PyInt _ | PyFloat _ => None
  end.

(** Keyword arguments, in call order. *)
Definition kwargs := list (string * pyobj).

Fixpoint kw_lookup (k : string) (kw : kwargs) : option pyobj :=
  match kw with
  | [] => None
  | (k', v) :: rest => if decide (k = k') then Some v else kw_lookup k rest
  end.

(** A keyword call of a method [def f(self, *args, **kwargs)]: a
    keyword named [self] collides with the receiver, and the call
    raises a type error before the body runs. *)
Definition binds_self (kw : kwargs) : bool :=
  existsb (fun kv => bool_decide (kv.1 = "self"%string)) kw.

(** ** Names accepted by [collections.namedtuple]

    The type name and every field name must be an identifier and no
    keyword; a field name must not start with an underscore.  Names
    are ASCII strings here: [isidentifier] accepts a letter or an
    underscore followed by letters, digits and underscores, and
    refuses the letters outside ASCII that Python accepts as well. *)

Definition is_letter (c : ascii) : bool :=
  let n := nat_of_ascii c in
  (Nat.leb 65 n && Nat.leb n 90) || (Nat.leb 97 n && Nat.leb n 122).

Definition is_digit (c : ascii) : bool :=
  let n := nat_of_ascii c in Nat.leb 48 n && Nat.leb n 57.

Definition is_underscore (c : ascii) : bool := Nat.eqb (nat_of_ascii c) 95.

Definition isidentifier (s : string) : bool :=
  match s with
  | EmptyString => false
  | String c rest =>
      (is_letter c || is_underscore c)
      && forallb (fun c => is_letter c || is_digit c || is_underscore c)
                 (list_ascii_of_string rest)
  end.

(** [keyword.kwlist] *)
Definition kwlist : list string :=
  ["False"; "None"; "True"; "and"; "as"; "assert"; "async"; "await"; "break";
   "class"; "continue"; "def"; "del"; "elif"; "else"; "except"; "finally";
   "for"; "from"; "global"; "if"; "import"; "in"; "is"; "lambda"; "nonlocal";
   "not"; "or"; "pass"; "raise"; "return"; "try"; "while"; "with";
   "yield"]%string.

Definition iskeyword (s : string) : bool := bool_decide (s ∈ kwlist).

Definition starts_with_underscore (s : string) : bool :=
  match s with
  | EmptyString => false
  | String c _ => is_underscore c
  end.

(** ** DataLogger (src/utils.py) *)

Module DataLogger.

Record t : Type := mk {
  loggerName : string;
  fieldNames : list string;
  tuple_list : list (list pyobj)
}.

(** [__init__]: [namedtuple] raises a value error unless the type name
    and the field names are identifiers and no keywords, and the field
    names are distinct and do not start with an underscore. *)
Definition init (name : string) (fields : list string) : result t :=
  if forallb (fun n => isidentifier n && negb (iskeyword n)) (name :: fields)
     && forallb (fun n => negb (starts_with_underscore n)) fields
     && bool_decide (NoDup fields)
  then Ok {| loggerName := name; fieldNames := fields; tuple_list := [] |}
  else Err ValueError.

(** [self.tupleType( *args, **kwargs)]: the call of a function whose
    parameters are the fields, none with a default.  Positional
    arguments fill the first fields; every keyword must name one of
    the remaining fields; every remaining field must be named. *)
Definition make_tuple (fields : list string) (args : list pyobj) (kw : kwargs)
    : result (list pyobj) :=
  if decide (length args <= length fields) then
    let remaining := drop (length args) fields in
    if forallb (fun kv => bool_decide (kv.1 ∈ remaining)) kw
       && bool_decide (length kw = length remaining)
    then
      match mapM (fun f => kw_lookup f kw) remaining with
      | Some vs => Ok (args ++ vs)
      | None => Err TypeError
      end
    else Err TypeError
  else Err TypeError.

Definition append (lg : t) (row : list pyobj) : t :=
  {| loggerName := loggerName lg;
     fieldNames := fieldNames lg;
     tuple_list := tuple_list lg ++ [row] |}.

(** [_add_by_list]: the row is built before it is appended, so a
    failed call leaves the logger as it was. *)
Definition _add_by_list (lg : t) (entry_list : pyobj) : result unit * t :=
  match py_iter entry_list with
  | None => (Err TypeError, lg)
  | Some items =>
      match make_tuple (fieldNames lg) items [] with
      | Ok row => (Ok (), append lg row)
      | Err e => (Err e, lg)
      end
  end.

(** [_add_by_params(self, *args, **kwargs)] *)
Definition _add_by_params (lg : t) (args : list pyobj) (kw : kwargs)
    : result unit * t :=
  if binds_self kw then (Err TypeError, lg)
  else
    match make_tuple (fieldNames lg) args kw with
    | Ok row => (Ok (), append lg row)
    | Err e => (Err e, lg)
    end.

(** [add(self, *args, **kwargs)]: one positional argument and no
    keyword, or no positional argument and one keyword, is expanded as
    a list; every other call is passed on as it is.  No keyword can be
    named [self]. *)
Definition add (lg : t) (args : list pyobj) (kw : kwargs) : result unit * t :=
  if binds_self kw then (Err TypeError, lg)
  else if bool_decide (length args = 1) && bool_decide (length kw = 0) then
    match args with
    | x :: _ => _add_by_list lg x
    | [] => (Err IndexError, lg)
    end
  else if bool_decide (length args = 0) && bool_decide (length kw = 1) then
    match kw with
    | (_, v) :: _ => _add_by_list lg v
    | [] => (Err IndexError, lg)
    end
  else _add_by_params lg args kw.

(** *** Call shapes, as the specification words them *)

(** The argument list matches the declared fields: the positional
    arguments fill the first fields, every keyword names one of the
    remaining fields, and every remaining field is named; [row] lists
    the values in field order. *)
Definition matches (fields : list string) (args : list pyobj) (kw : kwargs)
    (row : list pyobj) : Prop :=
  length args + length kw = length fields
  /\ (forall kv, kv ∈ kw -> kv.1 ∈ drop (length args) fields)
  /\ exists vs, Forall2 (fun f v => kw_lookup f kw = Some v)
                         (drop (length args) fields) vs
                 /\ row = args ++ vs.

(** The three accepted shapes of a call of [add] and the row each one
    appends: one positional sequence, one keyword, not named [self],
    whose value is the sequence, or, for any other number of
    arguments, a direct argument list without a keyword named
    [self]. *)
Inductive accepted (fields : list string) : list pyobj -> kwargs -> list pyobj -> Prop :=
| accepted_sequence x items :
    py_iter x = Some items -> length items = length fields ->
    accepted fields [x] [] items
| accepted_keyword k v items :
    k <> "self"%string ->
    py_iter v = Some items -> length items = length fields ->
    accepted fields [] [(k, v)] items
| accepted_direct args kw row :
    length args + length kw <> 1 ->
    (forall kv, kv ∈ kw -> kv.1 <> "self"%string) ->
    matches fields args kw row ->
    accepted fields args kw row.

End DataLogger.

(** ** Matrices as lists of rows *)

(** [torch.stack(rows, dim=0)]: at least one row, all of one length. *)
Definition stack (rows : list tensor) : result (list tensor) :=
  match rows with
  | [] => Err RuntimeError
  | first :: _ =>
      if forallb (fun row => bool_decide (length row = length first)) rows
      then Ok rows else Err RuntimeError
  end.

(** [weights[torch.all(weights == 0, dim=1)] = fill]: every row whose
    entries are all zero is overwritten with [fill] in each slot. *)
Definition fill_zero_rows (fill : tval) (weights : list tensor) : list tensor :=
  (fun row => if forallb is_zero row then (fun _ => fill) <$> row else row)
    <$> weights.

(** Elementwise product of two rows under torch's broadcasting rule. *)
Definition row_mul (a b : tensor) : result tensor :=
  if decide (length a = length b) then Ok (zip_with tmul a b)
  else match a, b with
       | [x], _ => Ok (tmul x <$> b)
       | _, [y] => Ok ((fun x => tmul x y) <$> a)
       | _, _ => Err RuntimeError
       end.

Fixpoint zip_rows (r w : list tensor) : result (list tensor) :=
  match r, w with
  | a :: r', b :: w' =>
      c ← row_mul a b;
      rest ← zip_rows r' w';
      Ok (c :: rest)
  | _, _ => Ok []
  end.

(** [r * weights] for two matrices, broadcasting a single row. *)
Definition broadcast_mul (r w : list tensor) : result (list tensor) :=
  if decide (length r = length w) then zip_rows r w
  else match r, w with
       | [a], _ => mapM_result (row_mul a) w
       | _, [b] => mapM_result (fun a => row_mul a b) r
       | _, _ => Err RuntimeError
       end.

(** Column [j] of a matrix; a missing entry reads as [nan]. *)
Definition column (j : nat) (m : list tensor) : tensor :=
  (fun row => default NaN (row !! j)) <$> m.

(** [torch.mean(m, dim=0)] of a matrix with [ncols] columns: per column,
    the sum over the rows divided by the number of rows (no row: [nan]). *)
Definition mean_dim0 (ncols : nat) (m : list tensor) : tensor :=
  (fun j => tdiv (tsum (column j m)) (Num (inject_Z (Z.of_nat (length m)))))
    <$> seq 0 ncols.

(** Number of columns of a product; without rows, that of the weights. *)
Definition ncols_of (m w : list tensor) : nat :=
  match m, w with
  | row :: _, _ => length row
  | [], row :: _ => length row
  | [], [] => 0
  end.

(** *** The mean-reward aggregation, as the specification words it

    Every entry of an all-zero weight row is first replaced with
    [1/num_objectives]; objective [o] of the result is then the
    arithmetic mean, over the rows [j] of the weight matrix, of reward
    [r[j][o]] times weight [w[j][o]]. *)

Definition entry (m : list tensor) (j o : nat) : tval :=
  match m !! j with
  | Some row => default NaN (row !! o)
  | None => NaN
  end.

Definition substituted_weight (num_objectives : nat) (ws : list tensor)
    (j o : nat) : tval :=
  match ws !! j with
  | Some w =>
      if forallb is_zero w then Num (1 / inject_Z (Z.of_nat num_objectives))
      else default NaN (w !! o)
  | None => NaN
  end.

Definition spec_mean_reward (num_objectives ncols : nat) (r ws : list tensor)
    : tensor :=
  (fun o =>
     tdiv (tsum ((fun j => tmul (entry r j o)
                                (substituted_weight num_objectives ws j o))
                 <$> seq 0 (length ws)))
          (Num (inject_Z (Z.of_nat (length ws)))))
    <$> seq 0 ncols.

(** [torch.max] of two entries; [nan] propagates. *)
Definition tmax (x y : tval) : tval :=
  match x, y with
  | Num a, Num b => if Qle_bool b a then Num a else Num b
  | _, _ => NaN
  end.

(** [torch.abs] of an entry. *)
Definition tabs (x : tval) : tval :=
  match x with
  | Num a => Num (Qabs a)
  | NaN => NaN
  end.

(** [torch.max(t, dim)] along one line of a tensor: the line must not
    be empty. *)
Definition tensor_max (xs : tensor) : result tval :=
  match xs with
  | [] => Err IndexError
  | x :: rest => Ok (fold_left tmax rest x)
  end.

(** [torch.swapaxes(m, 0, 1)] of a matrix with at least one row. *)
Definition swapaxes (m : list tensor) : list tensor :=
  match m with
  | [] => []
  | first :: _ => (fun j => column j m) <$> seq 0 (length first)
  end.

(** [torch.sum(m, dim=0)] of a matrix with at least one row. *)
Definition sum_dim0 (m : list tensor) : tensor :=
  match m with
  | [] => []
  | first :: _ => (fun j => tsum (column j m)) <$> seq 0 (length first)
  end.

(** ** Scalarisation (src/utils.py)

    The Q-value estimates are a matrix with one row per objective and
    one column per action. *)

Module LinearScalarisation.

(** [scalarise_actions]: the weights, reshaped to one column, scale the
    rows; the rows are then summed. *)
Definition scalarise_actions (action_q_estimates : list tensor)
    (objective_weights : tensor) : result tensor :=
  utility_values ← broadcast_mul action_q_estimates
                                 ((fun w => [w]) <$> objective_weights);
  Ok (sum_dim0 utility_values).

(** The weighted sum of the Q-values of action [a] over the
    objectives: what the scalarisation is meant to compute. *)
Definition utility (qs : list (list Q)) (ws : list Q) (a : nat) : Q :=
  fold_left Qplus (zip_with (fun row w => default 0 (row !! a) * w) qs ws)%Q 0%Q.

End LinearScalarisation.

Module ChebyshevScalarisation.

Record t : Type := mk {
  z_star : tensor;
  threshold : Q
}.

(** [torch.vstack([m, v])]: the rows of [m] must have the length of [v]. *)
Definition vstack (m : list tensor) (v : tensor) : result (list tensor) :=
  if forallb (fun row => bool_decide (length row = length v)) m
  then Ok (m ++ [v]) else Err RuntimeError.

(** [update_utopian]: the new utopian point is the column-wise maximum
    of the update vectors and the old point. *)
Definition update_utopian (s : t) (update_vector : list tensor) : result t :=
  comparison_tensor ← vstack update_vector (z_star s);
  z ← mapM_result (fun j => tensor_max (column j comparison_tensor))
                  (seq 0 (length (z_star s)));
  Ok {| z_star := z; threshold := threshold s |}.

(** [scalarise_actions]: the scalarised values, one per action, and the
    object with its utopian point updated. *)
Definition scalarise_actions (s : t) (action_q_estimates : list tensor)
    (objective_weights : tensor) : result (tensor * t) :=
  let action_q_estimates := swapaxes action_q_estimates in
  s' ← update_utopian s action_q_estimates;
  let z_final := (fun z => tadd z (Num (threshold s'))) <$> z_star s' in
  let diffs := (fun row => zip_with tsub row z_final) <$> action_q_estimates in
  let abs_diffs := fmap tabs <$> diffs in
  weighted_diffs ← mapM_result (row_mul objective_weights) abs_diffs;
  sq_values ← mapM_result tensor_max weighted_diffs;
  Ok (sq_values, s').

(** *** The utopian point and the scalarised value, on numbers *)

(** The largest entry of a list (0 for the empty list). *)
Definition largest (xs : list Q) : Q :=
  match xs with
  | [] => 0%Q
  | x :: rest => fold_left Qmax rest x
  end.

(** Entry [j] of every row. *)
Definition entries (j : nat) (rows : list (list Q)) : list Q :=
  (fun row => default 0%Q (row !! j)) <$> rows.

(** The utopian point after an update: per objective, the largest of
    the entries of the update vectors and the old entry. *)
Definition updated_z (z : list Q) (rows : list (list Q)) : list Q :=
  (fun j => largest (entries j rows ++ [default 0%Q (z !! j)]))
    <$> seq 0 (length z).

(** The Q-values per action, for [A] actions: the transposed matrix. *)
Definition per_action (A : nat) (qs : list (list Q)) : list (list Q) :=
  (fun a => entries a qs) <$> seq 0 A.

(** The weighted Chebyshev distance of action [a] from the utopian
    point [z] shifted by [tau]. *)
Definition distance (qs : list (list Q)) (z : list Q) (tau : Q) (ws : list Q)
    (a : nat) : Q :=
  largest (zip_with Qmult ws
             (zip_with (fun q zo => Qabs (q - (zo + tau)))%Q (entries a qs) z)).

End ChebyshevScalarisation.

(** ** random_objective_weights (src/utils.py) *)

(** [num_objectives] uniform draws, divided by their sum ([np.sum]);
    a zero sum gives [nan] entries. *)
Definition random_objective_weights (num_objectives : nat) (rng : Generator.t)
    : tensor * Generator.t :=
  let (random_weights, rng') := Generator.random rng num_objectives in
  let total := fold_left Qplus random_weights 0%Q in
  ((fun w => tdiv (Num w) (Num total)) <$> random_weights, rng').

(** Binary64 helpers for the epsilon schedule. *)

(** Python's [max(a, b)]: [b] only when it is greater than [a]. *)
Definition py_max (a b : float) : float := if PrimFloat.ltb a b then b else a.

(** [round(x)] for a finite [x], as a float: below [2^52] in magnitude,
    adding and subtracting [2^52] rounds to the nearest integer, ties to
    even; above, [x] is an integer already. *)
Definition two52 : float := PrimFloat.of_uint63 4503599627370496.

Definition round_half_even (x : float) : float :=
  if PrimFloat.ltb (PrimFloat.abs x) two52 then
    if PrimFloat.ltb x 0%float then PrimFloat.opp ((PrimFloat.opp x + two52) - two52)
    else (x + two52) - two52
  else x.

Definition py_round_float (x : float) : result float :=
  if PrimFloat.is_nan x then Err ValueError
  else if PrimFloat.is_infinity x then Err OverflowError
  else Ok (round_half_even x).

Definition float_of_nat (n : nat) : float :=
  PrimFloat.of_uint63 (Uint63.of_Z (Z.of_nat n)).

(** ** MOMA_DQN (src/MOMA_DQN.py) *)

Module MOMA_DQN.

(** What [env.step] returns, as [train] reads it. *)
Record step_out : Type := mk_step_out {
  so_next_obs : list tensor;
  so_rewards : list (list tensor);
  so_terminated : bool;
  so_truncated : bool;
  info_crashed : list bool;
  info_vehicle_objective_weights : list (list tensor)
}.

(** [self.obs], [self.terminated], [self.truncated] *)
Record rollout : Type := mk_rollout {
  obs : list tensor;
  terminated : bool;
  truncated : bool
}.

(** One linear decay step on binary64 values. *)
Definition epsilon_step (eps max_iteration eps_start eps_end : float) : result float :=
  if PrimFloat.eqb max_iteration 0%float then Err ZeroDivisionError
  else Ok (py_max eps_end (eps - (eps_start - eps_end) / max_iteration)%float).

(** [n] calls of [reduce_epsilon], starting from [eps]. *)
Fixpoint decay (n : nat) (max_iteration eps_start eps_end eps : float)
    : result float :=
  match n with
  | 0 => Ok eps
  | S k =>
      e ← epsilon_step eps max_iteration eps_start eps_end;
      decay k max_iteration eps_start eps_end e
  end.

(** The binary64 values of the literals [0.9] and [10]. *)
Definition f0_9 : float := 0x1.ccccccccccccdp-1%float.
Definition f10 : float := 10%float.

(** [single_obs[~torch.isnan(single_obs)].reshape(1,-1)] *)
Definition strip_nan (single_obs : tensor) : tensor :=
  filter (fun x => isnan x = false) single_obs.

(** *** The targets of [__update_weights]

    The networks' outputs for a batch are tensors of the shape
    (batch, objectives, actions): one matrix per sample, one row per
    objective. *)

(** Whether [x] replaces the best entry so far in [torch.argmax]:
    [nan] counts as the largest, the first of equal entries is kept. *)
Definition beats (x best : tval) : bool :=
  match best, x with
  | NaN, _ => false
  | Num _, NaN => true
  | Num b, Num a => negb (Qle_bool a b)
  end.

Fixpoint argmax_from (best : tval) (best_i i : nat) (xs : tensor) : nat :=
  match xs with
  | [] => best_i
  | x :: rest =>
      if beats x best then argmax_from x i (S i) rest
      else argmax_from best best_i (S i) rest
  end.

(** [t.argmax(dim)] along one line, which must not be empty. *)
Definition argmax (xs : tensor) : result nat :=
  match xs with
  | [] => Err IndexError
  | x :: rest => Ok (argmax_from x 0 1 rest)
  end.

(** The greedy branch of [act] with the default scalarisation, from
    the Q-values of the policy net reshaped to one row per objective:
    [torch.argmax(scalarise_actions(q_values, objective_weights)).item()]. *)
Definition greedy_action (q_values : list tensor) (objective_weights : tensor)
    : result nat :=
  scalarised_values ←
    LinearScalarisation.scalarise_actions q_values objective_weights;
  argmax scalarised_values.

(** [values.gather(2, index).squeeze(2)] for one sample: the index
    may have fewer rows than the values; an index beyond the row
    raises. *)
Definition gather (values : list tensor) (index : list nat) : result tensor :=
  if decide (length index <= length values) then
    mapM_result (fun vi => of_option RuntimeError (vi.1 !! vi.2)) (zip values index)
  else Err RuntimeError.

Definition gather_batch (values : list (list tensor)) (index : list (list nat))
    : result (list tensor) :=
  if decide (length index <= length values) then
    mapM_result (fun vi => gather vi.1 vi.2) (zip values index)
  else Err RuntimeError.

(** The value of the next state per sample and objective: the target
    net's estimate of the action that the policy net prefers, or the
    target net's largest estimate. *)
Definition next_state_values (use_double_q_learning : bool)
    (policy_next target_next : list (list tensor)) : result (list tensor) :=
  if use_double_q_learning then
    best_actions_policy_net ← mapM_result (mapM_result argmax) policy_next;
    gather_batch target_next best_actions_policy_net
  else mapM_result (mapM_result tensor_max) target_next.

(** [next_state_values[term_flags] = 0]: the mask must have one
    entry per sample. *)
Definition zero_where (mask : list bool) (m : list tensor) : result (list tensor) :=
  if decide (length mask = length m) then
    Ok (zip_with (fun (b : bool) row => if b then (fun _ => tzero) <$> row else row)
                 mask m)
  else Err IndexError.

(** Elementwise sum of two rows under torch's broadcasting rule. *)
Definition row_add (a b : tensor) : result tensor :=
  if decide (length a = length b) then Ok (zip_with tadd a b)
  else match a, b with
       | [x], _ => Ok (tadd x <$> b)
       | _, [y] => Ok ((fun x => tadd x y) <$> a)
       | _, _ => Err RuntimeError
       end.

Fixpoint add_rows (r w : list tensor) : result (list tensor) :=
  match r, w with
  | a :: r', b :: w' =>
      c ← row_add a b;
      rest ← add_rows r' w';
      Ok (c :: rest)
  | _, _ => Ok []
  end.

(** [r + w] for two matrices, broadcasting a single row. *)
Definition broadcast_add (r w : list tensor) : result (list tensor) :=
  if decide (length r = length w) then add_rows r w
  else match r, w with
       | [a], _ => mapM_result (row_add a) w
       | _, [b] => mapM_result (fun a => row_add a b) r
       | _, _ => Err RuntimeError
       end.

(** [exp_state_action_values], from the outputs of the two networks
    on the next observations, the termination flags and the rewards
    of the batch. *)
Definition expected_state_action_values (use_double_q_learning : bool) (gamma : Q)
    (policy_next target_next : list (list tensor)) (term_flags : list bool)
    (rewards : list tensor) : result (list tensor) :=
  values ← next_state_values use_double_q_learning policy_next target_next;
  values ← zero_where term_flags values;
  broadcast_add (map (map (fun v => tmul v (Num gamma))) values) rewards.

(** *** The targets on numbers, as a Bellman backup *)

Fixpoint qargmax_from (best : Q) (best_i i : nat) (xs : list Q) : nat :=
  match xs with
  | [] => best_i
  | x :: rest =>
      if Qle_bool x best then qargmax_from best best_i (S i) rest
      else qargmax_from x i (S i) rest
  end.

(** The position of the first largest entry. *)
Definition qargmax (xs : list Q) : nat :=
  match xs with
  | [] => 0
  | x :: rest => qargmax_from x 0 1 rest
  end.

(** The value of the next state for one objective, from the policy
    net's estimates [p] and the target net's estimates [t]. *)
Definition next_value (use_double_q_learning : bool) (p t : list Q) : Q :=
  if use_double_q_learning then default 0%Q (t !! qargmax p)
  else ChebyshevScalarisation.largest t.

(** The targets of one sample: reward plus discounted next value,
    the next value of a terminal sample counting as zero. *)
Definition sample_targets (use_double_q_learning : bool) (gamma : Q)
    (p t : list (list Q)) (terminal : bool) (r : list Q) : list Q :=
  zip_with (fun v r => (if terminal then 0 else v) * gamma + r)%Q
           (zip_with (next_value use_double_q_learning) p t) r.

Definition targets (use_double_q_learning : bool) (gamma : Q)
    (policy_next target_next : list (list (list Q))) (term_flags : list bool)
    (rewards : list (list Q)) : list (list Q) :=
  zip_with (fun pt fr => sample_targets use_double_q_learning gamma
                           pt.1 pt.2 fr.1 fr.2)
           (zip policy_next target_next) (zip term_flags rewards).

(** The estimates of the two networks have one shape, with at least
    one action. *)
Definition same_shape (P T : list (list (list Q))) : Prop :=
  Forall2 (Forall2 (fun p t : list Q => p <> [] /\ length p = length t)) P T.

Section Agent.

(** Everything the agent holds that is not modelled: environment,
    networks, optimiser, generator, loss logger. *)
Context {World : Type}.

Record t : Type := mk {
  num_objectives : nat;
  num_controlled_vehicles : nat;
  reward_structure : string;
  rb_size : nat;
  crashed : list bool;
  num_close_vehicles : nat;
  epsilon : float;
  buffer : ReplayBuffer.t;
  reward_logger : DataLogger.t;
  run : rollout;
  world : World
}.

Definition set_num_close_vehicles (s : t) (n : nat) : t :=
  mk (num_objectives s) (num_controlled_vehicles s) (reward_structure s)
     (rb_size s) (crashed s) n (epsilon s) (buffer s) (reward_logger s)
     (run s) (world s).
Definition set_crashed (s : t) (c : list bool) : t :=
  mk (num_objectives s) (num_controlled_vehicles s) (reward_structure s)
     (rb_size s) c (num_close_vehicles s) (epsilon s) (buffer s)
     (reward_logger s) (run s) (world s).
Definition set_epsilon (s : t) (e : float) : t :=
  mk (num_objectives s) (num_controlled_vehicles s) (reward_structure s)
     (rb_size s) (crashed s) (num_close_vehicles s) e (buffer s)
     (reward_logger s) (run s) (world s).
Definition set_buffer (s : t) (b : ReplayBuffer.t) : t :=
  mk (num_objectives s) (num_controlled_vehicles s) (reward_structure s)
     (rb_size s) (crashed s) (num_close_vehicles s) (epsilon s) b
     (reward_logger s) (run s) (world s).
Definition set_reward_logger (s : t) (l : DataLogger.t) : t :=
  mk (num_objectives s) (num_controlled_vehicles s) (reward_structure s)
     (rb_size s) (crashed s) (num_close_vehicles s) (epsilon s) (buffer s)
     l (run s) (world s).
Definition set_run (s : t) (r : rollout) : t :=
  mk (num_objectives s) (num_controlled_vehicles s) (reward_structure s)
     (rb_size s) (crashed s) (num_close_vehicles s) (epsilon s) (buffer s)
     (reward_logger s) r (world s).
Definition set_world (s : t) (w : World) : t :=
  mk (num_objectives s) (num_controlled_vehicles s) (reward_structure s)
     (rb_size s) (crashed s) (num_close_vehicles s) (epsilon s) (buffer s)
     (reward_logger s) (run s) w.

(** *** compute_reward_summary *)

(** The aggregation of the weighted rewards of one vehicle. *)
Definition summarise (structure : string) (ncols : nat)
    (weighted_reward : list tensor) : result tensor :=
  if decide (structure = "mean_reward"%string) then
    Ok (mean_dim0 ncols weighted_reward)
  else if decide (structure = "ego_reward"%string) then
    of_option IndexError (weighted_reward !! 0)
  else Err ValueError.

(** The not-crashed path of the loop body: [r] are the rewards of
    the vehicle, [ws] its list of weight vectors. *)
Definition weighted_summary (s : t) (r ws : list tensor) : result tensor :=
  weights ← stack ws;
  fill ← (if decide (num_objectives s = 0) then Err ZeroDivisionError
          else Ok (Num (1 / inject_Z (Z.of_nat (num_objectives s)))));
  let weights := fill_zero_rows fill weights in
  r ← (if decide (length weights < length r) then
         if forallb (forallb isnan) (drop (length weights) r)
         then Ok (take (length weights) r)
         else Err AssertionError
       else Ok r);
  weighted_reward ← broadcast_mul r weights;
  summarise (reward_structure s) (ncols_of weighted_reward weights) weighted_reward.

(** One iteration of [for i in range(self.num_controlled_vehicles)]. *)
Definition vehicle_summary (s : t) (rewards obj_weights : list (list tensor))
    (i : nat) : result tensor :=
  r ← of_option IndexError (rewards !! i);
  c ← of_option IndexError (crashed s !! i);
  if (c : bool) then of_option IndexError (r !! 0)
  else
    ws ← of_option IndexError (obj_weights !! i);
    weighted_summary s r ws.

Definition compute_reward_summary (s : t) (rewards obj_weights : list (list tensor))
    : result (list tensor) * t :=
  match rewards with
  | [] => (Err IndexError, s)
  | r0 :: _ =>
      let s' := set_num_close_vehicles s (length r0) in
      (mapM_result (vehicle_summary s' rewards obj_weights)
                   (seq 0 (num_controlled_vehicles s')), s')
  end.

(** *** reduce_epsilon *)

Definition reduce_epsilon (s : t) (max_iteration eps_start eps_end : float)
    : result unit * t :=
  match epsilon_step (epsilon s) max_iteration eps_start eps_end with
  | Ok e => (Ok (), set_epsilon s e)
  | Err e => (Err e, s)
  end.

(** *** train

    The agent is threaded through [train] as a state; an exception
    stops the run and leaves the state it was raised in.  The
    environment, the policy and the optimisation step are given as
    functions on [World]. *)

Definition M (A : Type) : Type := t -> result A * t.

Definition ret {A} (a : A) : M A := fun s => (Ok a, s).
Definition bind {A B} (m : M A) (f : A -> M B) : M B := fun s =>
  match m s with
  | (Ok a, s') => f a s'
  | (Err e, s') => (Err e, s')
  end.
Definition raise {A} (e : exn) : M A := fun s => (Err e, s).
Definition get : M t := fun s => (Ok s, s).
Definition modify (f : t -> t) : M unit := fun s => (Ok (), f s).
Definition lift_result {A} (r : result A) : M A := fun s => (r, s).
Definition lift_world {A} (f : World -> result A * World) : M A := fun s =>
  let (r, w) := f (world s) in (r, set_world s w).

Local Notation "'do' x <- m ; k" := (bind m (fun x => k))
  (at level 10, x name, m at level 100, k at level 200).
Local Notation "'exec' m ; k" := (bind m (fun _ => k))
  (at level 10, m at level 100, k at level 200).

(** A row of the reward logger whose objective columns are zero. *)
Definition zero_reward_row (n : nat) (row : list pyobj) : Prop :=
  exists episode_nr : nat,
    row = PyInt (Z.of_nat episode_nr) :: replicate n (PyFloat 0%float).

(** The computation leaves the reward logger and the number of
    objectives as they were. *)
Definition keeps {A} (m : M A) : Prop :=
  forall s, reward_logger (m s).2 = reward_logger s
            /\ num_objectives (m s).2 = num_objectives s.

(** With [n] objectives, the computation only appends rows with
    zero objective columns to the reward logger. *)
Definition logs_zero (n : nat) {A} (m : M A) : Prop :=
  forall s, num_objectives s = n ->
    num_objectives (m s).2 = n
    /\ exists new,
         DataLogger.tuple_list (reward_logger (m s).2)
         = DataLogger.tuple_list (reward_logger s) ++ new
         /\ Forall (zero_reward_row n) new.

(** The computation leaves the reward logger, the number of
    objectives and epsilon as they were. *)
Definition frames {A} (m : M A) : Prop :=
  forall s, reward_logger (m s).2 = reward_logger s
            /\ num_objectives (m s).2 = num_objectives s
            /\ epsilon (m s).2 = epsilon s.

(** The computation always raises, and leaves the reward logger as
    it was. *)
Definition raises_quietly {A} (m : M A) : Prop :=
  forall s, is_ok (m s).1 = false /\ reward_logger (m s).2 = reward_logger s.

Record train_params : Type := mk_train_params {
  num_episodes : nat;
  inv_optimisation_frequency : nat;
  inv_target_update_frequency : nat;
  epsilon_start : float;
  epsilon_end : float;
  epsilon_end_time : float;
  num_evaluations : nat;
  eval_seed : nat
}.

(** [self.env.reset()], flattened observations per vehicle. *)
Variable env_reset : World -> result (list tensor) * World.
(** The weights drawn at episode start and set on every vehicle. *)
Variable resample_objective_weights : World -> World.
(** [self.act(self.obs, eps_greedy=True)] under the current epsilon. *)
Variable act : float -> list tensor -> World -> result (list Z) * World.
(** [self.env.step(self.actions)] *)
Variable env_step : list Z -> World -> result step_out * World.
(** [__update_weights], reading the replay buffer. *)
Variable update_weights : nat -> nat -> nat -> ReplayBuffer.t -> World
                          -> result unit * World.
(** [evaluate], which also overwrites the rollout fields; its
    third result is the hypervolume. *)
Variable evaluate : nat -> rollout -> World -> result float * (rollout * World).
(** Loggers, optimiser and loss set up before the first episode. *)
Variable train_setup : World -> World.
(** The table that pandas builds after the last episode from the
    loss logger, which has at least one row, and, when evaluations
    were asked for, the hypervolume logger; row by row. *)
Variable prepare_logger_data : nat -> DataLogger.t -> World
                               -> result (list (list pyobj)).

(** [self.buffer.push(self.obs, self.actions, self.next_obs,
    reward_summary, self.crashed, episode_nr, num_samples=...)] *)
Definition push_transitions (next_obs : list tensor) (actions : list Z)
    (reward_summary : list tensor) (episode_nr : nat) : M unit :=
  do s <- get;
  do b <- lift_result
            (ReplayBuffer.push_multi (buffer s) (obs (run s))
               ((fun a => Num (inject_Z a)) <$> actions) next_obs reward_summary
               (crashed s) (Some (Num (inject_Z (Z.of_nat episode_nr))))
               (num_controlled_vehicles s));
  modify (fun s => set_buffer s b).

(** The body of [while not (self.terminated or self.truncated)]. *)
Definition rollout_body (episode_nr : nat) : M unit :=
  do s <- get;
  do actions <- lift_world (act (epsilon s) (obs (run s)));
  do out <- lift_world (env_step actions);
  exec modify (fun s => set_run s (mk_rollout (obs (run s)) (so_terminated out)
                                             (so_truncated out)));
  exec modify (fun s => set_crashed s (info_crashed out));
  let next_obs := strip_nan <$> so_next_obs out in
  do reward_summary <- (fun s => compute_reward_summary s (so_rewards out)
                                   (info_vehicle_objective_weights out));
  exec push_transitions next_obs actions reward_summary episode_nr;
  modify (fun s => set_run s (mk_rollout next_obs (terminated (run s))
                                         (truncated (run s)))).

(** The [while] loop; [fuel] bounds the number of iterations. *)
Fixpoint rollout_loop (fuel : nat) (episode_nr : nat) : M unit :=
  match fuel with
  | 0 => raise Diverged
  | S fuel' =>
      do s <- get;
      if terminated (run s) || truncated (run s) then ret ()
      else exec rollout_body episode_nr; rollout_loop fuel' episode_nr
  end.

(** [np.zeros(self.num_objectives)] as the logger receives it. *)
Definition np_zeros (n : nat) : list pyobj := replicate n (PyFloat 0%float).

(** [hv_logger.add(episode=episode_nr, hypervolume=hv)] *)
Definition log_hypervolume (hv_logger : DataLogger.t) (episode_nr : nat)
    (hv : float) : M DataLogger.t :=
  match DataLogger.add hv_logger []
          [("episode"%string, PyInt (Z.of_nat episode_nr));
           ("hypervolume"%string, PyFloat hv)] with
  | (Ok _, l) => ret l
  | (Err e, _) => raise e
  end.

(** One iteration of the training loop.  The local variables that
    live across episodes are the number of optimisation steps and
    the hypervolume logger. *)
Definition train_episode (p : train_params) (fuel : nat) (eval_interval : Z)
    (max_eps_iteration : float) (episode_nr : nat)
    (locals : nat * DataLogger.t) : M (nat * DataLogger.t) :=
  let (num_of_conducted_optimisation_steps, hv_logger) := locals in
  exec modify (fun s => set_run s (mk_rollout (obs (run s)) false false));
  do raw <- lift_world env_reset;
  exec modify (fun s => set_run s (mk_rollout (strip_nan <$> raw)
                                    (terminated (run s)) (truncated (run s))));
  do s <- get;
  let accumulated_rewards := np_zeros (num_objectives s) in
  exec modify (fun s => set_world s (resample_objective_weights (world s)));
  exec rollout_loop fuel episode_nr;
  do steps <-
    (if decide (inv_optimisation_frequency p = 0) then raise ZeroDivisionError
     else
       do s <- get;
       if bool_decide (episode_nr mod inv_optimisation_frequency p = 0)
          && bool_decide (ReplayBuffer.num_elements (buffer s) = rb_size s)
       then
         exec lift_world (update_weights episode_nr
                           num_of_conducted_optimisation_steps
                           (inv_target_update_frequency p) (buffer s));
         ret (num_of_conducted_optimisation_steps + 1)
       else ret num_of_conducted_optimisation_steps);
  do hv_logger <-
    (if decide (num_evaluations p = 0) then ret hv_logger
     else if decide (eval_interval = 0%Z) then raise ZeroDivisionError
     else if bool_decide ((Z.of_nat episode_nr mod eval_interval)%Z = 0%Z) then
       do hv <- (fun s =>
                   let '(r, (ro, w)) := evaluate (eval_seed p) (run s) (world s) in
                   (r, set_world (set_run s ro) w));
       log_hypervolume hv_logger episode_nr hv
     else ret hv_logger);
  exec (fun s => reduce_epsilon s max_eps_iteration (epsilon_start p) (epsilon_end p));
  exec (fun s =>
         let (r, l) := DataLogger.add (reward_logger s)
                         (PyInt (Z.of_nat episode_nr) :: accumulated_rewards) [] in
         (r, set_reward_logger s l));
  ret (steps, hv_logger).

(** [for episode_nr in trange(num_episodes)] *)
Fixpoint train_loop (p : train_params) (fuel : nat) (eval_interval : Z)
    (max_eps_iteration : float) (episodes : list nat)
    (locals : nat * DataLogger.t) : M (nat * DataLogger.t) :=
  match episodes with
  | [] => ret locals
  | episode_nr :: rest =>
      do locals' <- train_episode p fuel eval_interval max_eps_iteration
                      episode_nr locals;
      train_loop p fuel eval_interval max_eps_iteration rest locals'
  end.

(** The end of [train], after the loop.  [__update_weights] logs one
    loss per call, so the loss logger has as many rows as optimisation
    steps were conducted.  Without a row, [to_dataframe] gives a table
    without columns, and reading its column [episode] raises a key
    error. *)
Definition logger_data (p : train_params) (locals : nat * DataLogger.t)
    : M (list (list pyobj)) :=
  let (num_of_conducted_optimisation_steps, hv_logger) := locals in
  if decide (num_of_conducted_optimisation_steps = 0) then raise KeyError
  else
    do s <- get;
    lift_result (prepare_logger_data (num_evaluations p) hv_logger (world s)).

(** [train]; the result is the returned table. *)
Definition train (p : train_params) (fuel : nat) : M (list (list pyobj)) :=
  let eval_interval :=
    if decide (num_evaluations p = 0) then 0%Z
    else py_round (inject_Z (Z.of_nat (num_episodes p))
                   / inject_Z (Z.of_nat (num_evaluations p))) in
  exec modify (fun s => set_world s (train_setup (world s)));
  do hv_logger <- lift_result
                    (DataLogger.init "hv_logger" ["episode"; "hypervolume"]%string);
  exec modify (fun s => set_epsilon s (epsilon_start p));
  do max_eps_iteration <-
    lift_result (py_round_float (float_of_nat (num_episodes p) * epsilon_end_time p)%float);
  do locals <- train_loop p fuel eval_interval max_eps_iteration
                 (seq 0 (num_episodes p)) (0, hv_logger);
  logger_data p locals.

End Agent.

Arguments t : clear implicits.

End MOMA_DQN.

(** ** MOHighwayEnv (src/envs/mo_highway_env.py) *)

Module MOHighwayEnv.

Local Open Scope Q_scope.

(** The entries of the configuration that the reward reads.  Every
    key is present ([default_config] sets them all and [configure]
    only updates), so [config.get(name, 0)] never takes its default. *)
Record config : Type := mk_config {
  collision_reward : Q;
  right_lane_reward : Q;
  high_speed_reward : Q;
  lane_change_reward : Q;
  energy_consumption_reward : Q;
  reward_speed_range : Q * Q;
  normalize_reward : bool
}.

Definition default_config : config :=
  {| collision_reward := -1;
     right_lane_reward := 2 # 10;
     high_speed_reward := 1;
     lane_change_reward := 0;
     energy_consumption_reward := 1;
     reward_speed_range := (20, 30);
     normalize_reward := true |}.

(** The ego vehicle as the reward reads it: [cos_heading] is
    [np.cos(heading)]; [target_lane_index] is present for a
    [ControlledVehicle]; lane indices are the third component. *)
Record vehicle : Type := mk_vehicle {
  speed : Q;
  cos_heading : Q;
  lane_index : nat;
  target_lane_index : option nat;
  crashed : bool
}.

(** A numpy float: a rational number, an infinity or nan.  The
    configuration and the lane arithmetic are Python numbers, which
    are rationals here; the forward speed is a numpy float (a product
    with [np.cos]), and so is everything computed from it.  Rounding
    is not represented, and the rationals have one zero, which counts
    as positive when it divides. *)
Inductive npfloat : Type :=
| Fin (q : Q)
| PosInf
| NegInf
| Nan.

(** [x + q], [q + x], [x - q], [x * q] and [x / q] for a numpy float
    [x] and a Python number [q].  A division by zero gives an infinity or nan
    (numpy warns and goes on). *)
Definition np_add (x : npfloat) (q : Q) : npfloat :=
  match x with
  | Fin a => Fin (a + q)
  | _ => x
  end.

Definition np_radd (q : Q) (x : npfloat) : npfloat :=
  match x with
  | Fin a => Fin (q + a)
  | _ => x
  end.

Definition np_sub (x : npfloat) (q : Q) : npfloat :=
  match x with
  | Fin a => Fin (a - q)
  | _ => x
  end.

Definition np_neg (x : npfloat) : npfloat :=
  match x with
  | Fin a => Fin (- a)
  | PosInf => NegInf
  | NegInf => PosInf
  | Nan => Nan
  end.

(** The infinity of the sign of [s] times the sign of [x]; nan when [s]
    is zero. *)
Definition signed_inf (x : npfloat) (s : Q) : npfloat :=
  if Qeq_bool s 0 then Nan
  else if Qle_bool 0 s then x else np_neg x.

Definition np_mul (x : npfloat) (q : Q) : npfloat :=
  match x with
  | Fin a => Fin (a * q)
  | PosInf | NegInf => signed_inf x q
  | Nan => Nan
  end.

Definition np_div (x : npfloat) (q : Q) : npfloat :=
  match x with
  | Fin a => if Qeq_bool q 0 then signed_inf PosInf a else Fin (a / q)
  | PosInf | NegInf => if Qle_bool 0 q then x else np_neg x
  | Nan => Nan
  end.

(** [highway_env.utils.lmap], the linear map of [v] from the range [x]
    to the range [y]:
    [y[0] + (v - x[0]) * (y[1] - y[0]) / (x[1] - x[0])],
    on a numpy float [v]. *)
Definition lmap (v : npfloat) (x y : Q * Q) : npfloat :=
  np_radd y.1 (np_div (np_mul (np_sub v x.1) (y.2 - y.1)) (x.2 - x.1)).

(** The linear map on rationals, for a range [x] of non-zero width. *)
Definition linear_map (v : Q) (x y : Q * Q) : Q :=
  y.1 + (v - x.1) * (y.2 - y.1) / (x.2 - x.1).

(** [lmap] on a Python float [v]: a range [x] of width zero raises. *)
Definition lmap_float (v : Q) (x y : Q * Q) : result Q :=
  if Qeq_bool (x.2 - x.1) 0 then Err ZeroDivisionError
  else Ok (linear_map v x y).

(** [np.clip(v, lo, hi)], that is [minimum(maximum(v, lo), hi)]; nan
    stays nan. *)
Definition clip (v : npfloat) (lo hi : Q) : npfloat :=
  match v with
  | Fin q => Fin (Qmin (Qmax q lo) hi)
  | PosInf => Fin hi
  | NegInf => Fin (Qmin lo hi)
  | Nan => Nan
  end.

(** The four named terms of [_rewards]. *)
Record terms : Type := mk_terms {
  collision_term : Q;
  right_lane_term : Q;
  high_speed_term : npfloat;
  energy_consumption_term : Q
}.

(** The lane that the reward reads: the target lane of a
    [ControlledVehicle], the current lane otherwise. *)
Definition lane_of (v : vehicle) : nat :=
  match target_lane_index v with
  | Some l => l
  | None => lane_index v
  end.

(** The sign convention of the reward coefficients, which the
    normalisation relies on: a collision is penalised, the other
    terms are rewarded, and the speed range is a proper interval. *)
Definition conventional (cfg : config) : Prop :=
  collision_reward cfg < 0
  /\ 0 <= right_lane_reward cfg
  /\ 0 <= high_speed_reward cfg
  /\ 0 <= energy_consumption_reward cfg
  /\ (reward_speed_range cfg).1 < (reward_speed_range cfg).2.

Section Env.

(** [energy_consumption_function.compute_efficiency(vehicle, normalise)]:
    the energy model is not part of these sources.  Its answer is a
    real number; [numpy_efficiency] tells whether it is a numpy float
    or a Python float, which decides what a division by zero does to
    the energy reward. *)
Variable compute_efficiency : vehicle -> bool -> Q.
Variable numpy_efficiency : bool.

(** [_rewards]; [side_lanes] is [len(neighbours)]. *)
Definition _rewards (cfg : config) (v : vehicle) (side_lanes : nat) : terms :=
  let lane := lane_of v in
  let forward_speed := Fin (speed v * cos_heading v) in
  let scaled_speed := lmap forward_speed (reward_speed_range cfg) (0, 1) in
  {| collision_term := if crashed v then 1 else 0;
     right_lane_term :=
       inject_Z (Z.of_nat lane) / inject_Z (Z.of_nat (Nat.max (side_lanes - 1)%nat 1%nat));
     high_speed_term := clip scaled_speed 0 1;
     energy_consumption_term := compute_efficiency v (normalize_reward cfg) |}.

(** [_reward]: the vector [speed_reward, energy_reward].  The rewards
    are set to 0 when the weighted collision term is not 0. *)
Definition _reward (cfg : config) (v : vehicle) (side_lanes : nat)
    : result (list npfloat) :=
  let r := _rewards cfg v side_lanes in
  let collision := collision_reward cfg * collision_term r in
  let right_lane := right_lane_reward cfg * right_lane_term r in
  let high_speed := np_mul (high_speed_term r) (high_speed_reward cfg) in
  let energy := energy_consumption_reward cfg * energy_consumption_term r in
  let speed_reward := np_add (np_add high_speed right_lane) collision in
  let energy_reward := energy + right_lane + collision in
  let speed_reward :=
    if normalize_reward cfg then
      lmap speed_reward
           (collision_reward cfg, high_speed_reward cfg + right_lane_reward cfg)
           (0, 1)
    else speed_reward in
  energy_reward ←
    (if normalize_reward cfg then
       let range := (collision_reward cfg,
                     energy_consumption_reward cfg + right_lane_reward cfg) in
       if numpy_efficiency then Ok (lmap (Fin energy_reward) range (0, 1))
       else Fin <$> lmap_float energy_reward range (0, 1)
     else Ok (Fin energy_reward));
  if negb (Qeq_bool collision 0) then Ok [Fin 0; Fin 0]
  else Ok [speed_reward; energy_reward].

End Env.

End MOHighwayEnv.

(** ** Example data *)

Module Examples.

(** A transition of a buffer with one observation entry and one
    objective. *)
Definition transition (n : Z) (done : bool) (id : option tensor)
    : ReplayBuffer.transition :=
  ReplayBuffer.mk_transition [Num (inject_Z n)] [Num 1] [Num (inject_Z (n + 1))]
    [Num (1 # 2)] [of_bool done] id.

Definition three_pushes : list ReplayBuffer.transition :=
  [transition 0 false None; transition 1 false None; transition 2 true None].

(** A fresh buffer of capacity 2, importance sampling off. *)
Definition fresh : ReplayBuffer.t := ReplayBuffer.init 2 1 1 false false.

(** [fresh] after one push that carries the id 5. *)
Definition pushed : ReplayBuffer.t :=
  match ReplayBuffer.push fresh (transition 0 false (Some [Num 5])) with
  | Ok rb => rb
  | Err _ => fresh
  end.

(** A full buffer with importance sampling and crash priority on:
    ids 5 and 7, the first row terminal. *)
Definition weighted : ReplayBuffer.t :=
  {| ReplayBuffer.size := 2;
     ReplayBuffer.num_objectives := 1;
     ReplayBuffer.observation_space_size := 1;
     ReplayBuffer.importance_sampling := true;
     ReplayBuffer.prioritise_crashes := true;
     ReplayBuffer.buffer :=
       [[Num 0; Num 0; Num 0; Num 1; Num 1; Num 5];
        [Num 0; Num 0; Num 0; Num 1; Num 0; Num 7]];
     ReplayBuffer.running_index := 0;
     ReplayBuffer.num_elements := 2 |}.

(** A full buffer like [weighted] whose second row is the terminal one. *)
Definition recent : ReplayBuffer.t :=
  {| ReplayBuffer.size := 2;
     ReplayBuffer.num_objectives := 1;
     ReplayBuffer.observation_space_size := 1;
     ReplayBuffer.importance_sampling := true;
     ReplayBuffer.prioritise_crashes := true;
     ReplayBuffer.buffer :=
       [[Num 0; Num 0; Num 0; Num 1; Num 0; Num 5];
        [Num 0; Num 0; Num 0; Num 1; Num 1; Num 7]];
     ReplayBuffer.running_index := 0;
     ReplayBuffer.num_elements := 2 |}.

(** A generator whose draws alternate between 0.1 and 0.9. *)
Definition rng : Generator.t :=
  {| Generator.uniform := fun k => if Nat.even k then 1 # 10 else 9 # 10;
     Generator.position := 0 |}.

Definition reward_logger : DataLogger.t :=
  {| DataLogger.loggerName := "reward_logger";
     DataLogger.fieldNames := ["episode"; "speed_reward"; "energy_reward"]%string;
     DataLogger.tuple_list := [] |}.

(** An agent with two objectives and one controlled vehicle. *)
Definition agent (structure : string) (crashed : list bool) : MOMA_DQN.t unit :=
  MOMA_DQN.mk 2 1 structure 2 crashed 0 MOMA_DQN.f0_9 fresh reward_logger
              (MOMA_DQN.mk_rollout [] false false) ().

(** Rewards of the ego vehicle and one neighbour, padded with a
    [nan] row; the neighbour is uncontrolled. *)
Definition rewards : list (list tensor) :=
  [[[Num 1; Num (1 # 2)]; [Num (1 # 2); Num (1 # 4)]; [NaN; NaN]]].

Definition weights : list (list tensor) :=
  [[[Num (1 # 4); Num (3 # 4)]; [Num 0; Num 0]]].

(** An ego vehicle at speed 25 on lane 1 of 4, and an energy model
    that always answers one half. *)
Definition ego (crashed : bool) : MOHighwayEnv.vehicle :=
  MOHighwayEnv.mk_vehicle 25 1 1 (Some 1) crashed.

Definition efficiency (v : MOHighwayEnv.vehicle) (normalise : bool) : Q := 1 # 2.

(** A configuration that does not penalise a collision, and one that
    rewards it. *)
Definition no_penalty : MOHighwayEnv.config :=
  MOHighwayEnv.mk_config 0 (2 # 10) 1 0 1 (20%Q, 30%Q) true.

Definition collision_bonus : MOHighwayEnv.config :=
  MOHighwayEnv.mk_config 1 (2 # 10) 1 0 1 (20%Q, 30%Q) true.

(** A configuration whose speed range has no width. *)
Definition flat_speed_range : MOHighwayEnv.config :=
  MOHighwayEnv.mk_config (-1) (2 # 10) 1 0 1 (25%Q, 25%Q) true.

(** An agent with two controlled vehicles, and an environment in
    which every episode ends after one step with both vehicles
    crashed. *)
Definition two_agents : MOMA_DQN.t unit :=
  MOMA_DQN.mk 2 2 "mean_reward" 2 [false; false] 0 MOMA_DQN.f0_9
              (ReplayBuffer.init 2 1 2 true false) reward_logger
              (MOMA_DQN.mk_rollout [] false false) ().

Definition env_reset (w : unit) : result (list tensor) * unit :=
  (Ok [[Num 0]; [Num 0]], w).

Definition act (eps : float) (obs : list tensor) (w : unit)
    : result (list Z) * unit :=
  (Ok [0%Z; 1%Z], w).

Definition env_step (actions : list Z) (w : unit)
    : result MOMA_DQN.step_out * unit :=
  (Ok (MOMA_DQN.mk_step_out [[Num 1]; [Num 2]]
         [[[Num 1; Num 1]]; [[Num 1; Num 1]]] true false [true; true] [[]; []]),
   w).

Definition update_weights (episode_nr steps frequency : nat)
    (rb : ReplayBuffer.t) (w : unit) : result unit * unit :=
  (Ok (), w).

Definition evaluate (seed : nat) (r : MOMA_DQN.rollout) (w : unit)
    : result float * (MOMA_DQN.rollout * unit) :=
  (Ok 0%float, (r, w)).

(** One optimisation step in episode 0: the table has the one row of
    the loss logger. *)
Definition prepare_logger_data (num_evaluations : nat) (hv_logger : DataLogger.t)
    (w : unit) : result (list (list pyobj)) :=
  Ok [[PyInt 0; PyFloat 0%float]].

(** [two_agents] after the reset of the environment. *)
Definition two_agents_running : MOMA_DQN.t unit :=
  MOMA_DQN.set_run two_agents
    (MOMA_DQN.mk_rollout [[Num 0]; [Num 0]] false false).

(** One episode, the other arguments of [train] at their defaults. *)
Definition one_episode : MOMA_DQN.train_params :=
  MOMA_DQN.mk_train_params 1 1 5 MOMA_DQN.f0_9 0%float 1%float 0 11.

(** As [one_episode], with two evaluations asked for. *)
Definition two_evaluations : MOMA_DQN.train_params :=
  MOMA_DQN.mk_train_params 1 1 5 MOMA_DQN.f0_9 0%float 1%float 2 11.

(** As [one_episode], with [epsilon_end_time = 0]. *)
Definition no_decay_horizon : MOMA_DQN.train_params :=
  MOMA_DQN.mk_train_params 1 1 5 MOMA_DQN.f0_9 0%float 0%float 0 11.

End Examples.

(** * Properties *)

(** ** Results and lists *)

Lemma bind_ok {A B} (m : result A) (f : A -> result B) (b : B) :
  m ≫= f = Ok b -> exists a, m = Ok a /\ f a = Ok b.
Proof. destruct m as [a|e]; simpl; [eauto | discriminate]. Qed.

Lemma of_option_ok {A} (e : exn) (o : option A) (a : A) :
  of_option e o = Ok a <-> o = Some a.
Proof. destruct o; simpl; split; intros; simplify_eq; done. Qed.

Lemma mapM_result_length {A B} (f : A -> result B) xs ys :
  mapM_result f xs = Ok ys -> length ys = length xs.
Proof.
  revert ys. induction xs as [|x xs IH]; intros ys H; simpl in H.
  - by simplify_eq.
  - apply bind_ok in H as (y & _ & H). apply bind_ok in H as (ys' & Hys & H).
    simplify_eq. simpl. f_equal. by apply IH.
Qed.

Lemma mapM_result_lookup {A B} (f : A -> result B) xs ys i x :
  mapM_result f xs = Ok ys -> xs !! i = Some x ->
  exists y, ys !! i = Some y /\ f x = Ok y.
Proof.
  revert ys i. induction xs as [|x0 xs IH]; intros ys i H Hx; [done|].
  simpl in H. apply bind_ok in H as (y & Hy & H).
  apply bind_ok in H as (ys' & Hys & H). simplify_eq.
  destruct i as [|i]; simpl in *; simplify_eq; eauto.
Qed.

Lemma mapM_result_ok {A B} (f : A -> result B) (g : A -> B) xs :
  Forall (fun x => f x = Ok (g x)) xs -> mapM_result f xs = Ok (g <$> xs).
Proof.
  induction 1 as [|x xs Hx _ IH]; [done|]. simpl. by rewrite Hx, IH.
Qed.

Lemma slice_middle {A} (pre mid post : list A) (a b : nat) :
  a = length pre -> b = a + length mid -> slice a b (pre ++ mid ++ post) = mid.
Proof.
  intros -> ->. unfold slice. rewrite drop_app_length.
  apply take_app_length'. lia.
Qed.

Lemma index_from_end_2 {A} (pre : list A) (x y : A) :
  index_from_end 2 (pre ++ [x; y]) = Some x.
Proof.
  unfold index_from_end. rewrite length_app. simpl.
  rewrite decide_True by lia.
  replace (length pre + 2 - 2) with (length pre + 0) by lia.
  by rewrite lookup_app_r, Nat.add_0_r, Nat.sub_diag by lia.
Qed.

Lemma index_from_end_1 {A} (pre : list A) (x : A) :
  index_from_end 1 (pre ++ [x]) = Some x.
Proof.
  unfold index_from_end. rewrite length_app. simpl.
  rewrite decide_True by lia.
  replace (length pre + 1 - 1) with (length pre + 0) by lia.
  by rewrite lookup_app_r, Nat.add_0_r, Nat.sub_diag by lia.
Qed.

Lemma to_bool_of_bool (b : bool) : to_bool (of_bool b) = b.
Proof. by destruct b. Qed.

(** ** Sums of rationals *)

Lemma tsum_from (qs : list Q) (a : Q) :
  fold_left tadd (Num <$> qs) (Num a) = Num (fold_left Qplus qs a).
Proof. revert a. induction qs as [|q qs IH]; intros a; simpl; [done | apply IH]. Qed.

Lemma tsum_nums (qs : list Q) : tsum (Num <$> qs) = Num (fold_left Qplus qs 0%Q).
Proof. apply tsum_from. Qed.

Lemma qsum_shift (qs : list Q) (a : Q) :
  (fold_left Qplus qs a == a + fold_left Qplus qs 0)%Q.
Proof.
  revert a. induction qs as [|q qs IH]; intros a; simpl.
  - lra.
  - rewrite (IH (a + q)%Q), (IH (0 + q)%Q). lra.
Qed.

Lemma qsum_cons (q : Q) (qs : list Q) :
  (fold_left Qplus (q :: qs) 0 == q + fold_left Qplus qs 0)%Q.
Proof. simpl. rewrite qsum_shift. lra. Qed.

Lemma qsum_scale {A} (f g : A -> Q) (k : Q) (xs : list A) :
  (forall x, x ∈ xs -> (f x == k * g x)%Q) ->
  (fold_left Qplus (f <$> xs) 0 == k * fold_left Qplus (g <$> xs) 0)%Q.
Proof.
  induction xs as [|x xs IH]; intros H.
  - simpl. lra.
  - rewrite !fmap_cons, !qsum_cons, IH, (H x).
    + lra.
    + left.
    + intros y Hy. apply H. by right.
Qed.

Lemma qsum_pos {A} (f : A -> Q) (xs : list A) :
  xs <> [] -> (forall x, x ∈ xs -> (0 < f x)%Q) ->
  (0 < fold_left Qplus (f <$> xs) 0)%Q.
Proof.
  induction xs as [|x xs IH]; intros Hne H; [done|].
  rewrite fmap_cons, qsum_cons.
  assert (0 < f x)%Q by (apply H; left).
  destruct xs as [|y ys].
  - simpl. lra.
  - assert (0 < fold_left Qplus (f <$> y :: ys) 0)%Q.
    { apply IH; [done|]. intros z Hz. apply H. by right. }
    lra.
Qed.

Lemma rationals_nums (qs : list Q) : rationals (Num <$> qs) = Some qs.
Proof.
  induction qs as [|q qs IH]; [done|].
  rewrite fmap_cons. cbn [rationals]. by rewrite IH.
Qed.

Lemma tmin_nums (a b : Q) : tmin (Num a) (Num b) = Num (Qmin a b).
Proof.
  simpl. unfold Qmin, GenericMinMax.gmin.
  destruct (Qle_bool a b) eqn:Hle; destruct (a ?= b)%Q eqn:Hc; try reflexivity.
  - apply Qle_bool_iff in Hle. apply Qgt_alt in Hc. lra.
  - apply Qeq_alt in Hc. assert (Qle_bool a b = true); [|congruence].
    apply Qle_bool_iff. lra.
  - apply Qlt_alt in Hc. assert (Qle_bool a b = true); [|congruence].
    apply Qle_bool_iff. lra.
Qed.

Lemma fold_tmin_nums (qs : list Q) (q : Q) :
  fold_left tmin (Num <$> qs) (Num q) = Num (fold_left Qmin qs q).
Proof.
  revert q. induction qs as [|x qs IH]; intros q; simpl; [done|].
  change (fold_left tmin (Num <$> qs) (tmin (Num q) (Num x)) =
          Num (fold_left Qmin qs (Qmin q x))).
  rewrite tmin_nums. apply IH.
Qed.

Lemma fold_Qmin_le (qs : list Q) (q : Q) :
  (fold_left Qmin qs q <= q)%Q /\ forall x, x ∈ qs -> (fold_left Qmin qs q <= x)%Q.
Proof.
  revert q. induction qs as [|y qs IH]; intros q; simpl.
  - split; [lra|]. intros x Hx. by apply elem_of_nil in Hx.
  - destruct (IH (Qmin q y)) as [H1 H2].
    pose proof (Q.le_min_l q y). pose proof (Q.le_min_r q y).
    split; [lra|]. intros x Hx. apply elem_of_cons in Hx as [->|Hx].
    + lra.
    + by apply H2.
Qed.

(** ** The generator *)

Lemma last_fmap_ne {A B} (f : A -> B) (l : list A) (d : A) (d' : B) :
  l <> [] -> List.last (f <$> l) d' = f (List.last l d).
Proof.
  induction l as [|x l IH]; intros Hne; [done|].
  destruct l as [|y l]; [done|].
  change (List.last (f <$> y :: l) d' = f (List.last (y :: l) d)).
  by apply IH.
Qed.

Lemma cumsum_from_length (qs : list Q) (a : Q) :
  length (Generator.cumsum_from a qs) = length qs.
Proof. revert a. induction qs as [|q qs IH]; intros a; simpl; [done | by rewrite IH]. Qed.

Lemma cumsum_from_last (qs : list Q) (a : Q) :
  qs <> [] -> List.last (Generator.cumsum_from a qs) 0%Q = fold_left Qplus qs a.
Proof.
  revert a. induction qs as [|q qs IH]; intros a Hne; [done|].
  destruct qs as [|q' qs]; [done|].
  change (List.last (Generator.cumsum_from (a + q) (q' :: qs)) 0%Q
          = fold_left Qplus (q' :: qs) (a + q)%Q).
  by apply IH.
Qed.

Lemma searchsorted_lt (cdf : list Q) (u : Q) :
  cdf <> [] -> Qle_bool (List.last cdf 0%Q) u = false ->
  Generator.searchsorted_right cdf u < length cdf.
Proof.
  induction cdf as [|c cdf IH]; intros Hne Hlast; [done|].
  simpl. destruct (Qle_bool c u) eqn:Hc; [|lia].
  destruct cdf as [|c' cdf].
  - simpl in Hlast. congruence.
  - apply -> Nat.succ_lt_mono. by apply IH.
Qed.

(** With [p] summing to one, every draw below one selects a position of [p]. *)
Lemma searchsorted_in_range (qs : list Q) (u : Q) :
  qs <> [] -> (fold_left Qplus qs 0 == 1)%Q -> (u < 1)%Q ->
  Generator.searchsorted_right (Generator.normalised_cdf qs) u < length qs.
Proof.
  intros Hne Hsum Hu.
  assert (Generator.cumsum qs <> []) as Hne'.
  { unfold Generator.cumsum. destruct qs; [done | simpl; done]. }
  replace (length qs) with (length (Generator.normalised_cdf qs)).
  2:{ unfold Generator.normalised_cdf, Generator.cumsum.
      by rewrite length_fmap, cumsum_from_length. }
  apply searchsorted_lt.
  - unfold Generator.normalised_cdf. by destruct (Generator.cumsum qs).
  - unfold Generator.normalised_cdf.
    rewrite (last_fmap_ne _ _ 0%Q) by done.
    unfold Generator.cumsum. rewrite cumsum_from_last by done.
    destruct (Qle_bool _ u) eqn:Hle; [|done].
    apply Qle_bool_iff in Hle. rewrite Hsum in Hle.
    assert (1 / 1 == 1)%Q as H1 by (by vm_compute).
    rewrite H1 in Hle. lra.
Qed.

Lemma prefix_sum_S (k : nat) (q : Q) (qs : list Q) :
  (Generator.prefix_sum (S k) (q :: qs) == q + Generator.prefix_sum k qs)%Q.
Proof. unfold Generator.prefix_sum. simpl take. apply qsum_cons. Qed.

Lemma prefix_sum_nonneg (k : nat) (qs : list Q) :
  Forall (fun q => (0 <= q)%Q) qs -> (0 <= Generator.prefix_sum k qs)%Q.
Proof.
  intros Hqs. revert k. induction Hqs as [|q qs Hq _ IH]; intros k.
  - unfold Generator.prefix_sum. rewrite take_nil. simpl. lra.
  - destruct k as [|k]; [unfold Generator.prefix_sum; simpl; lra|].
    rewrite prefix_sum_S. specialize (IH k). lra.
Qed.

Lemma prefix_sum_step (i : nat) (qs : list Q) (p : Q) :
  qs !! i = Some p ->
  (Generator.prefix_sum (S i) qs == Generator.prefix_sum i qs + p)%Q.
Proof.
  revert i. induction qs as [|q qs IH]; intros i Hi; [done|].
  destruct i as [|i].
  - simpl in Hi. simplify_eq. unfold Generator.prefix_sum. simpl. lra.
  - simpl in Hi. rewrite !prefix_sum_S, (IH i Hi). lra.
Qed.

(** The search over cumulative sums that start from [a], all divided
    by a total [T] equal to one. *)
Lemma searchsorted_from (T : Q) (qs : list Q) (a u : Q) (i : nat) :
  (T == 1)%Q -> Forall (fun q => (0 <= q)%Q) qs -> i < length qs -> (a <= u)%Q ->
  Generator.searchsorted_right
    ((fun c => (c / T)%Q) <$> Generator.cumsum_from a qs) u = i
  <-> (a + Generator.prefix_sum i qs <= u
       /\ u < a + Generator.prefix_sum (S i) qs)%Q.
Proof.
  intros HT Hqs. revert a i. induction Hqs as [|q qs Hq Hqs IH]; intros a i Hi Ha.
  - simpl in Hi. lia.
  - simpl Generator.cumsum_from. rewrite fmap_cons.
    simpl Generator.searchsorted_right.
    assert ((a + q) / T == a + q)%Q as Hdiv by (rewrite HT; field).
    destruct (Qle_bool ((a + q) / T) u) eqn:Hle.
    + apply Qle_bool_iff in Hle. rewrite Hdiv in Hle.
      destruct i as [|i].
      * split; [done|]. intros [_ Hu]. rewrite prefix_sum_S in Hu.
        unfold Generator.prefix_sum in Hu. rewrite take_0 in Hu. simpl in Hu. lra.
      * simpl in Hi. rewrite !prefix_sum_S.
        specialize (IH (a + q)%Q i ltac:(lia) Hle).
        split.
        -- intros [= Hs]. apply IH in Hs. lra.
        -- intros Hu. f_equal. apply IH. lra.
    + assert (~ (a + q <= u)%Q) as Hnle.
      { intros H. rewrite <- Hdiv in H. apply Qle_bool_iff in H. congruence. }
      destruct i as [|i].
      * split; [|done]. intros _. rewrite prefix_sum_S.
        unfold Generator.prefix_sum. rewrite !take_0. simpl. lra.
      * split; [done|]. intros [Hl _]. rewrite prefix_sum_S in Hl.
        pose proof (prefix_sum_nonneg i qs Hqs). lra.
Qed.

(** With [p] summing to one, a draw selects position [i] exactly when
    it falls in the interval of length [p_i] that starts at the sum of
    the probabilities before [i]. *)
Lemma searchsorted_selects_interval (qs : list Q) (u p : Q) (i : nat) :
  Forall (fun q => (0 <= q)%Q) qs -> (fold_left Qplus qs 0 == 1)%Q ->
  qs !! i = Some p -> (0 <= u)%Q ->
  Generator.searchsorted_right (Generator.normalised_cdf qs) u = i
  <-> (Generator.prefix_sum i qs <= u /\ u < Generator.prefix_sum i qs + p)%Q.
Proof.
  intros Hqs Hsum Hi Hu.
  assert (i < length qs) as Hlt by (by eapply lookup_lt_Some).
  assert (qs <> []) as Hne by (destruct qs; simpl in *; [lia | done]).
  unfold Generator.normalised_cdf, Generator.cumsum.
  rewrite cumsum_from_last by done.
  rewrite (searchsorted_from _ qs 0 u i Hsum Hqs Hlt Hu).
  rewrite (prefix_sum_step i qs p Hi).
  split; intros [H1 H2]; split; lra.
Qed.

(** ** float32 *)

Lemma pow2_pos (z : Z) : (0 < pow2 z)%Q.
Proof. apply Qpower_0_lt. reflexivity. Qed.

Lemma pow2_plus (x y : Z) : (pow2 (x + y) == pow2 x * pow2 y)%Q.
Proof. apply Qpower_plus. discriminate. Qed.

Lemma pow2_inject (z : Z) : (0 <= z)%Z -> (pow2 z == inject_Z (2 ^ z))%Q.
Proof. intros Hz. unfold pow2. by rewrite (Zpower_Qpower 2 z Hz). Qed.

Lemma pow2_lt_inv (x y : Z) : (pow2 x < pow2 y)%Q -> (x < y)%Z.
Proof. intros H. apply (Qpower_lt_compat_l_inv 2); [exact H | reflexivity]. Qed.

(** An integer rounds to itself. *)
Lemma py_round_integer (x : Q) (z : Z) : (x == inject_Z z)%Q -> py_round x = z.
Proof.
  intros Hx. unfold py_round. rewrite (Qfloor_comp _ _ Hx), Qfloor_Z.
  assert ((x - inject_Z z ?= 1 # 2)%Q = Lt) as ->; [|done].
  apply Qlt_alt.
  assert (x - inject_Z z == 0)%Q as -> by (rewrite Hx; ring).
  reflexivity.
Qed.

(** The exponent found for a positive number is not above it. *)
Lemma exponent_le (a : Q) : (0 < a)%Q -> (pow2 (exponent a) <= a)%Q.
Proof.
  intros Ha. unfold exponent. destruct a as [n d]. cbn [Qnum Qden].
  set (e0 := (Z.log2 n - Z.log2 (Z.pos d))%Z).
  destruct (Qle_bool (pow2 e0) (n # d)) eqn:Hle; [by apply Qle_bool_iff|].
  assert (0 < n)%Z as Hn by (unfold Qlt in Ha; simpl in Ha; lia).
  pose proof (Z.log2_spec n Hn) as [Hn1 _].
  pose proof (Z.log2_spec (Z.pos d) ltac:(lia)) as [_ Hd2].
  pose proof (Z.log2_nonneg n) as Hln.
  pose proof (Z.log2_nonneg (Z.pos d)) as Hld.
  replace (e0 - 1)%Z with (Z.log2 n - Z.succ (Z.log2 (Z.pos d)))%Z by (unfold e0; lia).
  unfold pow2. rewrite Qpower_minus by discriminate.
  fold (pow2 (Z.log2 n)). fold (pow2 (Z.succ (Z.log2 (Z.pos d)))).
  rewrite !pow2_inject by lia.
  rewrite (Qmake_Qdiv n d).
  assert (0 < inject_Z (2 ^ Z.succ (Z.log2 (Z.pos d))))%Q as Hp.
  { rewrite <- pow2_inject by lia. apply pow2_pos. }
  assert (0 < inject_Z (Z.pos d))%Q as Hdpos by (unfold Qlt; simpl; lia).
  apply Qle_shift_div_l; [done|].
  unfold Qdiv. rewrite <- Qmult_assoc, (Qmult_comm (/ _)), Qmult_assoc.
  apply Qle_shift_div_r; [done|].
  rewrite <- !inject_Z_mult. rewrite <- Zle_Qle. nia.
Qed.

(** The cast leaves a binary32 number as it is. *)
Lemma float32_exact (x : tval) : binary32 x -> teq (float32 x) x.
Proof.
  destruct x as [q|]; [|done]. intros (M & E & HM & HE & Hq).
  unfold float32, float32_of_Q.
  destruct (Qeq_bool q 0) eqn:Hz.
  { apply Qeq_bool_iff in Hz. simpl. by rewrite Hz. }
  assert (~ q == 0)%Q as Hq0.
  { intros Hc. apply Qeq_bool_iff in Hc. congruence. }
  set (a := Qabs q). set (m := Z.abs M).
  assert (a == inject_Z m * pow2 E)%Q as Ha.
  { unfold a, m. rewrite Hq, Qabs_Qmult.
    apply Qmult_comp; [reflexivity|].
    apply Qabs_pos, Qlt_le_weak, pow2_pos. }
  assert (0 < a)%Q as Hapos.
  { unfold a. apply Qabs_case; intros; lra. }
  set (e' := Z.max (exponent a) (-126)).
  assert (e' - 23 <= E)%Z as Hk.
  { assert (exponent a < 24 + E)%Z; [|unfold e'; lia].
    apply pow2_lt_inv. eapply Qle_lt_trans; [by apply exponent_le|].
    rewrite Ha, pow2_plus, (pow2_inject 24) by lia.
    apply Qmult_lt_compat_r; [apply pow2_pos|].
    rewrite <- Zlt_Qlt. unfold m. lia. }
  set (k := (e' - 23)%Z) in *.
  assert (a == inject_Z (m * 2 ^ (E - k)) * pow2 k)%Q as Hak.
  { rewrite Ha, inject_Z_mult, <- pow2_inject by lia.
    rewrite <- Qmult_assoc, <- pow2_plus.
    by replace (E - k + k)%Z with E by lia. }
  assert (py_round (a / pow2 k) = (m * 2 ^ (E - k))%Z) as ->.
  { apply py_round_integer. rewrite Hak at 1.
    field. pose proof (pow2_pos k). lra. }
  assert (a < pow2 128)%Q as Hfin.
  { rewrite Ha.
    replace 128%Z with (24 + 104)%Z by lia. rewrite pow2_plus, (pow2_inject 24) by lia.
    apply Qlt_le_trans with (inject_Z (2 ^ 24) * pow2 E)%Q.
    - apply Qmult_lt_compat_r; [apply pow2_pos|].
      rewrite <- Zlt_Qlt. unfold m. lia.
    - apply Qmult_le_l; [reflexivity|].
      apply Qpower_le_compat_l; [lia | discriminate]. }
  assert (Qle_bool (pow2 128) (inject_Z (m * 2 ^ (E - k)) * pow2 k) = false) as ->.
  { apply not_true_is_false. intros Hc. apply Qle_bool_iff in Hc.
    rewrite <- Hak in Hc. lra. }
  simpl. rewrite Qred_correct.
  destruct (Qle_bool 0 q) eqn:Hs.
  - apply Qle_bool_iff in Hs. rewrite <- Hak. unfold a. by apply Qabs_pos.
  - assert (q <= 0)%Q as Hneg.
    { apply Qlt_le_weak, Qnot_le_lt. intros Hc. apply Qle_bool_iff in Hc. congruence. }
    rewrite <- Hak. unfold a. rewrite Qabs_neg by done. lra.
Qed.

Lemma float32_exact_all (xs : tensor) :
  Forall binary32 xs -> Forall2 teq (float32 <$> xs) xs.
Proof.
  induction 1 as [|x xs Hx _ IH]; [constructor|].
  rewrite fmap_cons. constructor; [by apply float32_exact | exact IH].
Qed.

(** Small integers and halves are binary32 numbers. *)
Lemma binary32_integer (z : Z) : (Z.abs z < 2 ^ 24)%Z -> binary32 (Num (inject_Z z)).
Proof.
  intros Hz. exists z, 0%Z. split; [done|]. split; [lia|].
  unfold pow2. simpl. ring.
Qed.

(** ** The model on concrete inputs *)

(** One tenth is not a binary32 number: the cast gives the nearest one,
    13421773 / 2^27; 2^24 + 1 is a tie and goes to the even neighbour. *)
Example float32_rounds :
  float32 (Num (1 # 10)) = Num (13421773 # 134217728)
  /\ float32 (Num 16777217) = Num 16777216
  /\ float32 (Num (1 # 2)) = Num (1 # 2)
  /\ float32 (Num (-3)) = Num (-3)
  /\ float32 (Num 0) = Num 0
  /\ float32 NaN = NaN.
Proof. repeat split; vm_compute; reflexivity. Qed.

(** The largest binary32 number, [2^128 - 2^104], is kept; the tie
    half-way to [2^128] overflows; the smallest subnormal number is
    [2^-149], and half of it is a tie that goes to 0. *)
Example float32_range :
  float32 (Num (inject_Z (2 ^ 128 - 2 ^ 104))) = Num (inject_Z (2 ^ 128 - 2 ^ 104))
  /\ float32 (Num (inject_Z (2 ^ 128 - 2 ^ 103))) = NaN
  /\ float32 (Num (1 # 2 ^ 149)) = Num (1 # 2 ^ 149)
  /\ float32 (Num (1 # 2 ^ 150)) = Num 0
  /\ float32 (Num (3 # 2 ^ 150)) = Num (1 # 2 ^ 148).
Proof. repeat split; vm_compute; reflexivity. Qed.

Example py_round_ties :
  py_round (5 # 2) = 2%Z /\ py_round (7 # 2) = 4%Z /\ py_round (-3 # 2) = (-2)%Z
  /\ py_round (1 # 3) = 0%Z.
Proof. repeat split; reflexivity. Qed.

Example round_half_even_ties :
  round_half_even 2.5%float = 2%float /\ round_half_even 3.5%float = 4%float.
Proof. split; reflexivity. Qed.

(** Ids 5 and 7 give the weights 1 and 3; the first row is terminal,
    so its weight doubles: probabilities 2/5 and 3/5. *)
Example sample_probs_weighted :
  ReplayBuffer.sample_probs Examples.weighted = Ok [Num (2 # 5); Num (3 # 5)].
Proof. reflexivity. Qed.

(** Two rows are drawn for a sample size of 2.5: the draw 0.1 selects
    the first row, the draw 0.9 the second. *)
Example sample_weighted :
  (ReplayBuffer.sample Examples.weighted Examples.rng (5 # 2)).1
  = Ok (ReplayBuffer.buffer Examples.weighted).
Proof. reflexivity. Qed.

(** After three pushes into a buffer of capacity 2 the third
    transition has replaced the first. *)
Example three_pushes_wrap :
  ReplayBuffer.buffer <$> ReplayBuffer.push_all Examples.fresh Examples.three_pushes
  = Ok [[Num 2; Num 1; Num 3; Num (1 # 2); Num 1; Num 0];
        [Num 1; Num 1; Num 2; Num (1 # 2); Num 0; Num 0]].
Proof. reflexivity. Qed.

Example add_keyword_call :
  (DataLogger.add Examples.reward_logger []
     [("energy_reward", PyFloat 1); ("episode", PyInt 3);
      ("speed_reward", PyFloat 0)]%string).2
  = DataLogger.append Examples.reward_logger [PyInt 3; PyFloat 0; PyFloat 1].
Proof. reflexivity. Qed.

Example add_list_call :
  (DataLogger.add Examples.reward_logger
     [PyList [PyInt 3; PyFloat 0; PyFloat 1]] []).2
  = DataLogger.append Examples.reward_logger [PyInt 3; PyFloat 0; PyFloat 1].
Proof. reflexivity. Qed.

Example add_missing_field :
  DataLogger.add Examples.reward_logger [PyInt 3; PyFloat 0] []
  = (Err TypeError, Examples.reward_logger).
Proof. reflexivity. Qed.

(** The uncontrolled neighbour counts with weights 1/2 and 1/2:
    speed (1 * 1/4 + 1/2 * 1/2) / 2 = 1/4,
    energy (1/2 * 3/4 + 1/4 * 1/2) / 2 = 1/4. *)
Example mean_reward_value :
  match MOMA_DQN.vehicle_summary (Examples.agent "mean_reward" [false])
          Examples.rewards Examples.weights 0 with
  | Ok [Num a; Num b] => (a == 1 # 4)%Q /\ (b == 1 # 4)%Q
  | _ => False
  end.
Proof. split; reflexivity. Qed.

Example ego_reward_value :
  MOMA_DQN.vehicle_summary (Examples.agent "ego_reward" [false])
    Examples.rewards Examples.weights 0
  = Ok [Num (1 * (1 # 4)); Num ((1 # 2) * (3 # 4))].
Proof. reflexivity. Qed.

Example unknown_reward_structure :
  MOMA_DQN.vehicle_summary (Examples.agent "sum_reward" [false])
    Examples.rewards Examples.weights 0
  = Err ValueError.
Proof. reflexivity. Qed.

(** Default configuration, speed 25 in the range [20, 30], lane 1 of
    4, energy term 1/2: speed reward (0.5 + 0.2/3 + 1) / 2.2. *)
Example default_reward_value :
  match MOHighwayEnv._reward Examples.efficiency true MOHighwayEnv.default_config
          (Examples.ego false) 4 with
  | Ok [MOHighwayEnv.Fin s; MOHighwayEnv.Fin e] =>
      (s == 47 # 66)%Q /\ (e == 47 # 66)%Q
  | _ => False
  end.
Proof. split; reflexivity. Qed.

(** A speed range without width, [25, 25]: at speed 25 the scaled
    speed is 0/0, and the speed reward is nan; at speed 26 it is
    infinite and clipped to 1, which gives (1 + 0.2/3 + 1) / 2.2. *)
Example flat_speed_range_reward :
  match MOHighwayEnv._reward Examples.efficiency true Examples.flat_speed_range
          (Examples.ego false) 4 with
  | Ok [MOHighwayEnv.Nan; MOHighwayEnv.Fin e] => (e == 47 # 66)%Q
  | _ => False
  end
  /\ match MOHighwayEnv._reward Examples.efficiency true Examples.flat_speed_range
             (MOHighwayEnv.mk_vehicle 26 1 1 (Some 1) false) 4 with
     | Ok [MOHighwayEnv.Fin s; MOHighwayEnv.Fin e] =>
         (s == 31 # 33)%Q /\ (e == 47 # 66)%Q
     | _ => False
     end.
Proof. repeat split; reflexivity. Qed.

(** All coefficients 0: both normalisation ranges have no width.  An
    energy term that is a Python float raises; a numpy float gives
    nan. *)
Example flat_reward_range :
  MOHighwayEnv._reward Examples.efficiency false
    (MOHighwayEnv.mk_config 0 0 0 0 0 (20%Q, 30%Q) true) (Examples.ego false) 4
  = Err ZeroDivisionError
  /\ MOHighwayEnv._reward Examples.efficiency true
       (MOHighwayEnv.mk_config 0 0 0 0 0 (20%Q, 30%Q) true) (Examples.ego false) 4
     = Ok [MOHighwayEnv.Nan; MOHighwayEnv.Nan].
Proof. split; reflexivity. Qed.

(** ** ReplayBuffer *)

Module ReplayBufferFacts.
Import ReplayBuffer.

Lemma init_wf C L O imp prio : 0 < C -> wf (init C L O imp prio).
Proof.
  intros HC. split; simpl; try lia.
  - by rewrite length_replicate.
  - apply Forall_replicate. by rewrite length_replicate.
Qed.

Lemma store_fits rb elem :
  wf rb -> length elem = width rb ->
  store rb elem = Ok (stored rb (float32 <$> elem)).
Proof.
  intros [Hs Hr Hw Hi Hc] He. unfold store, write_row.
  destruct (buffer rb !! running_index rb) as [old|] eqn:Hold.
  2:{ apply lookup_ge_None in Hold. lia. }
  assert (length old = width rb) as Ho.
  { exact (Forall_lookup_1 _ _ _ _ Hw Hold). }
  rewrite decide_True by congruence. simpl.
  unfold increment_indices. simpl. rewrite decide_False by lia.
  unfold stored. do 2 f_equal. case_decide; lia.
Qed.

Lemma stored_wf rb elem :
  wf rb -> length elem = width rb -> wf (stored rb elem).
Proof.
  intros [Hs Hr Hw Hi Hc] He. split; simpl; try lia.
  - by rewrite length_insert.
  - apply Forall_insert; [exact Hw | exact He].
  - apply Nat.mod_upper_bound. lia.
Qed.

(** Every successful write keeps the buffer well formed. *)
Lemma store_wf rb rb' elem : wf rb -> store rb elem = Ok rb' -> wf rb'.
Proof.
  intros [Hs Hr Hw Hi Hc]. unfold store, write_row.
  destruct (buffer rb !! running_index rb) as [old|] eqn:Hold; [|done].
  assert (length old = width rb) as Hlo by exact (Forall_lookup_1 _ _ _ _ Hw Hold).
  assert (forall row, length row = width rb ->
            increment_indices (with_buffer rb (<[running_index rb := row]> (buffer rb)))
            = Ok rb' -> wf rb') as Hstep.
  { intros row Hrow. unfold increment_indices. simpl.
    case_decide; [lia|]. intros [= <-]. split; simpl.
    - done.
    - by rewrite length_insert.
    - by apply Forall_insert.
    - apply Nat.mod_upper_bound. lia.
    - case_decide; lia. }
  case_decide as Hlen.
  - apply Hstep. rewrite length_fmap. congruence.
  - destruct elem as [|x [|]]; try done.
    apply Hstep. by rewrite length_replicate.
Qed.

Lemma push_wf rb rb' tr : wf rb -> push rb tr = Ok rb' -> wf rb'.
Proof.
  intros Hwf. unfold push. destruct (stored_row rb tr) as [elem|]; [|done].
  by apply store_wf.
Qed.

Lemma push_fits rb tr row :
  wf rb -> stored_row rb tr = Ok row -> length row = width rb ->
  push rb tr = Ok (stored rb (float32 <$> row)).
Proof.
  intros Hwf Hrow Hlen. unfold push. rewrite Hrow. simpl.
  by apply store_fits.
Qed.

Lemma push_all_snoc rb trs tr :
  push_all rb (trs ++ [tr]) = push_all rb trs ≫= fun rb' => push rb' tr.
Proof.
  revert rb. induction trs as [|tr0 trs IH]; intros rb; simpl.
  - by destruct (push rb tr).
  - destruct (push rb tr0) as [rb'|e]; simpl; [apply IH | done].
Qed.

(** Two pushes fewer than a capacity apart land in different slots. *)
Lemma slots_differ C i n : i < n -> n < i + C -> i mod C <> n mod C.
Proof.
  intros Hin HnC Heq.
  pose proof (Nat.div_mod_eq i C) as Hi.
  pose proof (Nat.div_mod_eq n C) as Hn.
  rewrite Heq in Hi.
  generalize dependent (i / C). generalize dependent (n / C).
  generalize dependent (n mod C). intros r _ b Hn a Hi.
  destruct (decide (a < b)); nia.
Qed.

Lemma stored_row_flag rb rb' tr :
  importance_sampling rb' = importance_sampling rb ->
  stored_row rb' tr = stored_row rb tr.
Proof. unfold stored_row, effective_id. by intros ->. Qed.

(** The row that [push] builds from well-shaped arguments has the width
    of the buffer, and its cast is the row of the transition. *)
Lemma stored_row_shaped rb tr :
  well_shaped (observation_space_size rb) (num_objectives rb)
              (importance_sampling rb) tr ->
  exists row,
    stored_row rb tr = Ok row
    /\ length row = width rb
    /\ float32 <$> row = transition_row (importance_sampling rb) tr.
Proof.
  intros [Ho Ha Hn Hr Ht Hid]. unfold stored_row, effective_id, transition_row.
  destruct (importance_sampling rb).
  - destruct Hid as [x Hx]; [done|]. rewrite Hx. simpl.
    eexists. split; [reflexivity|]. split.
    + unfold concat_row, width, row_width. rewrite !length_app. simpl. lia.
    + unfold concat_row. by rewrite !fmap_app.
  - simpl. eexists. split; [reflexivity|]. split.
    + unfold concat_row, width, row_width. rewrite !length_app. simpl. lia.
    + unfold concat_row. by rewrite !fmap_app.
Qed.

Lemma ring_state_init C L O imp prio :
  0 < C -> ring_state (init C L O imp prio) [] (init C L O imp prio).
Proof.
  intros HC. split; try done.
  - by apply init_wf.
  - simpl. by rewrite Nat.Div0.mod_0_l.
  - intros j _ Hj. simpl in *. by apply lookup_replicate_2.
Qed.

Lemma ring_state_push rb0 trs rb tr :
  ring_state rb0 trs rb ->
  well_shaped (observation_space_size rb0) (num_objectives rb0)
              (importance_sampling rb0) tr ->
  exists rb', push rb tr = Ok rb' /\ ring_state rb0 (trs ++ [tr]) rb'.
Proof.
  intros [Hwf Hsz Hwd Hfl Hix Hct Hrec Hfr] Hshape.
  destruct (stored_row_shaped rb0 tr Hshape) as (row & Hrow & Hlen & Hcast).
  assert (stored_row rb tr = Ok row) as Hrow'.
  { by rewrite (stored_row_flag rb0 rb). }
  exists (stored rb (float32 <$> row)). split.
  { apply push_fits; [done..|congruence]. }
  pose proof Hwf as [Hs Hr Hw Hi Hc].
  split; simpl.
  - apply stored_wf; [done|]. rewrite length_fmap. congruence.
  - done.
  - done.
  - done.
  - rewrite Hix, Hsz, length_app. simpl.
    by rewrite Nat.Div0.add_mod_idemp_l.
  - rewrite Hct, Hsz, length_app. simpl. lia.
  - intros i tr' Hi' Hle. rewrite length_app in Hle. simpl in Hle.
    unfold holds. simpl.
    destruct (decide (i = length trs)) as [->|Hne].
    + rewrite lookup_app_r, Nat.sub_diag in Hi' by lia. simpl in Hi'.
      simplify_eq. rewrite Hfl, <- Hcast.
      rewrite Hix. apply list_lookup_insert_eq. rewrite Hr, Hsz.
      apply Nat.mod_upper_bound. lia.
    + assert (i < length trs) as Hlt.
      { apply lookup_lt_Some in Hi'. rewrite length_app in Hi'. simpl in Hi'. lia. }
      rewrite lookup_app_l in Hi' by done.
      pose proof (Hrec i tr' Hi' ltac:(lia)) as Hlk. unfold holds in Hlk.
      rewrite list_lookup_insert_ne; [done|].
      rewrite Hix. intros Heq. symmetry in Heq. revert Heq.
      apply slots_differ; lia.
  - intros j Hj HjC. rewrite length_app in Hj. simpl in Hj.
    rewrite list_lookup_insert_ne.
    + apply Hfr; lia.
    + rewrite Hix, Nat.mod_small by lia. lia.
Qed.

Lemma push_all_ring C L O imp prio trs :
  0 < C -> Forall (well_shaped L O imp) trs ->
  exists rb, push_all (init C L O imp prio) trs = Ok rb
             /\ ring_state (init C L O imp prio) trs rb.
Proof.
  intros HC. induction trs as [|tr trs IH] using rev_ind; intros Hfits.
  - eexists. split; [reflexivity|]. by apply ring_state_init.
  - apply Forall_app in Hfits as [Hfits Htr].
    rewrite Forall_singleton in Htr.
    destruct (IH Hfits) as (rb & Hrb & Hring).
    destruct (ring_state_push _ _ _ _ Hring Htr) as (rb' & Hpush & Hring').
    exists rb'. split; [|done].
    rewrite push_all_snoc, Hrb. simpl. exact Hpush.
Qed.

(** C3. After [k] single-sample pushes of well-shaped transitions into
    a fresh buffer of capacity [C >= 1]: for [k <= C] the buffer counts
    [k] elements, the running index is [k mod C], slot [j < k] holds
    the row of transition [j] and the slots from [k] on are still
    zero; for [k = C + m], [m >= 1], it counts [C] elements and every
    transition from the [m]-th on sits in the slot of its number modulo
    [C], so that (for [m <= C]) slot [j < m] holds the row of the new
    transition [C + j] and every slot [j >= m] still holds the row of
    transition [j].  The row of a transition is given field by field:
    its entries in the order of the layout, as float32 numbers. *)
Theorem push_ring_buffer (C L O : nat) (imp prio : bool) (trs : list transition) :
  0 < C ->
  Forall (well_shaped L O imp) trs ->
  exists rb,
    push_all (init C L O imp prio) trs = Ok rb
    /\ (length trs <= C ->
        num_elements rb = length trs /\ running_index rb = length trs mod C
        /\ (forall j tr, trs !! j = Some tr ->
            buffer rb !! j
            = Some ((float32 <$> t_obs tr) ++ (float32 <$> t_action tr)
                    ++ (float32 <$> t_next_obs tr) ++ (float32 <$> t_reward tr)
                    ++ (float32 <$> t_terminated tr)
                    ++ (if imp then float32 <$> default [] (t_id tr) else [Num 0])))
        /\ (forall j, length trs <= j -> j < C ->
            buffer rb !! j = Some (replicate (L * 2 + O + 3) (Num 0))))
    /\ (forall m, 1 <= m -> length trs = C + m ->
        num_elements rb = C
        /\ (forall i tr, m <= i -> trs !! i = Some tr ->
            buffer rb !! (i mod C)
            = Some ((float32 <$> t_obs tr) ++ (float32 <$> t_action tr)
                    ++ (float32 <$> t_next_obs tr) ++ (float32 <$> t_reward tr)
                    ++ (float32 <$> t_terminated tr)
                    ++ (if imp then float32 <$> default [] (t_id tr) else [Num 0])))
        /\ (m <= C ->
            (forall j tr, j < m -> trs !! (C + j) = Some tr ->
             buffer rb !! j
             = Some ((float32 <$> t_obs tr) ++ (float32 <$> t_action tr)
                     ++ (float32 <$> t_next_obs tr) ++ (float32 <$> t_reward tr)
                     ++ (float32 <$> t_terminated tr)
                     ++ (if imp then float32 <$> default [] (t_id tr) else [Num 0])))
            /\ (forall j tr, m <= j -> j < C -> trs !! j = Some tr ->
                buffer rb !! j
                = Some ((float32 <$> t_obs tr) ++ (float32 <$> t_action tr)
                        ++ (float32 <$> t_next_obs tr) ++ (float32 <$> t_reward tr)
                        ++ (float32 <$> t_terminated tr)
                        ++ (if imp then float32 <$> default [] (t_id tr)
                            else [Num 0]))))).
Proof.
  intros HC Hfits.
  destruct (push_all_ring C L O imp prio trs HC Hfits) as (rb & Hrb & Hring).
  destruct Hring as [Hwf Hsz Hwd Hfl Hix Hct Hrec Hfr]. simpl in *.
  unfold holds in Hrec. rewrite Hfl in Hrec.
  exists rb. split; [done|]. split.
  - intros Hle. split; [lia|]. split; [done|]. split.
    + intros j tr Hlk. pose proof (lookup_lt_Some _ _ _ Hlk) as Hj.
      rewrite <- (Nat.mod_small j C) at 1 by lia.
      apply (Hrec j tr Hlk). lia.
    + intros j Hj HjC. by apply Hfr.
  - intros m Hm Hlen. split; [lia|]. split.
    + intros i tr Hi Hlk. apply (Hrec i tr Hlk). lia.
    + intros HmC. split.
      * intros j tr Hj Hlk.
        assert ((C + j) mod C = j) as Hmod.
        { replace (C + j) with (j + 1 * C) by lia.
          rewrite Nat.Div0.mod_add. apply Nat.mod_small. lia. }
        rewrite <- Hmod. apply Hrec; [done | lia].
      * intros j tr Hj HjC Hlk.
        rewrite <- (Nat.mod_small j C) by lia.
        apply Hrec; [done | lia].
Qed.

Lemma push_ring_buffer_witness :
  exists rb,
    push_all Examples.fresh Examples.three_pushes = Ok rb
    /\ num_elements rb = 2
    /\ buffer rb !! 0 = Some [Num 2; Num 1; Num 3; Num (1 # 2); Num 1; Num 0]
    /\ buffer rb !! 1 = Some [Num 1; Num 1; Num 2; Num (1 # 2); Num 0; Num 0].
Proof.
  assert (0 < 2) as HC by lia.
  assert (Forall (well_shaped 1 1 false) Examples.three_pushes) as Hfits.
  { repeat constructor; done. }
  destruct (push_ring_buffer 2 1 1 false false Examples.three_pushes HC Hfits)
    as (rb & Hrb & _ & Hm).
  destruct (Hm 1) as (Hn & _ & Hslots); [lia | reflexivity |].
  destruct Hslots as [Hnew Hold]; [lia|].
  exists rb. split; [exact Hrb|]. split; [exact Hn|]. split.
  - apply (Hnew 0 (Examples.transition 2 true None)); [lia | reflexivity].
  - apply (Hold 1 (Examples.transition 1 false None)); [lia | lia | reflexivity].
Defined.

(** The accessors on a row of the fixed layout. *)
Lemma layout_roundtrip rb obs a next_obs reward flag id :
  length obs = observation_space_size rb ->
  length next_obs = observation_space_size rb ->
  length reward = num_objectives rb ->
  let row := concat_row obs [a] next_obs reward [flag] [id] in
  length row = width rb
  /\ get_observations rb [row] = [obs]
  /\ get_next_obs rb [row] = [next_obs]
  /\ get_rewards rb [row] = [reward]
  /\ get_termination_flag [row] = Ok [to_bool flag]
  /\ get_importance_sampling_id [row] = Ok [id].
Proof.
  intros Ho Hn Hr row.
  assert (length row = width rb) as Hlen.
  { unfold row, concat_row, width, row_width.
    rewrite !length_app. simpl. lia. }
  split; [done|]. repeat split.
  - unfold get_observations. simpl. f_equal.
    apply (slice_middle [] obs); simpl; lia.
  - unfold get_next_obs. simpl. f_equal.
    unfold row, concat_row. rewrite (app_assoc obs [a]).
    apply slice_middle; rewrite ?length_app; simpl; lia.
  - unfold get_rewards. simpl. f_equal. rewrite Hlen.
    unfold row, concat_row.
    rewrite (app_assoc obs [a]), (app_assoc (obs ++ [a]) next_obs).
    apply slice_middle; unfold width, row_width;
      rewrite ?length_app; simpl; lia.
  - unfold get_termination_flag. simpl.
    replace row with ((obs ++ [a] ++ next_obs ++ reward) ++ [flag; id])
      by (unfold row, concat_row; by rewrite <- !app_assoc).
    by rewrite index_from_end_2.
  - unfold get_importance_sampling_id. simpl.
    replace row with ((obs ++ [a] ++ next_obs ++ reward ++ [flag]) ++ [id])
      by (unfold row, concat_row; by rewrite <- !app_assoc).
    by rewrite index_from_end_1.
Qed.

Lemma float32_of_bool (b : bool) : float32 (of_bool b) = of_bool b.
Proof. by destruct b. Qed.

(** A single transition pushed into a well-formed buffer is stored in
    the slot of the running index as a row of width [2L + O + 3]; the
    accessors give back the float32 casts of the observation, the next
    observation and the reward vector, and the boolean terminal
    flag. *)
Lemma push_reads_back (rb : t) (obs action next_obs reward : tensor)
    (done : bool) (id : option tensor) :
  wf rb ->
  length obs = observation_space_size rb ->
  length next_obs = observation_space_size rb ->
  length reward = num_objectives rb ->
  length action = 1 ->
  (importance_sampling rb = true -> exists x, id = Some [x]) ->
  exists rb' row,
    push rb (mk_transition obs action next_obs reward [of_bool done] id) = Ok rb'
    /\ buffer rb' !! running_index rb = Some row
    /\ length row = observation_space_size rb * 2 + num_objectives rb + 3
    /\ get_observations rb' [row] = [float32 <$> obs]
    /\ get_next_obs rb' [row] = [float32 <$> next_obs]
    /\ get_rewards rb' [row] = [float32 <$> reward]
    /\ get_termination_flag [row] = Ok [done].
Proof.
  intros Hwf Ho Hn Hr Ha Hid.
  destruct action as [|a [|]]; simpl in Ha; try lia.
  assert (exists x, effective_id rb id = Ok [x]) as [x Hx].
  { unfold effective_id. destruct (importance_sampling rb).
    - destruct Hid as [x ->]; eauto.
    - eauto. }
  destruct (layout_roundtrip rb (float32 <$> obs) (float32 a) (float32 <$> next_obs)
              (float32 <$> reward) (of_bool done) (float32 x))
    as (Hlen & Hg1 & Hg2 & Hg3 & Hg4 & _); [by rewrite length_fmap..|].
  set (elem := concat_row obs [a] next_obs reward [of_bool done] [x]).
  assert (float32 <$> elem
          = concat_row (float32 <$> obs) [float32 a] (float32 <$> next_obs)
              (float32 <$> reward) [of_bool done] [float32 x]) as Hcast.
  { unfold elem, concat_row. rewrite !fmap_app. simpl.
    by rewrite float32_of_bool. }
  exists (stored rb (float32 <$> elem)), (float32 <$> elem). split.
  { apply push_fits; [done| |].
    - unfold stored_row. simpl. by rewrite Hx.
    - rewrite <- (length_fmap float32), Hcast. exact Hlen. }
  split.
  { simpl. apply list_lookup_insert_eq.
    destruct Hwf as [? Hrows ? ? ?]. lia. }
  rewrite Hcast. rewrite to_bool_of_bool in Hg4. done.
Qed.

(** C4, as the code has it.  A single transition pushed into a
    well-formed buffer is stored in the slot of the running index as a
    row of width [2L + O + 3]; the accessors give back the observation,
    the next observation and the reward vector rounded to float32,
    which are the originals when these are float32 numbers, and the
    boolean terminal flag exactly. *)
Theorem push_roundtrip (rb : t) (obs action next_obs reward : tensor)
    (done : bool) (id : option tensor) :
  wf rb ->
  length obs = observation_space_size rb ->
  length next_obs = observation_space_size rb ->
  length reward = num_objectives rb ->
  length action = 1 ->
  (importance_sampling rb = true -> exists x, id = Some [x]) ->
  exists rb' row o n r,
    push rb (mk_transition obs action next_obs reward [of_bool done] id) = Ok rb'
    /\ buffer rb' !! running_index rb = Some row
    /\ length row = observation_space_size rb * 2 + num_objectives rb + 3
    /\ get_observations rb' [row] = [o] /\ o = float32 <$> obs
    /\ get_next_obs rb' [row] = [n] /\ n = float32 <$> next_obs
    /\ get_rewards rb' [row] = [r] /\ r = float32 <$> reward
    /\ get_termination_flag [row] = Ok [done]
    /\ (Forall binary32 obs -> Forall2 teq o obs)
    /\ (Forall binary32 next_obs -> Forall2 teq n next_obs)
    /\ (Forall binary32 reward -> Forall2 teq r reward).
Proof.
  intros Hwf Ho Hn Hr Ha Hid.
  destruct (push_reads_back rb obs action next_obs reward done id Hwf Ho Hn Hr Ha Hid)
    as (rb' & row & Hpush & Hlk & Hlen & Hg1 & Hg2 & Hg3 & Hg4).
  exists rb', row, (float32 <$> obs), (float32 <$> next_obs), (float32 <$> reward).
  repeat split; try done; apply float32_exact_all.
Qed.

Lemma push_roundtrip_witness :
  exists rb' row o n r,
    push (init 3 2 1 true false)
         (mk_transition [Num 1; Num 2] [Num 3] [Num 4; Num 5] [Num (1 # 2)]
                        [of_bool true] (Some [Num 7])) = Ok rb'
    /\ buffer rb' !! 0 = Some row
    /\ length row = 2 * 2 + 1 + 3
    /\ get_observations rb' [row] = [o] /\ o = [Num 1; Num 2]
    /\ get_next_obs rb' [row] = [n] /\ n = [Num 4; Num 5]
    /\ get_rewards rb' [row] = [r] /\ r = [Num (1 # 2)]
    /\ get_termination_flag [row] = Ok [true]
    /\ (Forall binary32 [Num 1; Num 2] -> Forall2 teq o [Num 1; Num 2])
    /\ (Forall binary32 [Num 4; Num 5] -> Forall2 teq n [Num 4; Num 5])
    /\ (Forall binary32 [Num (1 # 2)] -> Forall2 teq r [Num (1 # 2)]).
Proof.
  apply (push_roundtrip (init 3 2 1 true false) [Num 1; Num 2] [Num 3]
           [Num 4; Num 5] [Num (1 # 2)] true (Some [Num 7])).
  - apply init_wf. lia.
  - reflexivity.
  - reflexivity.
  - reflexivity.
  - reflexivity.
  - intros _. by exists (Num 7).
Defined.

(** C4, as the specification words it, fails: a reward of one tenth is
    not a float32 number, and the row read back holds
    13421773 / 2^27 in its place. *)
Theorem push_roundtrip_rounds_reward :
  exists rb' row,
    push (init 3 1 1 false false)
         (mk_transition [Num 0] [Num 0] [Num 0] [Num (1 # 10)] [of_bool false] None)
    = Ok rb'
    /\ buffer rb' !! 0 = Some row
    /\ get_rewards rb' [row] = [[Num (13421773 # 134217728)]]
    /\ ~ teq (Num (13421773 # 134217728)) (Num (1 # 10)).
Proof.
  eexists _, _. split; [vm_compute; reflexivity|].
  split; [reflexivity|]. split; [reflexivity|].
  simpl. unfold Qeq. simpl. lia.
Qed.

(** C10. With importance sampling off, the row that a successful
    single-sample push stores ends with id [0], and the push does not
    depend on the id the caller supplied. *)
Theorem push_discards_id (rb rb' : t) (tr : transition) (id' : option tensor) :
  wf rb ->
  importance_sampling rb = false ->
  push rb tr = Ok rb' ->
  push rb (mk_transition (t_obs tr) (t_action tr) (t_next_obs tr) (t_reward tr)
                         (t_terminated tr) id') = Ok rb'
  /\ exists row, buffer rb' !! running_index rb = Some row
                 /\ get_importance_sampling_id [row] = Ok [tzero].
Proof.
  intros Hwf Himp Hpush. split.
  { revert Hpush. unfold push, stored_row, effective_id. rewrite Himp. done. }
  revert Hpush. unfold push, stored_row, effective_id. rewrite Himp. simpl.
  set (elem := concat_row _ _ _ _ _ _).
  destruct Hwf as [Hs Hrows Hw Hi Hc].
  unfold store, write_row.
  destruct (buffer rb !! running_index rb) as [old|] eqn:Hold; [|done].
  assert (length old = width rb) as Hlo by exact (Forall_lookup_1 _ _ _ _ Hw Hold).
  assert (exists pre, elem = pre ++ [tzero]) as [pre Hpre].
  { unfold elem, concat_row. eexists. by rewrite !app_assoc. }
  case_decide as Hlen.
  - simpl. unfold increment_indices. case_decide; [done|].
    intros [= <-]. simpl. exists (float32 <$> elem). split.
    + apply list_lookup_insert_eq. lia.
    + unfold get_importance_sampling_id. rewrite Hpre, fmap_app.
      change (float32 <$> [tzero]) with [tzero]. simpl.
      by rewrite index_from_end_1.
  - destruct elem as [|x [|]] eqn:He; try done.
    destruct pre as [|? [|]]; simplify_eq/=.
    unfold increment_indices. case_decide; [done|].
    intros [= <-]. simpl. eexists. split.
    + apply list_lookup_insert_eq. lia.
    + unfold get_importance_sampling_id. simpl.
      rewrite Hlo. unfold width, row_width.
      replace (observation_space_size rb * 2 + num_objectives rb + 3)
        with (S (observation_space_size rb * 2 + num_objectives rb + 2)) by lia.
      rewrite replicate_S_end. by rewrite index_from_end_1.
Qed.

Lemma push_discards_id_witness :
  push Examples.fresh (Examples.transition 0 false None) = Ok Examples.pushed
  /\ exists row, buffer Examples.pushed !! 0 = Some row
                 /\ get_importance_sampling_id [row] = Ok [tzero].
Proof.
  apply (push_discards_id Examples.fresh Examples.pushed
           (Examples.transition 0 false (Some [Num 5])) None).
  - apply init_wf. lia.
  - reflexivity.
  - reflexivity.
Defined.

(** *** Sampling *)

Lemma occupied_length rb : wf rb -> length (occupied rb) = num_elements rb.
Proof.
  intros [Hs Hr Hw Hi Hc]. unfold occupied. rewrite length_take. lia.
Qed.

Lemma occupied_width rb row :
  wf rb -> row ∈ occupied rb -> length row = width rb.
Proof.
  intros [Hs Hr Hw Hi Hc] Hin. apply subseteq_take in Hin.
  by eapply Forall_forall in Hw.
Qed.

Lemma column_ids rb :
  finite_ids rb ->
  column_from_end 1 (occupied rb) = Ok ((fun row => Num (id_of row)) <$> occupied rb).
Proof.
  intros Hfin. apply mapM_result_ok.
  eapply Forall_impl; [exact Hfin|]. intros row [q Hq]. simpl in *.
  unfold id_of. by rewrite Hq.
Qed.

Lemma column_flags rb :
  wf rb ->
  exists flags, column_from_end 2 (occupied rb) = Ok flags
                /\ to_bool <$> flags = is_terminal <$> occupied rb.
Proof.
  intros Hwf.
  exists ((fun row => default NaN (index_from_end 2 row)) <$> occupied rb).
  assert (forall row, row ∈ occupied rb -> is_Some (index_from_end 2 row)) as Hsome.
  { intros row Hin. apply (occupied_width _ _ Hwf) in Hin.
    unfold index_from_end. rewrite decide_True
      by (rewrite Hin; unfold width, row_width; lia).
    apply lookup_lt_is_Some. rewrite Hin. unfold width, row_width. lia. }
  split.
  - apply mapM_result_ok. apply Forall_forall. intros row Hin.
    destruct (Hsome row Hin) as [x Hx]. by rewrite Hx.
  - rewrite <- list_fmap_compose. apply list_fmap_ext.
    intros i row Hlk. apply list_elem_of_lookup_2 in Hlk.
    destruct (Hsome row Hlk) as [x Hx]. simpl. unfold is_terminal.
    by rewrite Hx.
Qed.

Lemma min_id_ok rb :
  occupied rb <> [] ->
  tensor_min ((fun row => Num (id_of row)) <$> occupied rb) = Ok (Num (min_id rb)).
Proof.
  intros Hne. unfold min_id.
  change (fun row => Num (id_of row)) with (Num ∘ id_of).
  rewrite list_fmap_compose.
  destruct (id_of <$> occupied rb) as [|q qs] eqn:Hids.
  - by destruct (occupied rb).
  - simpl. f_equal. apply fold_tmin_nums.
Qed.

Lemma min_id_le rb row : row ∈ occupied rb -> (min_id rb <= id_of row)%Q.
Proof.
  intros Hin. unfold min_id.
  apply (list_elem_of_fmap_2 id_of) in Hin.
  destruct (id_of <$> occupied rb) as [|q qs]; [by apply elem_of_nil in Hin|].
  destruct (fold_Qmin_le qs q) as [H1 H2].
  apply elem_of_cons in Hin as [->|Hin]; [done | by apply H2].
Qed.

Lemma inject_nat_pos (n : nat) : 1 <= n -> (0 < inject_Z (Z.of_nat n))%Q.
Proof. intros Hn. unfold Qlt. simpl. lia. Qed.

Lemma tdiv_nums (a b : Q) : (0 < b)%Q -> tdiv (Num a) (Num b) = Num (a / b).
Proof.
  intros Hb. simpl. destruct (Qeq_bool b 0) eqn:Hz; [|done].
  apply Qeq_bool_iff in Hz. lra.
Qed.

Lemma raw_weight_pos rb row :
  1 <= num_elements rb -> row ∈ occupied rb -> (0 < raw_weight rb row)%Q.
Proof.
  intros Hn Hin. unfold raw_weight.
  assert (0 < (if importance_sampling rb then id_of row - min_id rb + 1
               else 1 / inject_Z (Z.of_nat (num_elements rb))))%Q as Hbase.
  { destruct (importance_sampling rb).
    - pose proof (min_id_le rb row Hin). lra.
    - apply Qlt_shift_div_l; [by apply inject_nat_pos | lra]. }
  destruct (prioritise_crashes rb && is_terminal row); lra.
Qed.

Lemma raw_total_pos rb :
  wf rb -> 1 <= num_elements rb -> (0 < raw_total rb)%Q.
Proof.
  intros Hwf Hn. apply qsum_pos.
  - pose proof (occupied_length rb Hwf) as Hlen.
    destruct (occupied rb); simpl in *; [lia | done].
  - intros row Hin. by apply raw_weight_pos.
Qed.

Lemma normalise_nums (qs : list Q) :
  qs <> [] -> (0 < fold_left Qplus qs 0)%Q ->
  match Num <$> qs with
  | [] => Err IndexError
  | _ => Ok ((fun p => tdiv p (tsum (Num <$> qs))) <$> (Num <$> qs))
  end = Ok (Num <$> ((fun q => q / fold_left Qplus qs 0)%Q <$> qs)).
Proof.
  intros Hne Hpos. destruct qs as [|q qs]; [done|].
  rewrite fmap_cons at 1. f_equal. rewrite tsum_nums.
  rewrite <- !list_fmap_compose. apply list_fmap_ext.
  intros i x _. simpl. by apply (tdiv_nums x).
Qed.

Lemma sample_probs_raw rb :
  wf rb -> 1 <= num_elements rb ->
  (importance_sampling rb = true -> finite_ids rb) ->
  sample_probs rb
  = Ok ((fun row => Num (raw_weight rb row / raw_total rb)) <$> occupied rb).
Proof.
  intros Hwf Hn Hfin.
  pose proof (occupied_length rb Hwf) as Hlen.
  assert (occupied rb <> []) as Hne.
  { destruct (occupied rb); simpl in *; [lia | done]. }
  pose (base := fun row : tensor =>
          (if importance_sampling rb then id_of row - min_id rb + 1
           else 1 / inject_Z (Z.of_nat (num_elements rb)))%Q).
  unfold sample_probs.
  assert ((if importance_sampling rb then compute_importance_sampling_probs rb
           else Ok (replicate (num_elements rb)
                      (tdiv tone (Num (inject_Z (Z.of_nat (num_elements rb)))))))
          = Ok ((fun row => Num (base row)) <$> occupied rb)) as ->.
  { unfold base. destruct (importance_sampling rb).
    - unfold compute_importance_sampling_probs.
      rewrite (column_ids rb (Hfin eq_refl)). simpl.
      rewrite (min_id_ok rb Hne). simpl. f_equal.
      rewrite <- list_fmap_compose. by apply list_fmap_ext.
    - f_equal. unfold tone. rewrite tdiv_nums by (by apply inject_nat_pos).
      rewrite <- Hlen. symmetry. by apply const_fmap. }
  cbn [mbind result_bind].
  assert ((if prioritise_crashes rb then
             flags ← column_from_end 2 (occupied rb);
             double_where (to_bool <$> flags)
                          ((fun row => Num (base row)) <$> occupied rb)
           else Ok ((fun row => Num (base row)) <$> occupied rb))
          = Ok (Num <$> (raw_weight rb <$> occupied rb))) as ->.
  { unfold raw_weight. fold base. destruct (prioritise_crashes rb); simpl.
    - destruct (column_flags rb Hwf) as (flags & -> & Hflags). simpl.
      rewrite Hflags. unfold double_where.
      rewrite decide_True by (by rewrite !length_fmap). f_equal.
      rewrite zip_with_fmap_l, zip_with_fmap_r, zip_with_diag.
      rewrite <- list_fmap_compose. apply list_fmap_ext.
      intros i row _. simpl. by destruct (is_terminal row).
    - f_equal. by rewrite <- list_fmap_compose. }
  cbn [mbind result_bind].
  rewrite normalise_nums.
  - f_equal. rewrite <- !list_fmap_compose. by apply list_fmap_ext.
  - by destruct (occupied rb).
  - by apply raw_total_pos.
Qed.

Lemma weight_scale_pos rb : 1 <= num_elements rb -> (0 < weight_scale rb)%Q.
Proof.
  intros Hn. unfold weight_scale. destruct (importance_sampling rb); [lra|].
  apply Qlt_shift_div_l; [by apply inject_nat_pos | lra].
Qed.

Lemma raw_weight_scale rb row :
  (raw_weight rb row == weight_scale rb * selection_weight rb row)%Q.
Proof.
  unfold raw_weight, selection_weight, weight_scale.
  destruct (importance_sampling rb), (prioritise_crashes rb && is_terminal row);
    lra.
Qed.

Lemma raw_total_scale rb : (raw_total rb == weight_scale rb * total_weight rb)%Q.
Proof. apply qsum_scale. intros row _. apply raw_weight_scale. Qed.

Lemma normalised_weight rb row :
  wf rb -> 1 <= num_elements rb ->
  (raw_weight rb row / raw_total rb == selection_weight rb row / total_weight rb)%Q.
Proof.
  intros Hwf Hn.
  pose proof (weight_scale_pos rb Hn) as Hk.
  pose proof (raw_total_pos rb Hwf Hn) as HT.
  rewrite raw_total_scale in HT.
  rewrite raw_weight_scale, raw_total_scale.
  assert (~ total_weight rb == 0)%Q as HT0.
  { intros H0. rewrite H0 in HT. lra. }
  field. split; [done | lra].
Qed.

Lemma probs_sum_one rb :
  wf rb -> 1 <= num_elements rb ->
  (fold_left Qplus ((fun row => raw_weight rb row / raw_total rb)%Q <$> occupied rb) 0
   == 1)%Q.
Proof.
  intros Hwf Hn. pose proof (raw_total_pos rb Hwf Hn) as HT.
  rewrite (qsum_scale _ (raw_weight rb) (/ raw_total rb)%Q).
  - fold (raw_total rb). field. lra.
  - intros row _. unfold Qdiv. lra.
Qed.

Lemma probs_nonneg rb :
  wf rb -> 1 <= num_elements rb ->
  Forall (fun q => (0 <= q)%Q)
         ((fun row => raw_weight rb row / raw_total rb)%Q <$> occupied rb).
Proof.
  intros Hwf Hn. pose proof (raw_total_pos rb Hwf Hn) as HT.
  apply Forall_fmap, Forall_forall. intros row Hrow. simpl.
  apply Qle_shift_div_l; [done|].
  pose proof (raw_weight_pos rb row Hn Hrow). lra.
Qed.

Lemma valid_probs rb :
  wf rb -> 1 <= num_elements rb ->
  Generator.valid_p (num_elements rb)
    (Num <$> ((fun row => raw_weight rb row / raw_total rb)%Q <$> occupied rb))
  = Ok ((fun row => raw_weight rb row / raw_total rb)%Q <$> occupied rb).
Proof.
  intros Hwf Hn. unfold Generator.valid_p.
  rewrite decide_True by (by rewrite !length_fmap, occupied_length).
  rewrite rationals_nums.
  pose proof (raw_total_pos rb Hwf Hn) as HT.
  assert (forallb (fun q => Qle_bool 0 q)
            ((fun row => raw_weight rb row / raw_total rb)%Q <$> occupied rb) = true)
    as ->.
  { apply forallb_forall. intros q Hq. apply list_elem_of_In in Hq.
    apply list_elem_of_fmap in Hq as (row & -> & Hrow).
    apply Qle_bool_iff. apply Qle_shift_div_l; [done|].
    pose proof (raw_weight_pos rb row Hn Hrow). lra. }
  assert (Qle_bool
            (Qabs (fold_left Qplus
                     ((fun row => raw_weight rb row / raw_total rb)%Q <$> occupied rb)
                     0 - 1)%Q) Generator.atol = true) as ->; [|done].
  apply Qle_bool_iff. rewrite (probs_sum_one rb Hwf Hn).
  unfold Generator.atol. by vm_compute.
Qed.

Lemma read_rows rb (indices : list nat) :
  wf rb -> Forall (fun i => i < num_elements rb) indices ->
  exists rows,
    mapM_result (fun i => of_option IndexError (buffer rb !! i)) indices = Ok rows
    /\ length rows = length indices
    /\ (forall k i, indices !! k = Some i -> rows !! k = buffer rb !! i)
    /\ (forall row, row ∈ rows -> row ∈ occupied rb).
Proof.
  intros Hwf Hall. destruct Hwf as [Hs Hr Hw Hi Hc].
  assert (forall i, i ∈ indices -> exists row, buffer rb !! i = Some row) as Hrow.
  { intros i Hin. apply lookup_lt_is_Some.
    eapply Forall_forall in Hall; [|exact Hin]. simpl in Hall. lia. }
  exists ((fun i => default [] (buffer rb !! i)) <$> indices).
  split; [|split; [|split]].
  - apply mapM_result_ok. apply Forall_forall. intros i Hin.
    destruct (Hrow i Hin) as [row ->]. done.
  - by rewrite length_fmap.
  - intros k i Hk. rewrite list_lookup_fmap, Hk. simpl.
    destruct (Hrow i) as [row ->]; [|done].
    by eapply list_elem_of_lookup_2.
  - intros row Hin. apply list_elem_of_fmap in Hin as (i & -> & Hin).
    destruct (Hrow i Hin) as [row Hlk]. rewrite Hlk. simpl.
    apply elem_of_take. exists i. split; [done|].
    by eapply Forall_forall in Hall.
Qed.

(** C5. On a well-formed buffer with at least one element, [sample]
    hands the generator one probability per occupied row, equal to the
    weight of the row over the total weight (weight 1, or
    [id - min_id + 1] under importance sampling, doubled for terminal
    rows when crashes are prioritised), and returns exactly
    [max(1, round(sample_size))] occupied rows, the [k]-th chosen by
    the [k]-th uniform draw against the same cumulative distribution
    (so with replacement); a draw selects row [i] exactly when it falls
    in an interval whose length is the probability of row [i]. *)
Theorem sample_distribution (rb : t) (rng : Generator.t) (sample_size : Q) :
  wf rb ->
  1 <= num_elements rb ->
  (importance_sampling rb = true -> finite_ids rb) ->
  Generator.well_formed rng ->
  exists probs qs rows rng',
    sample_probs rb = Ok probs
    /\ length probs = num_elements rb
    /\ rationals probs = Some qs
    /\ (forall i row, occupied rb !! i = Some row ->
        exists p, qs !! i = Some p
                  /\ (p == selection_weight rb row / total_weight rb)%Q)
    /\ sample rb rng sample_size = (Ok rows, rng')
    /\ Z.of_nat (length rows) = Z.max 1 (py_round sample_size)
    /\ (forall row, row ∈ rows -> row ∈ occupied rb)
    /\ (forall k, k < length rows ->
        rows !! k
        = buffer rb !! Generator.searchsorted_right (Generator.normalised_cdf qs)
                         (Generator.uniform rng (Generator.position rng + k)))
    /\ (forall i p u, qs !! i = Some p -> (0 <= u)%Q ->
        Generator.searchsorted_right (Generator.normalised_cdf qs) u = i
        <-> (Generator.prefix_sum i qs <= u
             /\ u < Generator.prefix_sum i qs + p)%Q).
Proof.
  intros Hwf Hn Hfin Hrng.
  pose proof (sample_probs_raw rb Hwf Hn Hfin) as Hprobs.
  pose proof (occupied_length rb Hwf) as Hlen.
  set (qs := (fun row => raw_weight rb row / raw_total rb)%Q <$> occupied rb).
  assert ((fun row => Num (raw_weight rb row / raw_total rb)) <$> occupied rb
          = Num <$> qs) as Hqs.
  { unfold qs. by rewrite <- list_fmap_compose. }
  rewrite Hqs in Hprobs.
  set (count := Z.to_nat (sample_count sample_size)).
  set (cdf := Generator.normalised_cdf qs).
  set (indices := Generator.searchsorted_right cdf
                    <$> (Generator.uniform rng <$> seq (Generator.position rng) count)).
  assert (Forall (fun i => i < num_elements rb) indices) as Hidx.
  { apply Forall_forall. intros i Hi.
    apply list_elem_of_fmap in Hi as (u & -> & Hu).
    apply list_elem_of_fmap in Hu as (k & -> & _).
    rewrite <- Hlen. replace (length (occupied rb)) with (length qs)
      by (unfold qs; by rewrite length_fmap).
    apply searchsorted_in_range.
    - unfold qs. destruct (occupied rb); simpl in *; [lia | done].
    - by apply probs_sum_one.
    - apply Hrng. }
  destruct (read_rows rb indices Hwf Hidx) as (rows & Hrows & Hrl & Hrk & Hocc).
  exists (Num <$> qs), qs, rows,
    {| Generator.uniform := Generator.uniform rng;
       Generator.position := Generator.position rng + count |}.
  split; [done|]. split.
  { unfold qs. by rewrite !length_fmap. }
  split; [apply rationals_nums|]. split.
  { intros i row Hi. exists (raw_weight rb row / raw_total rb)%Q. split.
    - unfold qs. by rewrite list_lookup_fmap, Hi.
    - by apply normalised_weight. }
  split.
  { unfold sample. rewrite Hprobs. unfold Generator.choice.
    rewrite decide_False by lia. unfold qs. rewrite valid_probs by done.
    fold qs. unfold Generator.random. fold count. fold cdf. fold indices.
    by rewrite Hrows. }
  split.
  { rewrite Hrl. unfold indices. rewrite !length_fmap, length_seq.
    unfold count, sample_count. lia. }
  split; [done|]. split.
  { intros k Hk. rewrite Hrl in Hk. unfold indices in Hk.
    rewrite !length_fmap, length_seq in Hk.
    apply Hrk. unfold indices.
    rewrite !list_lookup_fmap, lookup_seq_lt by done. done. }
  intros i p u Hi Hu. apply searchsorted_selects_interval; try done.
  - by apply probs_nonneg.
  - by apply probs_sum_one.
Qed.

Lemma sample_distribution_witness :
  exists rows rng',
    sample Examples.weighted Examples.rng (5 # 2) = (Ok rows, rng')
    /\ Z.of_nat (length rows) = 2%Z
    /\ forall row, row ∈ rows -> row ∈ occupied Examples.weighted.
Proof.
  assert (wf Examples.weighted) as Hwf.
  { split; simpl; try lia. repeat constructor. }
  assert (1 <= num_elements Examples.weighted) as Hn by (simpl; lia).
  assert (importance_sampling Examples.weighted = true
          -> finite_ids Examples.weighted) as Hfin.
  { intros _. repeat constructor; eexists; reflexivity. }
  assert (Generator.well_formed Examples.rng) as Hrng.
  { intros k. simpl. destruct (Nat.even k); split; by vm_compute. }
  destruct (sample_distribution Examples.weighted Examples.rng (5 # 2)
              Hwf Hn Hfin Hrng)
    as (probs & qs & rows & rng' & _ & _ & _ & _ & Hs & Hlen & Hocc & _ & _).
  exists rows, rng'. split; [exact Hs|]. split; [exact Hlen | exact Hocc].
Defined.

End ReplayBufferFacts.

(** ** DataLogger *)

Module DataLoggerFacts.
Import DataLogger.

Lemma make_tuple_matches fields args kw row :
  make_tuple fields args kw = Ok row <-> matches fields args kw row.
Proof.
  unfold make_tuple, matches. split.
  - case_decide as Hle; [|done].
    destruct (forallb _ kw && _) eqn:Hc; [|done].
    apply andb_true_iff in Hc as [Hkeys Hlen].
    apply bool_decide_eq_true in Hlen. rewrite length_drop in Hlen.
    destruct (mapM _ _) as [vs|] eqn:Hvs; [|done].
    intros [= <-]. split; [lia|]. split.
    + intros kv Hkv. rewrite forallb_forall in Hkeys.
      apply list_elem_of_In in Hkv. apply Hkeys in Hkv.
      by apply bool_decide_eq_true in Hkv.
    + exists vs. split; [|done]. by apply mapM_Some.
  - intros (Hlen & Hkeys & vs & Hvs & ->).
    rewrite decide_True by lia.
    assert (forallb (fun kv => bool_decide (kv.1 ∈ drop (length args) fields)) kw
            = true) as ->.
    { apply forallb_forall. intros kv Hkv. apply list_elem_of_In in Hkv.
      apply bool_decide_eq_true. by apply Hkeys. }
    rewrite bool_decide_eq_true_2 by (rewrite length_drop; lia). simpl.
    apply mapM_Some in Hvs. by rewrite Hvs.
Qed.

Lemma make_tuple_items fields items row :
  make_tuple fields items [] = Ok row <-> length items = length fields /\ row = items.
Proof.
  rewrite make_tuple_matches. unfold matches. simpl. split.
  - intros (Hlen & _ & vs & Hvs & ->).
    rewrite drop_ge in Hvs by lia. apply Forall2_nil_inv_l in Hvs as ->.
    rewrite app_nil_r. split; [lia | done].
  - intros [Hlen ->]. split; [lia|]. split.
    + intros kv Hkv. by apply elem_of_nil in Hkv.
    + exists []. rewrite drop_ge by lia. split; [constructor|].
      by rewrite app_nil_r.
Qed.

Lemma _add_by_list_ok lg x lg' :
  _add_by_list lg x = (Ok (), lg') <->
  exists items, py_iter x = Some items /\ length items = length (fieldNames lg)
                /\ lg' = append lg items.
Proof.
  unfold _add_by_list. destruct (py_iter x) as [items|].
  2:{ split; [done | by intros (? & ? & _)]. }
  destruct (make_tuple (fieldNames lg) items []) as [row|e] eqn:Hrow.
  - apply make_tuple_items in Hrow as [Hlen ->]. split.
    + intros [= <-]. eauto.
    + by intros (items' & [= <-] & _ & ->).
  - split; [done|]. intros (items' & [= <-] & Hlen & _).
    assert (make_tuple (fieldNames lg) items [] = Ok items) as Hok
      by (by apply make_tuple_items).
    congruence.
Qed.

Lemma _add_by_list_fails lg x :
  (forall items, py_iter x = Some items -> length items <> length (fieldNames lg)) ->
  _add_by_list lg x = (Err TypeError, lg).
Proof.
  intros Hno. unfold _add_by_list. destruct (py_iter x) as [items|]; [|done].
  unfold make_tuple. simpl. case_decide as Hle; [|done].
  rewrite bool_decide_eq_false_2; [done|].
  rewrite length_drop. specialize (Hno items eq_refl). lia.
Qed.

Lemma binds_self_false kw :
  binds_self kw = false <-> forall kv, kv ∈ kw -> kv.1 <> "self"%string.
Proof.
  unfold binds_self. induction kw as [|kv kw IH]; simpl.
  - split; [|done]. intros _ kv Hkv. by apply elem_of_nil in Hkv.
  - rewrite orb_false_iff, IH, bool_decide_eq_false. split.
    + intros [Hkv Hkw] kv' [->|Hin]%elem_of_cons; [done | by apply Hkw].
    + intros Hall. split; [apply Hall; left | intros kv' Hin; apply Hall; by right].
Qed.

Lemma _add_by_params_ok lg args kw lg' :
  binds_self kw = false ->
  _add_by_params lg args kw = (Ok (), lg') <->
  exists row, matches (fieldNames lg) args kw row /\ lg' = append lg row.
Proof.
  intros Hself. unfold _add_by_params. rewrite Hself.
  destruct (make_tuple (fieldNames lg) args kw) as [row|e] eqn:Hrow.
  - apply make_tuple_matches in Hrow. split; [naive_solver|].
    intros (row' & Hrow' & ->). apply make_tuple_matches in Hrow, Hrow'.
    congruence.
  - split; [done|]. intros (row & Hrow' & _).
    apply make_tuple_matches in Hrow'. congruence.
Qed.

Lemma _add_by_params_fails lg args kw :
  (forall row, ~ matches (fieldNames lg) args kw row) ->
  _add_by_params lg args kw = (Err TypeError, lg).
Proof.
  intros Hno. unfold _add_by_params. destruct (binds_self kw); [done|].
  destruct (make_tuple (fieldNames lg) args kw) as [row|e] eqn:Hrow.
  - apply make_tuple_matches in Hrow. by apply Hno in Hrow.
  - unfold make_tuple in Hrow. case_decide; [|by simplify_eq].
    destruct (forallb _ kw && _); [|by simplify_eq].
    destruct (mapM _ _); by simplify_eq.
Qed.

(** C9 as stated fails: on a logger with one field, the direct call
    [add(5)] matches the declared fields, yet it is expanded as a
    list, fails with a type error and appends nothing. *)
Lemma add_rejects_direct_call_on_single_field :
  let lg := {| loggerName := "loss_logger"; fieldNames := ["loss"%string];
               tuple_list := [] |} in
  make_tuple (fieldNames lg) [PyInt 5] [] = Ok [PyInt 5]
  /\ add lg [PyInt 5] [] = (Err TypeError, lg).
Proof. split; reflexivity. Qed.

(** C9, amended.  A call of [add] succeeds exactly in one of three
    shapes: one positional argument that is a sequence of as many
    items as there are fields; one keyword argument, not named [self],
    whose value is such a sequence; or a call without a keyword named
    [self] that is neither a lone positional nor a lone keyword
    argument and whose argument list matches the fields.  A
    successful call appends exactly the one row of its shape; every
    other call fails with a type error and leaves the logger
    unchanged. *)
Theorem add_call_shapes (lg : t) (args : list pyobj) (kw : kwargs) :
  (forall lg', add lg args kw = (Ok (), lg') <->
               exists row, accepted (fieldNames lg) args kw row
                           /\ lg' = append lg row)
  /\ ((forall row, ~ accepted (fieldNames lg) args kw row) <->
      add lg args kw = (Err TypeError, lg)).
Proof.
  assert (forall row, accepted (fieldNames lg) args kw row -> binds_self kw = false)
    as Hnoself.
  { intros row Hacc. inversion Hacc; subst.
    - done.
    - simpl. by rewrite bool_decide_eq_false_2.
    - by apply binds_self_false. }
  assert (forall lg', add lg args kw = (Ok (), lg') <->
            exists row, accepted (fieldNames lg) args kw row
                        /\ lg' = append lg row) as Hok.
  { intros lg'. unfold add. destruct (binds_self kw) eqn:Hself.
    { split; [done|]. intros (row & Hacc & _). apply Hnoself in Hacc. congruence. }
    clear Hnoself.
    pose proof (proj1 (binds_self_false kw) Hself) as Hkeys.
    destruct args as [|x [|x' args]], kw as [|[k v] [|kv kw]]; simpl;
      rewrite ?_add_by_list_ok, ?(_add_by_params_ok _ _ _ _ Hself).
    all: try match type of Hkeys with
             | forall kv, kv ∈ [(?k, ?v)] -> _ =>
                 pose proof (Hkeys (k, v) ltac:(left)) as Hk; simpl in Hk
             end.
    all: split;
      [ intros H;
        first [ destruct H as (items & Hit & Hlen & ->); eexists; split;
                [ by econstructor | done ]
              | destruct H as (row & Hm & ->); exists row; split;
                [ apply accepted_direct; [simpl; lia | done | done] | done ] ]
      | intros (row & Hacc & ->); inversion Hacc; simplify_eq/=;
        first [ lia | naive_solver ] ]. }
  split; [exact Hok|]. split.
  - intros Hno. unfold add. destruct (binds_self kw) eqn:Hself; [done|].
    pose proof (proj1 (binds_self_false kw) Hself) as Hkeys.
    destruct args as [|x [|x' args]], kw as [|[k v] [|kv kw]]; simpl.
    all: try match type of Hkeys with
             | forall kv, kv ∈ [(?k, ?v)] -> _ =>
                 pose proof (Hkeys (k, v) ltac:(left)) as Hk; simpl in Hk
             end.
    all: first
      [ apply _add_by_list_fails; intros items Hit Hlen;
        eapply Hno; by econstructor
      | apply _add_by_params_fails; intros row Hm;
        eapply Hno; apply accepted_direct; [simpl; lia | exact Hkeys | exact Hm] ].
  - intros Herr row Hacc.
    assert (add lg args kw = (Ok (), append lg row)) as Hadd.
    { apply Hok. eauto. }
    congruence.
Qed.

(** A keyword named [self] never reaches the body of [add]: the call
    raises a type error, also when [self] is a declared field. *)
Example add_keyword_self :
  let lg := {| loggerName := "logger"; fieldNames := ["self"; "loss"]%string;
               tuple_list := [] |} in
  add lg [] [("self", PyInt 1); ("loss", PyInt 2)]%string = (Err TypeError, lg)
  /\ add lg [] [("self", PyList [PyInt 1; PyInt 2])]%string = (Err TypeError, lg)
  /\ add lg [PyInt 1] [("loss", PyInt 2)]%string
     = (Ok (), append lg [PyInt 1; PyInt 2]).
Proof. repeat split; reflexivity. Qed.

Example init_checks_names :
  init "hv_logger" ["episode"; "hypervolume"]%string
  = Ok {| loggerName := "hv_logger";
          fieldNames := ["episode"; "hypervolume"]%string; tuple_list := [] |}
  /\ init "log" ["loss"; "loss"]%string = Err ValueError
  /\ init "log" ["class"]%string = Err ValueError
  /\ init "log" ["_loss"]%string = Err ValueError
  /\ init "log" ["2nd"]%string = Err ValueError
  /\ init "my log" ["loss"]%string = Err ValueError.
Proof. repeat split; reflexivity. Qed.

(** A positional call whose first argument is an integer either
    appends its arguments as the row or leaves the logger as it was. *)
Lemma add_positional_row lg (z : Z) (rest : list pyobj) :
  (add lg (PyInt z :: rest) []).2 = lg
  \/ (add lg (PyInt z :: rest) []).2 = append lg (PyInt z :: rest).
Proof.
  unfold add. destruct rest as [|x rest]; simpl; [by left|].
  unfold _add_by_params.
  destruct (make_tuple (fieldNames lg) (PyInt z :: x :: rest) []) as [row|e] eqn:Hrow.
  - apply make_tuple_items in Hrow as [_ ->]. by right.
  - by left.
Qed.

End DataLoggerFacts.

(** ** Matrices *)

Lemma stack_ok (ws : list tensor) (c : nat) :
  ws <> [] -> Forall (fun w => length w = c) ws -> stack ws = Ok ws.
Proof.
  intros Hne Hall. unfold stack. destruct ws as [|w0 ws']; [done|].
  assert (forallb (fun row => bool_decide (length row = length w0)) (w0 :: ws') = true)
    as ->; [|done].
  apply forallb_forall. intros row Hin. apply list_elem_of_In in Hin.
  apply bool_decide_eq_true.
  rewrite Forall_forall in Hall.
  rewrite (Hall row Hin), (Hall w0); [done | left].
Qed.

Lemma fill_zero_rows_length fill ws : length (fill_zero_rows fill ws) = length ws.
Proof. unfold fill_zero_rows. by rewrite length_fmap. Qed.

Lemma fill_zero_rows_lookup fill ws j w :
  ws !! j = Some w ->
  fill_zero_rows fill ws !! j
  = Some (if forallb is_zero w then (fun _ => fill) <$> w else w).
Proof. intros Hw. unfold fill_zero_rows. by rewrite list_lookup_fmap, Hw. Qed.

Lemma fill_zero_rows_width fill ws c :
  Forall (fun w => length w = c) ws ->
  Forall (fun w => length w = c) (fill_zero_rows fill ws).
Proof.
  intros Hall. unfold fill_zero_rows. apply Forall_fmap.
  eapply Forall_impl; [exact Hall|]. intros w Hw. simpl.
  destruct (forallb is_zero w); [by rewrite length_fmap | done].
Qed.

Lemma zip_rows_ok (r w : list tensor) (c : nat) :
  Forall (fun row => length row = c) r -> Forall (fun row => length row = c) w ->
  zip_rows r w = Ok (zip_with (zip_with tmul) r w).
Proof.
  intros Hr. revert w. induction Hr as [|a r Ha Hr IH]; intros w Hw; [done|].
  destruct Hw as [|b w Hb Hw]; [done|]. simpl.
  unfold row_mul. rewrite decide_True by congruence. simpl.
  by rewrite (IH w Hw).
Qed.

Lemma column_zip (r w : list tensor) (o : nat) :
  column o (zip_with (zip_with tmul) r w)
  = (fun j => match r !! j, w !! j with
              | Some a, Some b => default NaN (zip_with tmul a b !! o)
              | _, _ => NaN
              end) <$> seq 0 (length (zip_with (zip_with tmul) r w)).
Proof.
  apply list_eq. intros j. unfold column.
  rewrite !list_lookup_fmap, lookup_zip_with.
  destruct (decide (j < length (zip_with (zip_with tmul) r w))) as [Hj|Hj].
  - rewrite lookup_seq_lt by done. simpl.
    rewrite length_zip_with in Hj.
    destruct (lookup_lt_is_Some_2 r j) as [a ->]; [lia|].
    destruct (lookup_lt_is_Some_2 w j) as [b ->]; [lia|]. done.
  - rewrite lookup_seq_ge by lia. simpl.
    rewrite length_zip_with in Hj.
    destruct (r !! j) as [a|] eqn:Ha; [|done]. simpl.
    destruct (w !! j) as [b|] eqn:Hb; [|done].
    apply lookup_lt_Some in Ha, Hb. lia.
Qed.

(** ** MOMA_DQN *)

Module MOMA_DQNFacts.
Import MOMA_DQN.

(** *** reduce_epsilon *)

Lemma decay_add n m mi es ee eps :
  decay (n + m) mi es ee eps = decay n mi es ee eps ≫= decay m mi es ee.
Proof.
  revert eps. induction n as [|n IH]; intros eps; simpl; [done|].
  destruct (epsilon_step eps mi es ee) as [e|err]; simpl; [apply IH | done].
Qed.

Lemma decay_at_floor n : decay n f10 f0_9 0%float 0%float = Ok 0%float.
Proof. induction n as [|n IH]; [done|]. simpl. exact IH. Qed.

(** C8 as stated fails in binary64: after 10 calls epsilon is the
    rounding residue [2^-52 * 1.125], not 0. *)
Lemma epsilon_not_zero_after_ten_calls :
  decay 10 f10 f0_9 0%float f0_9 = Ok 0x1.2p-52%float
  /\ decay 10 f10 f0_9 0%float f0_9 <> Ok 0%float.
Proof. split; [by vm_compute | vm_compute; intros [=]]. Qed.

(** C8, amended.  From [epsilon = 0.9] with [max_iteration = 10],
    [eps_start = 0.9], [eps_end = 0]: after 10 calls epsilon is the
    positive residue [0x1.2p-52] (about [2.5e-16]); after 11 calls
    and every further call it is exactly 0; and it is never below 0. *)
Theorem epsilon_decay_reaches_floor :
  decay 10 f10 f0_9 0%float f0_9 = Ok 0x1.2p-52%float
  /\ (forall n, decay (11 + n) f10 f0_9 0%float f0_9 = Ok 0%float)
  /\ (forall n, exists e, decay n f10 f0_9 0%float f0_9 = Ok e
                          /\ PrimFloat.leb 0%float e = true).
Proof.
  split; [by vm_compute|].
  assert (forall n, decay (11 + n) f10 f0_9 0%float f0_9 = Ok 0%float) as Hfloor.
  { intros n. rewrite decay_add.
    replace (decay 11 f10 f0_9 0%float f0_9) with (Ok 0%float) by (by vm_compute).
    apply decay_at_floor. }
  split; [exact Hfloor|].
  intros n.
  do 11 (destruct n as [|n]; [eexists; split; by vm_compute|]).
  exists 0%float. split; [apply (Hfloor n) | by vm_compute].
Qed.

(** *** compute_reward_summary *)

Section Summary.
Context {World : Type}.
Implicit Types s : t World.

Lemma vehicle_summary_crashed s rewards obj_weights i r row0 :
  rewards !! i = Some r -> r !! 0 = Some row0 -> crashed s !! i = Some true ->
  vehicle_summary s rewards obj_weights i = Ok row0.
Proof.
  intros Hr H0 Hc. unfold vehicle_summary. rewrite Hr, Hc. simpl.
  by rewrite H0.
Qed.

(** C2. When [compute_reward_summary] returns, the entry of every
    controlled vehicle whose crashed flag is set is row 0 of that
    vehicle's reward matrix; the loop body yields this row whatever
    the weights, the reward structure and the other settings of
    the agent. *)
Theorem crashed_vehicle_gets_raw_ego_reward s s' rewards obj_weights out i :
  compute_reward_summary s rewards obj_weights = (Ok out, s') ->
  i < num_controlled_vehicles s ->
  crashed s !! i = Some true ->
  exists r row0,
    rewards !! i = Some r /\ r !! 0 = Some row0 /\ out !! i = Some row0
    /\ forall (s2 : t World) obj_weights2,
         crashed s2 !! i = Some true ->
         vehicle_summary s2 rewards obj_weights2 i = Ok row0.
Proof.
  intros Hsum Hi Hc. unfold compute_reward_summary in Hsum.
  destruct rewards as [|r0 rest] eqn:Hrew; [done|]. rewrite <- Hrew in *.
  injection Hsum as Hout _. simpl in Hout.
  destruct (mapM_result_lookup _ _ _ i i Hout) as (y & Hy & Hv).
  { by apply lookup_seq_lt. }
  unfold vehicle_summary in Hv. simpl in Hv.
  destruct (rewards !! i) as [r|] eqn:Hr; [|done]. simpl in Hv.
  rewrite Hc in Hv. simpl in Hv.
  destruct (r !! 0) as [row0|] eqn:H0; [|done]. simpl in Hv.
  injection Hv as <-. exists r, row0. repeat split; try done.
  intros s2 w2 Hc2. by apply vehicle_summary_crashed with r.
Qed.


Lemma forallb_all_nan (rows : list tensor) :
  Forall (Forall (fun x => isnan x = true)) rows ->
  forallb (forallb isnan) rows = true.
Proof.
  intros Hall. apply forallb_forall. intros row Hrow.
  apply list_elem_of_In in Hrow. rewrite Forall_forall in Hall.
  apply forallb_forall. intros x Hx. apply list_elem_of_In in Hx.
  specialize (Hall row Hrow). rewrite Forall_forall in Hall. by apply Hall.
Qed.

(** C6. For a vehicle that has not crashed, under the [mean_reward]
    structure and with reward and weight matrices of matching
    shape (excess reward rows all [nan]), the aggregated reward is
    the one obtained by replacing every entry of each all-zero
    weight row with [1/num_objectives], weighting the rewards
    entry by entry and taking the arithmetic mean over the rows. *)
Theorem mean_reward_substitutes_zero_weights s rewards obj_weights i r ws c :
  reward_structure s = "mean_reward"%string ->
  crashed s !! i = Some false ->
  num_objectives s <> 0 ->
  rewards !! i = Some r ->
  obj_weights !! i = Some ws ->
  ws <> [] ->
  Forall (fun w => length w = c) ws ->
  length ws <= length r ->
  Forall (fun row => length row = c) (take (length ws) r) ->
  Forall (Forall (fun x => isnan x = true)) (drop (length ws) r) ->
  vehicle_summary s rewards obj_weights i
  = Ok (spec_mean_reward (num_objectives s) c r ws).
Proof.
  intros Hst Hc Hn Hr Hw Hne Hwc Hlen Hrc Hnan.
  unfold vehicle_summary. rewrite Hr, Hc. simpl. rewrite Hw. simpl.
  unfold weighted_summary. rewrite (stack_ok ws c Hne Hwc). simpl.
  rewrite decide_False by done. simpl.
  set (fill := Num (1 / inject_Z (Z.of_nat (num_objectives s)))).
  set (weights := fill_zero_rows fill ws).
  assert (length weights = length ws) as Hlw by apply fill_zero_rows_length.
  assert (Forall (fun w => length w = c) weights) as Hwc'
    by (by apply fill_zero_rows_width).
  assert ((if decide (length weights < length r)
           then if forallb (forallb isnan) (drop (length weights) r)
                then Ok (take (length weights) r) else Err AssertionError
           else Ok r) = Ok (take (length ws) r)) as ->.
  { rewrite Hlw. case_decide.
    - by rewrite forallb_all_nan.
    - f_equal. symmetry. apply take_ge. lia. }
  simpl. unfold broadcast_mul.
  rewrite decide_True by (rewrite length_take; lia).
  rewrite (zip_rows_ok _ _ c Hrc Hwc'). simpl.
  set (weighted := zip_with (zip_with tmul) (take (length ws) r) weights).
  assert (length weighted = length ws) as Hlwd.
  { unfold weighted. rewrite length_zip_with, length_take. lia. }
  assert (ncols_of weighted weights = c) as ->.
  { unfold weighted. destruct (take (length ws) r) as [|a r'] eqn:Hr'.
    - apply (f_equal length) in Hr'. rewrite length_take in Hr'.
      destruct ws; simpl in *; [done | lia].
    - destruct weights as [|b w'] eqn:Hw'.
      + destruct ws; simpl in *; [done | lia].
      + simpl. rewrite length_zip_with.
        apply Forall_cons in Hrc as [-> _].
        apply Forall_cons in Hwc' as [-> _]. lia. }
  unfold summarise. rewrite decide_True by done. f_equal.
  unfold mean_dim0, spec_mean_reward. apply list_fmap_ext.
  intros o o' Ho. apply lookup_seq in Ho as [-> Ho]. simpl in Ho.
  change (0 + o) with o.
  rewrite Hlwd. f_equal. f_equal.
  unfold weighted. rewrite column_zip. fold weighted. rewrite Hlwd.
  apply list_fmap_ext. intros j j' Hj. apply lookup_seq in Hj as [-> Hj].
  simpl in Hj. change (0 + j) with j.
  rewrite lookup_take_lt by done.
  destruct (lookup_lt_is_Some_2 r j) as [a Ha]; [lia|].
  destruct (lookup_lt_is_Some_2 ws j) as [w Hwj]; [lia|].
  unfold weights. rewrite (fill_zero_rows_lookup fill ws j w Hwj), Ha.
  unfold entry, substituted_weight. rewrite Ha, Hwj.
  assert (length a = c) as Hla.
  { rewrite Forall_lookup in Hrc. apply (Hrc j).
    by rewrite lookup_take_lt. }
  assert (length w = c) as Hlwj.
  { rewrite Forall_lookup in Hwc. by apply (Hwc j). }
  destruct (lookup_lt_is_Some_2 a o) as [x Hx]; [lia|].
  destruct (lookup_lt_is_Some_2 w o) as [y Hy]; [lia|].
  rewrite lookup_zip_with, Hx. simpl.
  destruct (forallb is_zero w).
  - by rewrite list_lookup_fmap, Hy.
  - by rewrite Hy.
Qed.


End Summary.

Lemma crashed_vehicle_gets_raw_ego_reward_witness :
  exists r row0,
    Examples.rewards !! 0 = Some r /\ r !! 0 = Some row0
    /\ [[Num 1; Num (1 # 2)]] !! 0 = Some row0
    /\ forall (s2 : t unit) obj_weights2,
         crashed s2 !! 0 = Some true ->
         vehicle_summary s2 Examples.rewards obj_weights2 0 = Ok row0.
Proof.
  apply (crashed_vehicle_gets_raw_ego_reward
           (Examples.agent "mean_reward" [true])
           (set_num_close_vehicles (Examples.agent "mean_reward" [true]) 3)
           Examples.rewards Examples.weights [[Num 1; Num (1 # 2)]] 0).
  - reflexivity.
  - simpl. lia.
  - reflexivity.
Defined.

Lemma mean_reward_substitutes_zero_weights_witness :
  vehicle_summary (Examples.agent "mean_reward" [false]) Examples.rewards
                  Examples.weights 0
  = Ok (spec_mean_reward 2 2
          [[Num 1; Num (1 # 2)]; [Num (1 # 2); Num (1 # 4)]; [NaN; NaN]]
          [[Num (1 # 4); Num (3 # 4)]; [Num 0; Num 0]]).
Proof.
  apply (mean_reward_substitutes_zero_weights
           (Examples.agent "mean_reward" [false]) Examples.rewards
           Examples.weights 0
           [[Num 1; Num (1 # 2)]; [Num (1 # 2); Num (1 # 4)]; [NaN; NaN]]
           [[Num (1 # 4); Num (3 # 4)]; [Num 0; Num 0]] 2).
  - reflexivity.
  - reflexivity.
  - simpl. lia.
  - reflexivity.
  - reflexivity.
  - discriminate.
  - repeat constructor.
  - simpl. lia.
  - repeat constructor.
  - repeat constructor.
Defined.

(** *** train *)

Section Train.
Context {World : Type}.
Implicit Types s : t World.

Lemma keeps_ret {A} (a : A) : keeps (World := World) (ret a).
Proof. by intros s. Qed.

Lemma keeps_raise {A} (e : exn) : keeps (World := World) (raise (A := A) e).
Proof. by intros s. Qed.

Lemma keeps_get : keeps (World := World) get.
Proof. by intros s. Qed.

Lemma keeps_lift_result {A} (r : result A) :
  keeps (World := World) (lift_result r).
Proof. by intros s. Qed.

Lemma keeps_lift_world {A} (f : World -> result A * World) : keeps (lift_world f).
Proof. intros s. unfold lift_world. by destruct (f (world s)). Qed.

Lemma keeps_modify (f : t World -> t World) :
  (forall s, reward_logger (f s) = reward_logger s
             /\ num_objectives (f s) = num_objectives s) ->
  keeps (modify f).
Proof. intros Hf s. apply Hf. Qed.

Lemma keeps_bind {A B} (m : M (World := World) A) (f : A -> M (World := World) B) :
  keeps m -> (forall a, keeps (f a)) -> keeps (bind m f).
Proof.
  intros Hm Hf s. unfold bind. specialize (Hm s).
  destruct (m s) as [[a|e] s1]; simpl in *; [|done].
  destruct (Hf a s1) as [H1 H2]. destruct Hm as [H3 H4]. split; congruence.
Qed.

Lemma keeps_compute_reward_summary rewards obj_weights :
  keeps (fun s => compute_reward_summary s rewards obj_weights).
Proof. intros s. unfold compute_reward_summary. by destruct rewards. Qed.

Lemma keeps_reduce_epsilon mi es ee :
  keeps (fun s => reduce_epsilon s mi es ee).
Proof.
  intros s. unfold reduce_epsilon.
  by destruct (epsilon_step (epsilon s) mi es ee).
Qed.

Lemma keeps_logs_zero n {A} (m : M (World := World) A) : keeps m -> logs_zero n m.
Proof.
  intros Hm s Hn. destruct (Hm s) as [Hl Ho]. split; [congruence|].
  exists []. rewrite Hl, app_nil_r. by split.
Qed.

Lemma logs_zero_bind n {A B} (m : M (World := World) A) (f : A -> M (World := World) B) :
  logs_zero n m -> (forall a, logs_zero n (f a)) -> logs_zero n (bind m f).
Proof.
  intros Hm Hf s Hn. unfold bind. specialize (Hm s Hn).
  destruct (m s) as [[a|e] s1]; simpl in *; [|done].
  destruct Hm as (Hn1 & new1 & Hl1 & Hz1).
  destruct (Hf a s1 Hn1) as (Hn2 & new2 & Hl2 & Hz2).
  split; [done|]. exists (new1 ++ new2). split.
  - by rewrite Hl2, Hl1, app_assoc.
  - by apply Forall_app.
Qed.

(** Reading the state gives a state with [n] objectives. *)
Lemma logs_zero_get n {B} (f : t World -> M (World := World) B) :
  (forall s0, num_objectives s0 = n -> logs_zero n (f s0)) ->
  logs_zero n (bind get f).
Proof. intros Hf s Hn. unfold bind, get. by apply Hf. Qed.

Lemma logs_zero_add n (episode_nr : nat) :
  logs_zero n (fun s =>
    let (r, l) := DataLogger.add (reward_logger s)
                    (PyInt (Z.of_nat episode_nr) :: np_zeros n) [] in
    (r, set_reward_logger s l)).
Proof.
  intros s Hn.
  pose proof (DataLoggerFacts.add_positional_row (reward_logger s)
                (Z.of_nat episode_nr) (np_zeros n)) as Hadd.
  destruct (DataLogger.add _ _ _) as [r l]. simpl in *. split; [done|].
  destruct Hadd as [-> | ->].
  - exists []. by rewrite app_nil_r.
  - exists [PyInt (Z.of_nat episode_nr) :: np_zeros n]. split; [done|].
    apply Forall_singleton. by exists episode_nr.
Qed.

Ltac keeps_prim :=
  first
    [ apply keeps_ret
    | apply keeps_raise
    | apply keeps_get
    | apply keeps_lift_result
    | apply keeps_lift_world
    | apply keeps_compute_reward_summary
    | apply keeps_reduce_epsilon
    | apply keeps_modify; by intros ? ].

Ltac keeps_steps :=
  repeat first [ keeps_prim | apply keeps_bind; [|intros ?] ].

Variable env_reset : World -> result (list tensor) * World.
Variable resample_objective_weights : World -> World.
Variable act : float -> list tensor -> World -> result (list Z) * World.
Variable env_step : list Z -> World -> result step_out * World.
Variable update_weights : nat -> nat -> nat -> ReplayBuffer.t -> World
                          -> result unit * World.
Variable evaluate : nat -> rollout -> World -> result float * (rollout * World).
Variable train_setup : World -> World.
Variable prepare_logger_data : nat -> DataLogger.t -> World
                               -> result (list (list pyobj)).

Lemma keeps_push_transitions next_obs actions reward_summary episode_nr :
  keeps (push_transitions (World := World) next_obs actions reward_summary
                          episode_nr).
Proof. unfold push_transitions. keeps_steps. Qed.

Lemma keeps_rollout_body episode_nr :
  keeps (rollout_body act env_step episode_nr).
Proof.
  unfold rollout_body. keeps_steps.
Qed.

Lemma keeps_rollout_loop fuel episode_nr :
  keeps (rollout_loop act env_step fuel episode_nr).
Proof.
  induction fuel as [|fuel IH]; simpl; [apply keeps_raise|].
  apply keeps_bind; [apply keeps_get|]. intros s0.
  destruct (terminated (run s0) || truncated (run s0)); [apply keeps_ret|].
  apply keeps_bind; [apply keeps_rollout_body | intros _; exact IH].
Qed.

Lemma keeps_log_hypervolume hv_logger episode_nr hv :
  keeps (log_hypervolume (World := World) hv_logger episode_nr hv).
Proof.
  unfold log_hypervolume.
  destruct (DataLogger.add _ _ _) as [[u|e] l]; keeps_prim.
Qed.

Lemma logs_zero_train_episode n p fuel eval_interval max_eps_iteration
    episode_nr locals :
  logs_zero n (train_episode env_reset resample_objective_weights act env_step
                 update_weights evaluate p fuel eval_interval max_eps_iteration
                 episode_nr locals).
Proof.
  unfold train_episode. destruct locals as [steps hv_logger].
  apply logs_zero_bind; [apply keeps_logs_zero; keeps_prim | intros _].
  apply logs_zero_bind; [apply keeps_logs_zero; keeps_prim | intros raw].
  apply logs_zero_bind; [apply keeps_logs_zero; keeps_prim | intros _].
  apply logs_zero_get. intros s0 Hs0. rewrite Hs0.
  apply logs_zero_bind; [apply keeps_logs_zero; keeps_prim | intros _].
  apply logs_zero_bind;
    [apply keeps_logs_zero, keeps_rollout_loop | intros _].
  apply logs_zero_bind.
  { apply keeps_logs_zero. case_decide; [keeps_prim|].
    apply keeps_bind; [keeps_prim | intros s1].
    destruct (_ && _); keeps_steps. }
  intros steps'. apply logs_zero_bind.
  { apply keeps_logs_zero. repeat case_decide; try keeps_prim.
    destruct (bool_decide _); [|keeps_prim].
    apply keeps_bind; [|intros hv; apply keeps_log_hypervolume].
    intros s1. by destruct (evaluate _ _ _) as [r [ro w]]. }
  intros hv_logger'.
  apply logs_zero_bind; [apply keeps_logs_zero; keeps_prim | intros _].
  apply logs_zero_bind; [apply logs_zero_add | intros _].
  apply keeps_logs_zero. keeps_prim.
Qed.

Lemma logs_zero_train_loop n p fuel eval_interval max_eps_iteration
    episodes locals :
  logs_zero n (train_loop env_reset resample_objective_weights act env_step
                 update_weights evaluate p fuel eval_interval max_eps_iteration
                 episodes locals).
Proof.
  revert locals. induction episodes as [|episode_nr rest IH]; intros locals; simpl.
  - apply keeps_logs_zero. keeps_prim.
  - apply logs_zero_bind; [apply logs_zero_train_episode | intros locals'].
    apply IH.
Qed.

(** C7. Whatever the environment, the policy and the optimisation
    step do, and whether [train] returns, fails or runs out of
    fuel, every row that it appends to the reward logger is the
    episode number followed by one zero per objective. *)
Theorem train_logs_zero_rewards (p : train_params) (fuel : nat) s :
  exists new,
    DataLogger.tuple_list
      (reward_logger (train env_reset resample_objective_weights act env_step
                        update_weights evaluate train_setup prepare_logger_data p fuel s).2)
    = DataLogger.tuple_list (reward_logger s) ++ new
    /\ Forall (fun row =>
                 exists episode_nr : nat,
                   row = PyInt (Z.of_nat episode_nr)
                         :: replicate (num_objectives s) (PyFloat 0%float))
              new.
Proof.
  assert (logs_zero (num_objectives s)
            (train env_reset resample_objective_weights act env_step
               update_weights evaluate train_setup prepare_logger_data p fuel)) as Htrain.
  { unfold train.
    apply logs_zero_bind; [apply keeps_logs_zero; keeps_prim | intros _].
    apply logs_zero_bind; [apply keeps_logs_zero; keeps_prim | intros hv_logger].
    apply logs_zero_bind; [apply keeps_logs_zero; keeps_prim | intros _].
    apply logs_zero_bind; [apply keeps_logs_zero; keeps_prim | intros mi].
    apply logs_zero_bind; [apply logs_zero_train_loop | intros locals].
    apply keeps_logs_zero. unfold logger_data. destruct locals as [steps hv].
    destruct (decide (steps = 0)); keeps_steps. }
  destruct (Htrain s eq_refl) as (_ & new & Hnew & Hzero). by exists new.
Qed.

End Train.

End MOMA_DQNFacts.

(** ** MOHighwayEnv *)

Module MOHighwayEnvFacts.
Import MOHighwayEnv.
Local Open Scope Q_scope.

Lemma default_config_conventional : conventional default_config.
Proof. unfold conventional. simpl. repeat split; by vm_compute. Qed.

Lemma Qeq_bool_false (x y : Q) : ~ x == y -> Qeq_bool x y = false.
Proof.
  intros Hne. destruct (Qeq_bool x y) eqn:H; [|done].
  by apply Qeq_bool_iff in H.
Qed.

(** On a finite number and a range with a width, [lmap] is the linear
    map, whichever kind of number it is applied to. *)
Lemma lmap_finite (v : Q) (x y : Q * Q) :
  ~ x.2 - x.1 == 0 -> lmap (Fin v) x y = Fin (linear_map v x y).
Proof.
  intros Hw. unfold lmap, linear_map, np_sub, np_mul, np_div, np_radd.
  by rewrite (Qeq_bool_false _ _ Hw).
Qed.

Lemma lmap_float_finite (v : Q) (x y : Q * Q) :
  ~ x.2 - x.1 == 0 -> lmap_float v x y = Ok (linear_map v x y).
Proof. intros Hw. unfold lmap_float. by rewrite (Qeq_bool_false _ _ Hw). Qed.

(** The energy reward under normalisation, for either kind of
    number. *)
Lemma energy_lmap_finite (numpy : bool) (v : Q) (x y : Q * Q) :
  ~ x.2 - x.1 == 0 ->
  (if numpy then Ok (lmap (Fin v) x y) else Fin <$> lmap_float v x y)
  = Ok (Fin (linear_map v x y)).
Proof.
  intros Hw. destruct numpy.
  - by rewrite lmap_finite.
  - by rewrite lmap_float_finite.
Qed.

Lemma lmap_unit_bounds (v lo hi : Q) :
  lo < hi -> lo <= v <= hi -> 0 <= linear_map v (lo, hi) (0, 1) <= 1.
Proof.
  intros Hlh [Hl Hh]. unfold linear_map. simpl.
  assert (0 <= (v - lo) * (1 - 0) / (hi - lo)) as H0
    by (apply Qle_shift_div_l; lra).
  assert ((v - lo) * (1 - 0) / (hi - lo) <= 1) as H1
    by (apply Qle_shift_div_r; lra).
  remember ((v - lo) * (1 - 0) / (hi - lo)) as x. lra.
Qed.

Lemma clip_unit_bounds (x : Q) : 0 <= Qmin (Qmax x 0) 1 <= 1.
Proof.
  split.
  - apply Q.min_glb; [apply Q.le_max_r | lra].
  - apply Q.le_min_r.
Qed.

Lemma right_lane_bounds (lane side_lanes : nat) :
  (lane < side_lanes)%nat ->
  0 <= inject_Z (Z.of_nat lane)
       / inject_Z (Z.of_nat (Nat.max (side_lanes - 1) 1)) <= 1.
Proof.
  intros Hlane.
  assert (0 < inject_Z (Z.of_nat (Nat.max (side_lanes - 1) 1))) as Hd.
  { unfold Qlt. simpl. lia. }
  assert (0 <= inject_Z (Z.of_nat lane)) as Hn.
  { unfold Qle. simpl. lia. }
  assert (inject_Z (Z.of_nat lane)
          <= inject_Z (Z.of_nat (Nat.max (side_lanes - 1) 1))) as Hle.
  { rewrite <- Zle_Qle. lia. }
  split.
  - apply Qle_shift_div_l; [done | lra].
  - apply Qle_shift_div_r; [done | lra].
Qed.

(** The reward when no division by zero occurs: the speed range has a
    width and, under normalisation, so have the two reward ranges. *)
Lemma _reward_finite (compute_efficiency : vehicle -> bool -> Q) (numpy : bool)
    (cfg : config) (v : vehicle) (side_lanes : nat) :
  ~ (reward_speed_range cfg).2 - (reward_speed_range cfg).1 == 0 ->
  (normalize_reward cfg = true ->
   ~ high_speed_reward cfg + right_lane_reward cfg - collision_reward cfg == 0
   /\ ~ energy_consumption_reward cfg + right_lane_reward cfg
        - collision_reward cfg == 0) ->
  let collision := collision_reward cfg * (if crashed v then 1 else 0) in
  let right_lane :=
    right_lane_reward cfg
    * (inject_Z (Z.of_nat (lane_of v))
       / inject_Z (Z.of_nat (Nat.max (side_lanes - 1) 1))) in
  let high_speed :=
    Qmin (Qmax (linear_map (speed v * cos_heading v) (reward_speed_range cfg) (0, 1))
               0) 1
    * high_speed_reward cfg in
  let energy :=
    energy_consumption_reward cfg * compute_efficiency v (normalize_reward cfg) in
  _reward compute_efficiency numpy cfg v side_lanes
  = if negb (Qeq_bool collision 0) then Ok [Fin 0; Fin 0]
    else Ok [Fin (if normalize_reward cfg then
                    linear_map (high_speed + right_lane + collision)
                      (collision_reward cfg,
                       high_speed_reward cfg + right_lane_reward cfg) (0, 1)
                  else high_speed + right_lane + collision);
             Fin (if normalize_reward cfg then
                    linear_map (energy + right_lane + collision)
                      (collision_reward cfg,
                       energy_consumption_reward cfg + right_lane_reward cfg) (0, 1)
                  else energy + right_lane + collision)].
Proof.
  intros Hrange Hnorm. unfold _reward, _rewards.
  cbn [collision_term right_lane_term high_speed_term energy_consumption_term].
  rewrite (lmap_finite _ _ _ Hrange). cbn [clip np_mul np_add].
  destruct (normalize_reward cfg).
  - destruct Hnorm as [Hs He]; [done|].
    rewrite lmap_finite by exact Hs.
    rewrite energy_lmap_finite by exact He. done.
  - done.
Qed.

(** C1 as stated fails: it depends on the sign of the collision
    coefficient.  With [collision_reward = 0] a crashed vehicle keeps
    the reward 17/36 in both components (the reward is zeroed on the
    weighted collision term); with [collision_reward = 1] a vehicle
    that has not crashed gets -13/6 in both. *)
Theorem reward_bounds_need_penalty :
  normalize_reward Examples.no_penalty = true
  /\ normalize_reward Examples.collision_bonus = true
  /\ crashed (Examples.ego true) = true
  /\ crashed (Examples.ego false) = false
  /\ (forall numpy_efficiency, exists s e,
        _reward Examples.efficiency numpy_efficiency Examples.no_penalty
          (Examples.ego true) 4 = Ok [Fin s; Fin e]
        /\ s == 17 # 36 /\ e == 17 # 36)
  /\ (forall numpy_efficiency, exists s e,
        _reward Examples.efficiency numpy_efficiency Examples.collision_bonus
          (Examples.ego false) 4 = Ok [Fin s; Fin e]
        /\ s == -13 # 6 /\ e == -13 # 6).
Proof.
  repeat (split; [done|]).
  split; intros []; eexists _, _; (split; [reflexivity|]); split; reflexivity.
Qed.

(** C1, amended.  With [normalize_reward] set, reward coefficients of
    the conventional signs (a negative collision coefficient, the
    others not negative, as in the default configuration), a speed
    range with a width, the lane among the side lanes and the energy
    term in [0, 1]: both components of [_reward] lie in [0, 1] when
    the ego vehicle has not crashed, and both are exactly 0 when it
    has. *)
Theorem reward_components_bounded (compute_efficiency : vehicle -> bool -> Q)
    (numpy_efficiency : bool) (cfg : config) (v : vehicle) (side_lanes : nat) :
  normalize_reward cfg = true ->
  conventional cfg ->
  (lane_of v < side_lanes)%nat ->
  0 <= compute_efficiency v true <= 1 ->
  (crashed v = false ->
   exists speed_reward energy_reward,
     _reward compute_efficiency numpy_efficiency cfg v side_lanes
     = Ok [Fin speed_reward; Fin energy_reward]
     /\ 0 <= speed_reward <= 1 /\ 0 <= energy_reward <= 1)
  /\ (crashed v = true ->
      _reward compute_efficiency numpy_efficiency cfg v side_lanes
      = Ok [Fin 0; Fin 0]).
Proof.
  intros Hnorm (Hcol & Hrl & Hhs & Hen & Hrange) Hlane Heff.
  pose proof (right_lane_bounds _ _ Hlane) as Hlt.
  pose proof (clip_unit_bounds
                (linear_map (speed v * cos_heading v) (reward_speed_range cfg) (0, 1)))
    as Hsp.
  rewrite _reward_finite; [|lra|intros _; split; lra].
  rewrite Hnorm.
  set (rl := inject_Z (Z.of_nat (lane_of v))
             / inject_Z (Z.of_nat (Nat.max (side_lanes - 1) 1))) in *.
  set (hs := Qmin (Qmax (linear_map (speed v * cos_heading v)
                           (reward_speed_range cfg) (0, 1)) 0) 1) in *.
  set (en := compute_efficiency v true) in *.
  split; intros Hcrash; rewrite Hcrash.
  - rewrite (proj2 (Qeq_bool_iff (collision_reward cfg * 0) 0)) by lra.
    cbn [negb]. eexists _, _. split; [reflexivity|].
    split; apply lmap_unit_bounds; try lra; split; nra.
  - rewrite Qeq_bool_false by lra. done.
Qed.

Lemma reward_components_bounded_witness :
  (exists speed_reward energy_reward,
     _reward Examples.efficiency true default_config (Examples.ego false) 4
     = Ok [Fin speed_reward; Fin energy_reward]
     /\ 0 <= speed_reward <= 1 /\ 0 <= energy_reward <= 1)
  /\ _reward Examples.efficiency true default_config (Examples.ego true) 4
     = Ok [Fin 0; Fin 0].
Proof.
  split.
  - apply (reward_components_bounded Examples.efficiency true default_config
             (Examples.ego false) 4).
    + reflexivity.
    + apply default_config_conventional.
    + cbv. lia.
    + unfold Examples.efficiency. split; by vm_compute.
    + reflexivity.
  - apply (reward_components_bounded Examples.efficiency true default_config
             (Examples.ego true) 4).
    + reflexivity.
    + apply default_config_conventional.
    + cbv. lia.
    + unfold Examples.efficiency. split; by vm_compute.
    + reflexivity.
Defined.

End MOHighwayEnvFacts.

(** * Further properties *)

(** ** ReplayBuffer: push *)

Module ReplayBufferPush.
Import ReplayBuffer.

(** What one successful write does to a well-formed buffer. *)
Lemma store_effect rb rb' elem :
  wf rb -> store rb elem = Ok rb' ->
  exists row,
    length row = width rb
    /\ (length elem = width rb -> row = float32 <$> elem)
    /\ rb' = stored rb row.
Proof.
  intros [Hs Hr Hw Hi Hc]. unfold store, write_row.
  destruct (buffer rb !! running_index rb) as [old|] eqn:Hold; [|done].
  assert (length old = width rb) as Hlo by exact (Forall_lookup_1 _ _ _ _ Hw Hold).
  assert (forall row,
            increment_indices (with_buffer rb (<[running_index rb := row]> (buffer rb)))
            = Ok rb' -> rb' = stored rb row) as Hstep.
  { intros row. unfold increment_indices. simpl.
    case_decide; [lia|]. intros [= <-]. unfold stored. do 2 f_equal.
    case_decide; lia. }
  case_decide as Hlen.
  - simpl. intros Hinc. exists (float32 <$> elem).
    split; [rewrite length_fmap; congruence|]. split; [done|].
    by apply Hstep.
  - destruct elem as [|x [|]]; try done. simpl. intros Hinc.
    exists (replicate (length old) (float32 x)).
    split; [by rewrite length_replicate|].
    split; [simpl in *; intros; lia|]. by apply Hstep.
Qed.

(** X1. A successful single-sample push on a well-formed buffer
    keeps it well formed, keeps capacity, layout and flags, advances
    the running index by one modulo the capacity, raises the element
    count by one up to the capacity, and changes no row other than the
    one at the old running index. *)
Theorem push_changes_one_row (rb rb' : t) (tr : transition) :
  wf rb ->
  push rb tr = Ok rb' ->
  wf rb'
  /\ size rb' = size rb
  /\ observation_space_size rb' = observation_space_size rb
  /\ num_objectives rb' = num_objectives rb
  /\ importance_sampling rb' = importance_sampling rb
  /\ prioritise_crashes rb' = prioritise_crashes rb
  /\ running_index rb' = (running_index rb + 1) mod size rb
  /\ num_elements rb' = Nat.min (num_elements rb + 1) (size rb)
  /\ forall j, j <> running_index rb -> buffer rb' !! j = buffer rb !! j.
Proof.
  intros Hwf Hpush. unfold push in Hpush.
  destruct (stored_row rb tr) as [elem|] eqn:Helem; [|done]. simpl in Hpush.
  destruct (store_effect rb rb' elem Hwf Hpush) as (row & Hlen & _ & ->).
  split; [by apply ReplayBufferFacts.stored_wf|].
  repeat split; try done.
  intros j Hj. simpl. by apply list_lookup_insert_ne.
Qed.

Lemma push_changes_one_row_witness :
  wf Examples.pushed
  /\ size Examples.pushed = 2
  /\ observation_space_size Examples.pushed = 1
  /\ num_objectives Examples.pushed = 1
  /\ importance_sampling Examples.pushed = false
  /\ prioritise_crashes Examples.pushed = false
  /\ running_index Examples.pushed = (0 + 1) mod 2
  /\ num_elements Examples.pushed = Nat.min (0 + 1) 2
  /\ forall j, j <> 0 -> buffer Examples.pushed !! j = buffer Examples.fresh !! j.
Proof.
  apply (push_changes_one_row Examples.fresh Examples.pushed
           (Examples.transition 0 false (Some [Num 5]))).
  - apply ReplayBufferFacts.init_wf. lia.
  - reflexivity.
Defined.

(** X2. On a well-formed buffer a single-sample push fails in exactly
    two ways: with an assertion error when importance sampling is on
    and no id is given, and with a runtime error when the concatenated
    row has neither the width of the buffer nor a single entry; a row
    of the right width is stored as it is, entry by entry as float32
    numbers, a single entry is broadcast over the row. *)
Theorem push_outcomes (rb : t) (tr : transition) :
  wf rb ->
  (push rb tr = Err AssertionError
   <-> importance_sampling rb = true /\ t_id tr = None)
  /\ (forall row, stored_row rb tr = Ok row ->
      (length row = width rb -> push rb tr = Ok (stored rb (float32 <$> row)))
      /\ (length row <> width rb -> forall x, row = [x] ->
          push rb tr = Ok (stored rb (replicate (width rb) (float32 x))))
      /\ (length row <> width rb -> length row <> 1 ->
          push rb tr = Err RuntimeError)).
Proof.
  intros Hwf. pose proof Hwf as [Hs Hr Hw Hi Hc].
  assert (exists old, buffer rb !! running_index rb = Some old
                      /\ length old = width rb) as (old & Hold & Hlo).
  { destruct (lookup_lt_is_Some_2 (buffer rb) (running_index rb)) as [old Hold];
      [lia|].
    exists old. split; [done|]. exact (Forall_lookup_1 _ _ _ _ Hw Hold). }
  assert (forall row, length row = width rb ->
            store rb row = Ok (stored rb (float32 <$> row)))
    as Hfit by (intros; by apply ReplayBufferFacts.store_fits).
  split.
  - unfold push, stored_row, effective_id. split.
    + destruct (importance_sampling rb), (t_id tr) as [id|]; simpl; try done.
      * intros Herr. exfalso. revert Herr. unfold store, write_row.
        rewrite Hold. case_decide.
        -- simpl. unfold increment_indices. by case_decide.
        -- destruct (concat_row _ _ _ _ _ _) as [|? [|]]; try done.
           simpl. unfold increment_indices. by case_decide.
      * intros Herr. exfalso. revert Herr. unfold store, write_row.
        rewrite Hold. case_decide.
        -- simpl. unfold increment_indices. by case_decide.
        -- destruct (concat_row _ _ _ _ _ _) as [|? [|]]; try done.
           simpl. unfold increment_indices. by case_decide.
      * intros Herr. exfalso. revert Herr. unfold store, write_row.
        rewrite Hold. case_decide.
        -- simpl. unfold increment_indices. by case_decide.
        -- destruct (concat_row _ _ _ _ _ _) as [|? [|]]; try done.
           simpl. unfold increment_indices. by case_decide.
    + intros [-> ->]. done.
  - intros row Hrow. unfold push. rewrite Hrow. simpl. split; [|split].
    + apply Hfit.
    + intros Hne x ->. unfold store, write_row. rewrite Hold.
      rewrite decide_False by (simpl in *; lia). simpl.
      rewrite Hlo. unfold increment_indices. simpl.
      rewrite decide_False by lia. unfold stored. do 2 f_equal.
      case_decide; lia.
    + intros Hne Hne1. unfold store, write_row. rewrite Hold.
      rewrite decide_False by lia.
      destruct row as [|? [|]]; simpl in *; done.
Qed.

Lemma push_outcomes_witness :
  (push (init 2 1 1 true false) (Examples.transition 0 false None)
   = Err AssertionError
   <-> importance_sampling (init 2 1 1 true false) = true
       /\ t_id (Examples.transition 0 false None) = None)
  /\ (forall row,
        stored_row (init 2 1 1 true false) (Examples.transition 0 false None)
        = Ok row ->
        (length row = width (init 2 1 1 true false) ->
         push (init 2 1 1 true false) (Examples.transition 0 false None)
         = Ok (stored (init 2 1 1 true false) (float32 <$> row)))
        /\ (length row <> width (init 2 1 1 true false) -> forall x, row = [x] ->
            push (init 2 1 1 true false) (Examples.transition 0 false None)
            = Ok (stored (init 2 1 1 true false)
                    (replicate (width (init 2 1 1 true false)) (float32 x))))
        /\ (length row <> width (init 2 1 1 true false) -> length row <> 1 ->
            push (init 2 1 1 true false) (Examples.transition 0 false None)
            = Err RuntimeError)).
Proof.
  apply (push_outcomes (init 2 1 1 true false) (Examples.transition 0 false None)).
  apply ReplayBufferFacts.init_wf. lia.
Defined.

(** The rows [f a], ..., [f (a + k - 1)] written one after the other. *)
Lemma push_rows_seq (f : nat -> result tensor) (k : nat) : forall rb a,
  wf rb ->
  (forall i, a <= i < a + k -> exists row, f i = Ok row /\ length row = width rb) ->
  exists rb',
    push_rows rb (seq a k) f = Ok rb'
    /\ wf rb'
    /\ size rb' = size rb
    /\ observation_space_size rb' = observation_space_size rb
    /\ num_objectives rb' = num_objectives rb
    /\ importance_sampling rb' = importance_sampling rb
    /\ prioritise_crashes rb' = prioritise_crashes rb
    /\ running_index rb' = (running_index rb + k) mod size rb
    /\ num_elements rb' = Nat.min (num_elements rb + k) (size rb)
    /\ (forall i row, i < k -> k <= i + size rb -> f (a + i) = Ok row ->
        buffer rb' !! ((running_index rb + i) mod size rb) = Some (float32 <$> row))
    /\ (forall j, (forall i, i < k -> j <> (running_index rb + i) mod size rb) ->
        buffer rb' !! j = buffer rb !! j).
Proof.
  induction k as [|k IH]; intros rb a Hwf Hrows.
  - exists rb. pose proof Hwf as [Hs Hr Hw Hi Hc]. simpl.
    repeat split; try done.
    + rewrite Nat.add_0_r. symmetry. by apply Nat.mod_small.
    + lia.
    + intros; lia.
  - pose proof Hwf as [Hs Hr Hw Hi Hc].
    destruct (Hrows a) as (row & Hf & Hlen); [lia|].
    destruct (IH (stored rb (float32 <$> row)) (S a)) as
      (rb' & Hpush & Hwf' & Hsz & Hobs & Hobj & Himp & Hprio & Hix & Hct
       & Hslot & Hframe).
    { apply ReplayBufferFacts.stored_wf; [done|]. by rewrite length_fmap. }
    { intros i Hi'. apply Hrows. lia. }
    simpl in Hsz, Hobs, Hobj, Himp, Hprio, Hix, Hct, Hslot, Hframe.
    exists rb'. split.
    { simpl. rewrite Hf. simpl.
      rewrite ReplayBufferFacts.store_fits by done. simpl. exact Hpush. }
    split; [done|]. repeat split; try done.
    + rewrite Hix, Nat.Div0.add_mod_idemp_l. f_equal. lia.
    + rewrite Hct. lia.
    + intros i row' Hik Hle Hfi. destruct i as [|i].
      * rewrite Nat.add_0_r in Hfi. rewrite Hf in Hfi. injection Hfi as <-.
        rewrite Nat.add_0_r, Nat.mod_small by done.
        rewrite Hframe.
        -- apply list_lookup_insert_eq. lia.
        -- intros i Hi'. rewrite Nat.Div0.add_mod_idemp_l.
           rewrite <- (Nat.mod_small (running_index rb) (size rb)) at 1 by done.
           apply ReplayBufferFacts.slots_differ; lia.
      * replace ((running_index rb + S i) mod size rb)
          with (((running_index rb + 1) mod size rb + i) mod size rb)
          by (rewrite Nat.Div0.add_mod_idemp_l; f_equal; lia).
        apply Hslot.
        -- lia.
        -- lia.
        -- rewrite <- Hfi. f_equal. lia.
    + intros j Hj. rewrite Hframe.
      * apply list_lookup_insert_ne.
        specialize (Hj 0). rewrite Nat.add_0_r, Nat.mod_small in Hj by done.
        intros Heq. apply Hj; [lia | done].
      * intros i Hi'. rewrite Nat.Div0.add_mod_idemp_l.
        replace (running_index rb + 1 + i) with (running_index rb + S i) by lia.
        apply Hj. lia.
Qed.

(** X3. A multi-sample push of [n >= 2] well-shaped samples into a
    well-formed buffer succeeds: it advances the running index by [n]
    modulo the capacity, raises the element count by [n] up to the
    capacity, leaves sample [i] (unless a later sample of the same
    call overwrote it) at slot [(running_index + i) mod size], its
    entries as float32 numbers, all rows carrying the one shared id,
    and leaves every other slot as it was. *)
Theorem push_multi_stores_every_sample (rb : t) (obs : list tensor)
    (action : list tval) (next_obs reward : list tensor)
    (terminated : list bool) (id : option tval) (n : nat) :
  wf rb ->
  2 <= n ->
  (importance_sampling rb = true -> id <> None) ->
  n <= length obs -> n <= length action -> n <= length next_obs ->
  n <= length reward -> n <= length terminated ->
  Forall (fun o => length o = observation_space_size rb) obs ->
  Forall (fun o => length o = observation_space_size rb) next_obs ->
  Forall (fun r => length r = num_objectives rb) reward ->
  exists rb',
    push_multi rb obs action next_obs reward terminated id n = Ok rb'
    /\ wf rb'
    /\ running_index rb' = (running_index rb + n) mod size rb
    /\ num_elements rb' = Nat.min (num_elements rb + n) (size rb)
    /\ (forall i, i < n -> n <= i + size rb ->
        exists o a nx r d,
          obs !! i = Some o /\ action !! i = Some a /\ next_obs !! i = Some nx
          /\ reward !! i = Some r /\ terminated !! i = Some d
          /\ buffer rb' !! ((running_index rb + i) mod size rb)
             = Some (float32 <$> concat_row o [a] nx r [of_bool d] [shared_id rb id]))
    /\ (forall j, (forall i, i < n -> j <> (running_index rb + i) mod size rb) ->
        buffer rb' !! j = buffer rb !! j).
Proof.
  intros Hwf Hn Hid Hlo Hla Hln Hlr Hlt Hobs Hnext Hrew.
  assert (forall i, i < n ->
            exists o a nx r d,
              obs !! i = Some o /\ action !! i = Some a /\ next_obs !! i = Some nx
              /\ reward !! i = Some r /\ terminated !! i = Some d
              /\ multi_row obs action next_obs reward terminated (shared_id rb id) i
                 = Ok (concat_row o [a] nx r [of_bool d] [shared_id rb id])
              /\ length (concat_row o [a] nx r [of_bool d] [shared_id rb id])
                 = width rb) as Hrow.
  { intros i Hi.
    destruct (lookup_lt_is_Some_2 obs i) as [o Ho]; [lia|].
    destruct (lookup_lt_is_Some_2 action i) as [a Ha]; [lia|].
    destruct (lookup_lt_is_Some_2 next_obs i) as [nx Hnx]; [lia|].
    destruct (lookup_lt_is_Some_2 reward i) as [r Hr]; [lia|].
    destruct (lookup_lt_is_Some_2 terminated i) as [d Hd]; [lia|].
    exists o, a, nx, r, d. repeat split; try done.
    - unfold multi_row. by rewrite Ho, Ha, Hnx, Hr, Hd.
    - pose proof (Forall_lookup_1 _ _ _ _ Hobs Ho) as H1.
      pose proof (Forall_lookup_1 _ _ _ _ Hnext Hnx) as H2.
      pose proof (Forall_lookup_1 _ _ _ _ Hrew Hr) as H3.
      simpl in H1, H2, H3.
      unfold concat_row, width, row_width. rewrite !length_app. simpl. lia. }
  destruct (push_rows_seq
              (multi_row obs action next_obs reward terminated (shared_id rb id))
              n rb 0 Hwf) as
    (rb' & Hpush & Hwf' & _ & _ & _ & _ & _ & Hix & Hct & Hslot & Hframe).
  { intros i Hi. destruct (Hrow i) as (o & a & nx & r & d & _ & _ & _ & _ & _ & Hm & Hl);
      [lia|]. eauto. }
  exists rb'. split.
  { unfold push_multi. rewrite decide_False by lia.
    assert ((if importance_sampling rb then of_option AssertionError id
             else Ok tzero) = Ok (shared_id rb id)) as ->.
    { unfold shared_id. destruct (importance_sampling rb); [|done].
      destruct id; [done|]. by destruct Hid. }
    simpl. rewrite decide_False by lia. exact Hpush. }
  split; [done|]. split; [done|]. split; [done|]. split; [|done].
  intros i Hi Hle.
  destruct (Hrow i Hi) as (o & a & nx & r & d & Ho & Ha & Hnx & Hr & Hd & Hm & _).
  exists o, a, nx, r, d. repeat split; try done.
  by apply Hslot.
Qed.

Lemma push_multi_stores_every_sample_witness :
  exists rb',
    push_multi (init 3 1 1 true false) [[Num 1]; [Num 2]] [Num 0; Num 1]
               [[Num 2]; [Num 3]] [[Num 1]; [Num 1]] [false; true]
               (Some (Num 4)) 2 = Ok rb'
    /\ running_index rb' = 2
    /\ num_elements rb' = 2
    /\ buffer rb' !! 1
       = Some [Num 2; Num 1; Num 3; Num 1; Num 1; Num 4].
Proof.
  destruct (push_multi_stores_every_sample (init 3 1 1 true false)
              [[Num 1]; [Num 2]] [Num 0; Num 1] [[Num 2]; [Num 3]]
              [[Num 1]; [Num 1]] [false; true] (Some (Num 4)) 2)
    as (rb' & Hpush & _ & Hix & Hct & Hslot & _).
  - apply ReplayBufferFacts.init_wf. lia.
  - lia.
  - done.
  - simpl; lia.
  - simpl; lia.
  - simpl; lia.
  - simpl; lia.
  - simpl; lia.
  - repeat constructor.
  - repeat constructor.
  - repeat constructor.
  - exists rb'. split; [exact Hpush|]. split; [exact Hix|]. split; [exact Hct|].
    destruct (Hslot 1) as (o & a & nx & r & d & Ho & Ha & Hnx & Hr & Hd & Hb);
      [lia | simpl; lia |].
    simpl in Ho, Ha, Hnx, Hr, Hd.
    injection Ho as <-. injection Ha as <-. injection Hnx as <-.
    injection Hr as <-. injection Hd as <-. exact Hb.
Defined.

(** X26. A buffer of capacity 0 stores nothing: whatever the
    transition, a push into it raises, with an assertion error when
    importance sampling is on and no id is given, and with an index
    error (there is no row 0) otherwise; and sampling from it raises
    as for any empty buffer. *)
Theorem zero_capacity_buffer_rejects_push (L O : nat) (imp prio : bool)
    (tr : transition) :
  push (init 0 L O imp prio) tr
  = Err (if imp && bool_decide (t_id tr = None) then AssertionError
         else IndexError)
  /\ forall rng sample_size,
       sample (init 0 L O imp prio) rng sample_size
       = (Err (if imp then RuntimeError else IndexError), rng).
Proof.
  split.
  - unfold push, stored_row, effective_id. simpl.
    destruct imp; simpl; [|done].
    by destruct (t_id tr) as [id|].
  - intros rng sample_size. unfold sample, sample_probs.
    unfold compute_importance_sampling_probs, occupied. simpl.
    destruct imp; simpl; [done|]. by destruct prio.
Qed.

(** Every row-by-row write that returns has advanced the counters by
    the number of rows. *)
Lemma push_rows_counters (f : nat -> result tensor) (rows : list nat) :
  forall rb rb',
    wf rb -> push_rows rb rows f = Ok rb' ->
    wf rb'
    /\ size rb' = size rb
    /\ running_index rb' = (running_index rb + length rows) mod size rb
    /\ num_elements rb' = Nat.min (num_elements rb + length rows) (size rb).
Proof.
  induction rows as [|i rows IH]; intros rb rb' Hwf Hpush.
  - simpl in Hpush. injection Hpush as <-. pose proof Hwf as [Hs Hr Hw Hi Hc].
    simpl. rewrite Nat.add_0_r, Nat.mod_small by done. repeat split; try done. lia.
  - simpl in Hpush. apply bind_ok in Hpush as (elem & Helem & Hpush).
    apply bind_ok in Hpush as (rb1 & Hstore & Hpush).
    destruct (store_effect rb rb1 elem Hwf Hstore) as (row & Hlen & _ & ->).
    apply IH in Hpush as (Hwf' & Hsz & Hix & Hct);
      [|by apply ReplayBufferFacts.stored_wf].
    simpl in Hsz, Hix, Hct. split; [done|]. split; [done|]. split.
    + rewrite Hix, Nat.Div0.add_mod_idemp_l. simpl. f_equal. lia.
    + rewrite Hct. simpl. lia.
Qed.

Lemma push_multi_inv rb obs action next_obs reward terminated id n rb' :
  push_multi rb obs action next_obs reward terminated id n = Ok rb' ->
  2 <= n
  /\ exists id', push_rows rb (seq 0 n)
                   (multi_row obs action next_obs reward terminated id') = Ok rb'.
Proof.
  unfold push_multi. case_decide as H0; [done|]. intros H.
  apply bind_ok in H as (id' & _ & H). case_decide as H1; [done|].
  split; [lia|]. by exists id'.
Qed.

End ReplayBufferPush.

(** ** ReplayBuffer: sampling and the accessors *)

Module ReplayBufferSampling.
Import ReplayBuffer.

Lemma mapM_result_total {A B} (f : A -> result B) (xs : list A) :
  Forall (fun x => exists y, f x = Ok y) xs ->
  exists ys, mapM_result f xs = Ok ys /\ length ys = length xs.
Proof.
  induction 1 as [|x xs [y Hy] _ (ys & Hys & Hlen)]; simpl.
  - by exists [].
  - exists (y :: ys). rewrite Hy, Hys. simpl. split; [done | by rewrite Hlen].
Qed.

Lemma repeat_interleave_cons {A} (k : nat) (x : A) (xs : list A) :
  repeat_interleave k (x :: xs) = replicate k x ++ repeat_interleave k xs.
Proof. reflexivity. Qed.

Lemma repeat_interleave_length {A} (k : nat) (xs : list A) :
  length (repeat_interleave k xs) = length xs * k.
Proof.
  induction xs as [|x xs IH]; [done|].
  rewrite repeat_interleave_cons, length_app, length_replicate, IH. simpl. lia.
Qed.

Lemma groups_repeat_interleave {A} (k : nat) (xs : list A) :
  groups k (length xs) (repeat_interleave k xs) = replicate k <$> xs.
Proof.
  induction xs as [|x xs IH]; [done|].
  rewrite repeat_interleave_cons. simpl. f_equal.
  - apply take_app_length'. by rewrite length_replicate.
  - rewrite drop_app_length' by (by rewrite length_replicate). exact IH.
Qed.

Lemma reshape_repeat_interleave {A} (k : nat) (xs : list A) :
  0 < k ->
  reshape_groups k (repeat_interleave k xs)
  = Ok ((fun x => replicate k [x]) <$> xs).
Proof.
  intros Hk. unfold reshape_groups. rewrite decide_False by lia.
  rewrite repeat_interleave_length.
  rewrite decide_True by (apply Nat.Div0.mod_mul).
  rewrite Nat.div_mul by lia. rewrite groups_repeat_interleave.
  f_equal. rewrite <- list_fmap_compose. apply list_fmap_ext.
  intros _ x _. simpl. by rewrite fmap_replicate.
Qed.

(** The action column of a batch whose rows are long enough. *)
Lemma get_actions_column cast rb (samples : list tensor) :
  0 < num_objectives rb ->
  Forall (fun row => observation_space_size rb < length row) samples ->
  get_actions cast rb samples
  = Ok ((fun row =>
           replicate (num_objectives rb)
             [to_int64 cast (default NaN (row !! observation_space_size rb))])
        <$> samples).
Proof.
  intros HO Hrows. unfold get_actions.
  rewrite (mapM_result_ok _
             (fun row => default NaN (row !! observation_space_size rb))).
  - simpl. rewrite reshape_repeat_interleave by done.
    f_equal. by rewrite <- !list_fmap_compose.
  - eapply Forall_impl; [exact Hrows|]. intros row Hlt. simpl in *.
    destruct (lookup_lt_is_Some_2 row (observation_space_size rb) Hlt) as [x ->].
    done.
Qed.

(** X4. Sampling from a buffer that holds no element raises, before
    the generator is consulted: a runtime error (the minimum of an
    empty tensor) with importance sampling, an index error (the last
    entry of an empty cumulative sum) without. *)
Theorem sample_empty_buffer (rb : t) (rng : Generator.t) (sample_size : Q) :
  num_elements rb = 0 ->
  sample rb rng sample_size
  = (Err (if importance_sampling rb then RuntimeError else IndexError), rng).
Proof.
  intros Hn. unfold sample, sample_probs, compute_importance_sampling_probs, occupied.
  rewrite Hn. simpl.
  destruct (importance_sampling rb); simpl; [done|].
  by destruct (prioritise_crashes rb).
Qed.

Lemma sample_empty_buffer_witness :
  sample Examples.fresh Examples.rng 1 = (Err IndexError, Examples.rng).
Proof. apply (sample_empty_buffer Examples.fresh Examples.rng 1). reflexivity. Defined.

(** X5. With importance sampling, of two stored samples the one with
    the larger id (the more recent episode) is strictly more likely to
    be drawn, unless crash priority favours the other one: the
    probability vector handed to the generator is strictly monotone
    in the id among rows of equal terminal flag. *)
Theorem recent_samples_more_likely (rb : t) (i j : nat) (row_i row_j : tensor) :
  wf rb ->
  importance_sampling rb = true ->
  finite_ids rb ->
  occupied rb !! i = Some row_i ->
  occupied rb !! j = Some row_j ->
  (id_of row_i < id_of row_j)%Q ->
  (prioritise_crashes rb = true -> is_terminal row_i = true ->
   is_terminal row_j = true) ->
  exists probs p_i p_j,
    sample_probs rb = Ok probs
    /\ probs !! i = Some (Num p_i)
    /\ probs !! j = Some (Num p_j)
    /\ (p_i < p_j)%Q.
Proof.
  intros Hwf Himp Hfin Hi Hj Hlt Hterm.
  assert (1 <= num_elements rb) as Hn.
  { rewrite <- ReplayBufferFacts.occupied_length by done.
    apply lookup_lt_Some in Hi. lia. }
  exists ((fun row => Num (raw_weight rb row / raw_total rb)) <$> occupied rb),
    (raw_weight rb row_i / raw_total rb)%Q, (raw_weight rb row_j / raw_total rb)%Q.
  split; [apply ReplayBufferFacts.sample_probs_raw; auto|].
  split; [by rewrite list_lookup_fmap, Hi|].
  split; [by rewrite list_lookup_fmap, Hj|].
  pose proof (ReplayBufferFacts.raw_total_pos rb Hwf Hn) as HT.
  pose proof (ReplayBufferFacts.min_id_le rb row_i
                (list_elem_of_lookup_2 _ _ _ Hi)) as Hmin.
  unfold Qdiv. apply Qmult_lt_compat_r; [by apply Qinv_lt_0_compat|].
  unfold raw_weight. rewrite Himp.
  destruct (prioritise_crashes rb); simpl.
  - destruct (is_terminal row_i) eqn:Hti.
    + rewrite Hterm by done. lra.
    + destruct (is_terminal row_j); lra.
  - lra.
Qed.

Lemma recent_samples_more_likely_witness :
  exists probs p_i p_j,
    sample_probs Examples.recent = Ok probs
    /\ probs !! 0 = Some (Num p_i)
    /\ probs !! 1 = Some (Num p_j)
    /\ (p_i < p_j)%Q.
Proof.
  apply (recent_samples_more_likely Examples.recent 0 1
           [Num 0; Num 0; Num 0; Num 1; Num 0; Num 5]
           [Num 0; Num 0; Num 0; Num 1; Num 1; Num 7]).
  - by constructor; simpl; try lia; repeat constructor.
  - reflexivity.
  - repeat constructor; eexists; reflexivity.
  - reflexivity.
  - reflexivity.
  - reflexivity.
  - reflexivity.
Defined.

Lemma to_int64_integer cast (a : Z) :
  (- 2 ^ 63 <= a < 2 ^ 63)%Z -> to_int64 cast (Num (inject_Z a)) = a.
Proof.
  intros Ha. unfold to_int64. simpl. rewrite Z.quot_1_r.
  by rewrite bool_decide_eq_true_2.
Qed.

(** X6. [get_actions] reads back the actions that were written: for
    a batch of rows that hold an observation of the buffer's length
    followed by an integer action (within the 64-bit range), it
    returns per row the action, once for every objective, each in a
    cell of its own.  With zero objectives the reshape fails. *)
Theorem get_actions_roundtrip (cast : tval -> Z) (rb : t)
    (items : list (tensor * Z * tensor)) :
  Forall (fun it => length it.1.1 = observation_space_size rb
                    /\ (- 2 ^ 63 <= it.1.2 < 2 ^ 63)%Z) items ->
  let samples := (fun it => it.1.1 ++ Num (inject_Z it.1.2) :: it.2) <$> items in
  (0 < num_objectives rb ->
   get_actions cast rb samples
   = Ok ((fun it => replicate (num_objectives rb) [it.1.2]) <$> items))
  /\ (num_objectives rb = 0 -> get_actions cast rb samples = Err RuntimeError).
Proof.
  intros Hitems samples.
  assert (mapM_result
            (fun row => of_option IndexError (row !! observation_space_size rb))
            samples
          = Ok ((fun it => Num (inject_Z it.1.2)) <$> items)) as Hcol.
  { unfold samples.
    rewrite (mapM_result_ok _
               (fun row => default NaN (row !! observation_space_size rb))).
    - f_equal. rewrite <- list_fmap_compose. apply list_fmap_ext.
      intros k it Hk. simpl.
      destruct (Forall_lookup_1 _ _ _ _ Hitems Hk) as [Hlen _].
      by rewrite lookup_app_r, Hlen, Nat.sub_diag by lia.
    - apply Forall_fmap, Forall_forall. intros it Hin. simpl.
      destruct (proj1 (Forall_forall _ _) Hitems it Hin) as [Hlen _].
      by rewrite lookup_app_r, Hlen, Nat.sub_diag by lia. }
  split.
  - intros HO. unfold get_actions. rewrite Hcol. simpl.
    rewrite reshape_repeat_interleave by done. f_equal.
    rewrite <- !list_fmap_compose. apply list_fmap_ext.
    intros k it Hk. cbn [compose].
    destruct (Forall_lookup_1 _ _ _ _ Hitems Hk) as [_ Hrange].
    by rewrite to_int64_integer.
  - intros HO. unfold get_actions. rewrite Hcol. simpl.
    unfold reshape_groups. by rewrite decide_True.
Qed.

Lemma get_actions_roundtrip_witness :
  get_actions (fun _ => 0%Z) Examples.recent
    [[Num 7; Num 3; Num 8; Num 1; Num 0; Num 5];
     [Num 8; Num 4; Num 9; Num 1; Num 1; Num 5]]
  = Ok [[[3%Z]]; [[4%Z]]].
Proof.
  apply (get_actions_roundtrip (fun _ => 0%Z) Examples.recent
           [([Num 7], 3%Z, [Num 8; Num 1; Num 0; Num 5]);
            ([Num 8], 4%Z, [Num 9; Num 1; Num 1; Num 5])]).
  - repeat constructor; simpl; lia.
  - simpl. lia.
Defined.

(** A successful draw from a buffer that holds an element. *)
Lemma sample_rows rb rng sample_size :
  wf rb -> 1 <= num_elements rb ->
  (importance_sampling rb = true -> finite_ids rb) ->
  Generator.well_formed rng ->
  exists rows,
    sample rb rng sample_size
    = (Ok rows,
       {| Generator.uniform := Generator.uniform rng;
          Generator.position :=
            Generator.position rng + Z.to_nat (sample_count sample_size) |})
    /\ length rows = Z.to_nat (sample_count sample_size)
    /\ Forall (fun row => row ∈ occupied rb) rows.
Proof.
  intros Hwf Hn Hfin Hrng.
  pose proof (ReplayBufferFacts.sample_probs_raw rb Hwf Hn Hfin) as Hprobs.
  pose proof (ReplayBufferFacts.occupied_length rb Hwf) as Hlen.
  set (qs := (fun row => raw_weight rb row / raw_total rb)%Q <$> occupied rb).
  assert ((fun row => Num (raw_weight rb row / raw_total rb)) <$> occupied rb
          = Num <$> qs) as Hqs.
  { unfold qs. by rewrite <- list_fmap_compose. }
  rewrite Hqs in Hprobs.
  set (count := Z.to_nat (sample_count sample_size)).
  set (indices := Generator.searchsorted_right (Generator.normalised_cdf qs)
                    <$> (Generator.uniform rng <$> seq (Generator.position rng) count)).
  assert (Forall (fun i => i < num_elements rb) indices) as Hidx.
  { apply Forall_forall. intros i Hi.
    apply list_elem_of_fmap in Hi as (u & -> & Hu).
    apply list_elem_of_fmap in Hu as (k & -> & _).
    rewrite <- Hlen. replace (length (occupied rb)) with (length qs)
      by (unfold qs; by rewrite length_fmap).
    apply searchsorted_in_range.
    - unfold qs. destruct (occupied rb); simpl in *; [lia | done].
    - by apply ReplayBufferFacts.probs_sum_one.
    - apply Hrng. }
  destruct (ReplayBufferFacts.read_rows rb indices Hwf Hidx)
    as (rows & Hrows & Hrl & _ & Hocc).
  exists rows. split; [|split].
  - unfold sample. rewrite Hprobs. unfold Generator.choice.
    rewrite decide_False by lia. unfold qs.
    rewrite ReplayBufferFacts.valid_probs by done.
    fold qs. unfold Generator.random. fold count. fold indices.
    by rewrite Hrows.
  - rewrite Hrl. unfold indices. by rewrite !length_fmap, length_seq.
  - by apply Forall_forall.
Qed.

(** X7. A batch drawn from a well-formed, non-empty buffer can be
    taken apart by every accessor: the draw consumes one uniform
    number per row, and the batch yields observations and next
    observations of the observation length, rewards with one entry
    per objective, one flag and one id per row, and actions in the
    shape (rows, objectives, 1). *)
Theorem sampled_batch_decodes (cast : tval -> Z) (rb : t) (rng : Generator.t)
    (sample_size : Q) :
  wf rb ->
  1 <= num_elements rb ->
  0 < num_objectives rb ->
  (importance_sampling rb = true -> finite_ids rb) ->
  Generator.well_formed rng ->
  exists rows rng',
    sample rb rng sample_size = (Ok rows, rng')
    /\ Generator.position rng' = Generator.position rng + length rows
    /\ Forall (fun o => length o = observation_space_size rb)
              (get_observations rb rows)
    /\ Forall (fun o => length o = observation_space_size rb)
              (get_next_obs rb rows)
    /\ Forall (fun r => length r = num_objectives rb) (get_rewards rb rows)
    /\ (exists flags, get_termination_flag rows = Ok flags
                      /\ length flags = length rows)
    /\ (exists ids, get_importance_sampling_id rows = Ok ids
                    /\ length ids = length rows)
    /\ (exists actions, get_actions cast rb rows = Ok actions
                        /\ length actions = length rows
                        /\ Forall (fun a => length a = num_objectives rb
                                            /\ Forall (fun c => length c = 1) a)
                                  actions).
Proof.
  intros Hwf Hn HO Hfin Hrng.
  destruct (sample_rows rb rng sample_size Hwf Hn Hfin Hrng)
    as (rows & Hsample & Hlen & Hocc).
  assert (Forall (fun row => length row = width rb) rows) as Hwidth.
  { eapply Forall_impl; [exact Hocc|]. intros row Hin. simpl in Hin.
    by apply ReplayBufferFacts.occupied_width. }
  eexists rows, _. split; [exact Hsample|]. simpl.
  split; [by rewrite Hlen|].
  split.
  { unfold get_observations. apply Forall_fmap.
    eapply Forall_impl; [exact Hwidth|]. intros row Hw. simpl in *.
    unfold slice. rewrite length_take, length_drop, Hw.
    unfold width, row_width. lia. }
  split.
  { unfold get_next_obs. apply Forall_fmap.
    eapply Forall_impl; [exact Hwidth|]. intros row Hw. simpl in *.
    unfold slice. rewrite length_take, length_drop, Hw.
    unfold width, row_width. lia. }
  split.
  { unfold get_rewards. apply Forall_fmap.
    eapply Forall_impl; [exact Hwidth|]. intros row Hw. simpl in *.
    unfold slice. rewrite length_take, length_drop, Hw.
    unfold width, row_width. lia. }
  split.
  { apply mapM_result_total.
    eapply Forall_impl; [exact Hwidth|]. intros row Hw. simpl in *.
    unfold index_from_end.
    rewrite decide_True by (rewrite Hw; unfold width, row_width; lia).
    destruct (lookup_lt_is_Some_2 row (length row - 2)) as [x ->];
      [rewrite Hw; unfold width, row_width; lia|].
    by eexists. }
  split.
  { apply mapM_result_total.
    eapply Forall_impl; [exact Hwidth|]. intros row Hw. simpl in *.
    unfold index_from_end.
    rewrite decide_True by (rewrite Hw; unfold width, row_width; lia).
    destruct (lookup_lt_is_Some_2 row (length row - 1)) as [x ->];
      [rewrite Hw; unfold width, row_width; lia|].
    by eexists. }
  eexists. split.
  { apply get_actions_column; [done|].
    eapply Forall_impl; [exact Hwidth|]. intros row Hw. simpl in *.
    rewrite Hw. unfold width, row_width. lia. }
  split; [by rewrite length_fmap|].
  apply Forall_fmap, Forall_forall. intros row _. simpl.
  split; [by rewrite length_replicate|].
  by apply Forall_replicate.
Qed.

Lemma sampled_batch_decodes_witness :
  exists rows rng',
    sample Examples.weighted Examples.rng (5 # 2) = (Ok rows, rng')
    /\ Generator.position rng' = Generator.position Examples.rng + length rows
    /\ exists actions, get_actions (fun _ => 0%Z) Examples.weighted rows = Ok actions
                       /\ length actions = length rows.
Proof.
  destruct (sampled_batch_decodes (fun _ => 0%Z) Examples.weighted Examples.rng
              (5 # 2))
    as (rows & rng' & Hs & Hp & _ & _ & _ & _ & _ & actions & Ha & Hl & _).
  - by constructor; simpl; try lia; repeat constructor.
  - simpl. lia.
  - simpl. lia.
  - intros _. repeat constructor; eexists; reflexivity.
  - intros k. simpl. destruct (Nat.even k); split; reflexivity || discriminate.
  - exists rows, rng'. split; [exact Hs|]. split; [exact Hp|].
    exists actions. by split.
Defined.

End ReplayBufferSampling.

(** ** DataLogger: rows and keywords *)

Module DataLoggerRows.
Import DataLogger.

Lemma make_tuple_length fields args kw row :
  make_tuple fields args kw = Ok row -> length row = length fields.
Proof.
  intros Hrow. apply DataLoggerFacts.make_tuple_matches in Hrow
    as (Hlen & _ & vs & Hvs & ->).
  apply Forall2_length in Hvs. rewrite length_drop in Hvs.
  rewrite length_app. lia.
Qed.

Lemma make_tuple_error fields args kw e :
  make_tuple fields args kw = Err e -> e = TypeError.
Proof.
  unfold make_tuple. case_decide; [|congruence].
  destruct (forallb _ kw && _); [|congruence].
  destruct (mapM _ _); congruence.
Qed.

Lemma _add_by_params_row lg args kw r lg' :
  _add_by_params lg args kw = (r, lg') ->
  match r with
  | Ok _ => exists row, lg' = append lg row /\ length row = length (fieldNames lg)
  | Err e => lg' = lg /\ e = TypeError
  end.
Proof.
  unfold _add_by_params. destruct (binds_self kw); [by intros [= <- <-]|].
  destruct (make_tuple (fieldNames lg) args kw) as [row|e] eqn:Hrow.
  - intros [= <- <-]. exists row. split; [done|]. by eapply make_tuple_length.
  - intros [= <- <-]. split; [done|]. by eapply make_tuple_error.
Qed.

Lemma _add_by_list_row lg x r lg' :
  _add_by_list lg x = (r, lg') ->
  match r with
  | Ok _ => exists row, lg' = append lg row /\ length row = length (fieldNames lg)
  | Err e => lg' = lg /\ e = TypeError
  end.
Proof.
  unfold _add_by_list. destruct (py_iter x) as [items|].
  - apply (_add_by_params_row lg items []).
  - by intros [= <- <-].
Qed.

(** X8. Whatever the arguments, a call of [add] on a logger whose
    rows all have one cell per field either appends exactly one row
    with one cell per field, or raises a type error and leaves the
    logger as it was; the name, the fields and the earlier rows are
    never changed. *)
Theorem add_appends_full_row_or_nothing (lg lg' : t) (args : list pyobj)
    (kw : kwargs) (r : result unit) :
  Forall (fun row => length row = length (fieldNames lg)) (tuple_list lg) ->
  add lg args kw = (r, lg') ->
  loggerName lg' = loggerName lg
  /\ fieldNames lg' = fieldNames lg
  /\ Forall (fun row => length row = length (fieldNames lg')) (tuple_list lg')
  /\ match r with
     | Ok _ => exists row, tuple_list lg' = tuple_list lg ++ [row]
     | Err e => lg' = lg /\ e = TypeError
     end.
Proof.
  intros Hrows Hadd.
  assert (match r with
          | Ok _ => exists row, lg' = append lg row
                                /\ length row = length (fieldNames lg)
          | Err e => lg' = lg /\ e = TypeError
          end) as Hcase.
  { revert Hadd. unfold add. destruct (binds_self kw); [by intros [= <- <-]|].
    destruct args as [|x [|x' args]], kw as [|[k v] [|kv kw]]; simpl;
      first [ apply _add_by_list_row | apply _add_by_params_row ]. }
  destruct r as [u|e].
  - destruct Hcase as (row & -> & Hlen). simpl. repeat split; try done.
    + apply Forall_app. split; [done|]. by apply Forall_singleton.
    + by exists row.
  - by destruct Hcase as [-> ->].
Qed.

Lemma add_appends_full_row_or_nothing_witness :
  exists row,
    tuple_list (add Examples.reward_logger [PyInt 3; PyFloat 0; PyFloat 1] []).2
    = tuple_list Examples.reward_logger ++ [row].
Proof.
  destruct (add_appends_full_row_or_nothing Examples.reward_logger
              (add Examples.reward_logger [PyInt 3; PyFloat 0; PyFloat 1] []).2
              [PyInt 3; PyFloat 0; PyFloat 1] [] (Ok ()))
    as (_ & _ & _ & Hrow).
  - constructor.
  - reflexivity.
  - exact Hrow.
Defined.

Lemma kw_lookup_permutation (f : string) (kw kw' : kwargs) :
  NoDup kw.*1 -> kw ≡ₚ kw' -> kw_lookup f kw = kw_lookup f kw'.
Proof.
  intros Hnd Hperm. induction Hperm as [|[k v] l l' Hp IH|[k1 v1] [k2 v2] l|l l' l'' H1 IH1 H2 IH2].
  - done.
  - simpl. case_decide; [done|]. apply IH. simpl in Hnd.
    by apply NoDup_cons in Hnd as [_ Hnd].
  - simpl. simpl in Hnd. apply NoDup_cons in Hnd as [Hne _].
    repeat case_decide; try done. subst. exfalso. apply Hne. by left.
  - rewrite IH1 by done. apply IH2.
    eapply NoDup_Permutation_proper; [|exact Hnd].
    by apply fmap_Permutation.
Qed.

Lemma forallb_permutation {A} (f : A -> bool) (l l' : list A) :
  l ≡ₚ l' -> forallb f l = forallb f l'.
Proof.
  induction 1 as [|x l l' _ IH|x y l|l l' l'' _ IH1 _ IH2]; simpl.
  - done.
  - by rewrite IH.
  - by destruct (f x), (f y).
  - by rewrite IH1.
Qed.

Lemma binds_self_permutation (kw kw' : kwargs) :
  kw ≡ₚ kw' -> binds_self kw = binds_self kw'.
Proof.
  unfold binds_self.
  induction 1 as [|x l l' _ IH|x y l|l l' l'' _ IH1 _ IH2]; simpl.
  - done.
  - by rewrite IH.
  - by destruct (bool_decide _), (bool_decide _).
  - by rewrite IH1.
Qed.

Lemma make_tuple_permutation fields args (kw kw' : kwargs) :
  NoDup kw.*1 -> kw ≡ₚ kw' ->
  make_tuple fields args kw = make_tuple fields args kw'.
Proof.
  intros Hnd Hperm. unfold make_tuple.
  rewrite (forallb_permutation _ kw kw' Hperm).
  rewrite (Permutation_length Hperm).
  by rewrite (mapM_ext (fun f => kw_lookup f kw) (fun f => kw_lookup f kw'))
    by (intros f; by apply kw_lookup_permutation).
Qed.

(** X9. The order in which keyword arguments are written does not
    matter: two calls of [add] whose keyword arguments are a
    permutation of each other have the same outcome and leave the
    same logger. *)
Theorem add_keyword_order (lg : t) (args : list pyobj) (kw kw' : kwargs) :
  NoDup kw.*1 ->
  kw ≡ₚ kw' ->
  add lg args kw = add lg args kw'.
Proof.
  intros Hnd Hperm. unfold add, _add_by_params.
  rewrite <- (Permutation_length Hperm), <- (binds_self_permutation kw kw' Hperm).
  destruct (binds_self kw); [done|].
  destruct (bool_decide (length args = 1) && bool_decide (length kw = 0)) eqn:H1.
  { apply andb_true_iff in H1 as [_ H1]. apply bool_decide_eq_true in H1.
    destruct kw; [|done]. by apply Permutation_nil_l in Hperm as <-. }
  destruct (bool_decide (length args = 0) && bool_decide (length kw = 1)) eqn:H2.
  { apply andb_true_iff in H2 as [_ H2]. apply bool_decide_eq_true in H2.
    destruct kw as [|kv [|]]; try done.
    by apply Permutation_singleton_l in Hperm as <-. }
  by rewrite (make_tuple_permutation _ _ kw kw').
Qed.

Lemma add_keyword_order_witness :
  add Examples.reward_logger []
      [("energy_reward", PyFloat 1); ("episode", PyInt 3);
       ("speed_reward", PyFloat 0)]%string
  = add Examples.reward_logger []
      [("episode", PyInt 3); ("energy_reward", PyFloat 1);
       ("speed_reward", PyFloat 0)]%string.
Proof.
  apply (add_keyword_order Examples.reward_logger []).
  - by apply (bool_decide_unpack _).
  - apply perm_swap.
Defined.

End DataLoggerRows.

(** ** Scalarisation *)

Module ScalarisationFacts.

Lemma row_mul_scalar (a : tensor) (x : tval) :
  row_mul a [x] = Ok ((fun y => tmul y x) <$> a).
Proof.
  unfold row_mul. case_decide as Hlen.
  - by destruct a as [|y [|]].
  - by destruct a as [|y [|z a]].
Qed.

Lemma zip_rows_scalar (q : list tensor) (w : tensor) :
  zip_rows q ((fun x => [x]) <$> w)
  = Ok (zip_with (fun (row : tensor) x => (fun y => tmul y x) <$> row) q w).
Proof.
  revert w. induction q as [|row q IH]; intros [|x w]; try done.
  rewrite fmap_cons. cbn [zip_rows]. rewrite row_mul_scalar. cbn [mbind result_bind].
  by rewrite IH.
Qed.

Lemma column_scaled (qs : list (list Q)) (ws : list Q) (j A : nat) :
  Forall (fun row => length row = A) qs -> j < A ->
  column j (zip_with (fun (row : tensor) x => (fun y => tmul y x) <$> row)
                     (fmap (M := list) Num <$> qs) (Num <$> ws))
  = Num <$> zip_with (fun row w => default 0 (row !! j) * w)%Q qs ws.
Proof.
  intros Hrows Hj. revert ws.
  induction Hrows as [|row qs Hlen _ IH]; intros [|w ws]; try done.
  rewrite !fmap_cons. cbn [zip_with column fmap list_fmap].
  destruct (lookup_lt_is_Some_2 row j) as [y Hy]; [lia|].
  f_equal.
  - by rewrite !list_lookup_fmap, Hy.
  - apply IH.
Qed.

Lemma qsum_zip_le (f g : list Q -> Q) (qs : list (list Q)) (ws : list Q) :
  (forall row, row ∈ qs -> (f row <= g row)%Q) ->
  Forall (fun w => (0 <= w)%Q) ws ->
  (fold_left Qplus (zip_with (fun row w => f row * w) qs ws) 0
   <= fold_left Qplus (zip_with (fun row w => g row * w) qs ws) 0)%Q.
Proof.
  intros Hle Hws. revert qs Hle.
  induction Hws as [|w ws Hw _ IH]; intros [|row qs] Hle; try apply Qle_refl.
  cbn [zip_with]. rewrite !qsum_cons.
  apply Qplus_le_compat.
  - apply Qmult_le_compat_r; [|done]. apply Hle. by left.
  - apply IH. intros row' Hin. apply Hle. by right.
Qed.

Lemma scalarise_actions_nums (qs : list (list Q)) (ws : list Q) (A : nat) :
  qs <> [] ->
  length qs = length ws ->
  Forall (fun row => length row = A) qs ->
  LinearScalarisation.scalarise_actions (fmap (M := list) Num <$> qs) (Num <$> ws)
  = Ok ((fun a => Num (LinearScalarisation.utility qs ws a)) <$> seq 0 A).
Proof.
  intros Hne Hlen Hrows.
  unfold LinearScalarisation.scalarise_actions, broadcast_mul.
  rewrite decide_True by (by rewrite !length_fmap).
  rewrite zip_rows_scalar. cbn [mbind result_bind]. f_equal.
  set (M := zip_with _ _ _).
  assert (sum_dim0 M = (fun j => tsum (column j M)) <$> seq 0 A) as ->.
  { unfold M. destruct qs as [|row qs]; [done|]. destruct ws as [|w ws]; [done|].
    apply Forall_cons in Hrows as [Hl _]. simpl. by rewrite !length_fmap, Hl. }
  apply list_fmap_ext. intros k a Hk.
  apply lookup_seq in Hk as [Hk HA]. simpl in Hk. subst k.
  unfold M. rewrite (column_scaled qs ws a A) by done.
  by rewrite tsum_nums.
Qed.

(** X10. For Q-values given as one row per objective and one weight
    per objective, [LinearScalarisation.scalarise_actions] returns for
    every action the weighted sum of its Q-values; with non-negative
    weights, an action that is at most as good as another in every
    objective never gets the larger utility. *)
Theorem linear_scalarisation_weighted_sum (qs : list (list Q)) (ws : list Q)
    (A : nat) :
  qs <> [] ->
  length qs = length ws ->
  Forall (fun row => length row = A) qs ->
  LinearScalarisation.scalarise_actions (fmap (M := list) Num <$> qs) (Num <$> ws)
  = Ok ((fun a => Num (LinearScalarisation.utility qs ws a)) <$> seq 0 A)
  /\ (Forall (fun w => (0 <= w)%Q) ws ->
      forall a b, a < A -> b < A ->
        (forall row x y, row ∈ qs -> row !! a = Some x -> row !! b = Some y ->
                         (x <= y)%Q) ->
        (LinearScalarisation.utility qs ws a
         <= LinearScalarisation.utility qs ws b)%Q).
Proof.
  intros Hne Hlen Hrows. split.
  - by apply scalarise_actions_nums.
  - intros Hws a b Ha Hb Hdom. unfold LinearScalarisation.utility.
    apply (qsum_zip_le (fun row => default 0%Q (row !! a))
                       (fun row => default 0%Q (row !! b))); [|done].
    intros row Hin.
    pose proof (proj1 (Forall_forall _ _) Hrows row Hin) as Hl. simpl in Hl.
    destruct (lookup_lt_is_Some_2 row a) as [x Hx]; [lia|].
    destruct (lookup_lt_is_Some_2 row b) as [y Hy]; [lia|].
    rewrite Hx, Hy. simpl. by eapply Hdom.
Qed.

Lemma linear_scalarisation_weighted_sum_witness :
  LinearScalarisation.scalarise_actions
    [[Num 1; Num 2]; [Num 3; Num 5]] [Num (1 # 4); Num (3 # 4)]
  = Ok [Num (LinearScalarisation.utility [[1; 2]; [3; 5]] [1 # 4; 3 # 4] 0);
        Num (LinearScalarisation.utility [[1; 2]; [3; 5]] [1 # 4; 3 # 4] 1)]%Q
  /\ (LinearScalarisation.utility [[1; 2]; [3; 5]] [1 # 4; 3 # 4] 0
      <= LinearScalarisation.utility [[1; 2]; [3; 5]] [1 # 4; 3 # 4] 1)%Q.
Proof.
  destruct (linear_scalarisation_weighted_sum [[1; 2]; [3; 5]]%Q [1 # 4; 3 # 4]%Q 2)
    as [Hval Hmono].
  - done.
  - reflexivity.
  - repeat constructor.
  - split; [exact Hval|]. apply Hmono.
    + repeat constructor; discriminate.
    + lia.
    + lia.
    + intros row x y Hin Hx Hy.
      apply elem_of_cons in Hin as [->|Hin].
      * injection Hx as <-. injection Hy as <-. discriminate.
      * apply elem_of_cons in Hin as [->|Hin].
        -- injection Hx as <-. injection Hy as <-. discriminate.
        -- by apply elem_of_nil in Hin.
Defined.

Import ChebyshevScalarisation.

Lemma tmax_nums (a b : Q) : tmax (Num a) (Num b) = Num (Qmax a b).
Proof.
  simpl. unfold Qmax, GenericMinMax.gmax.
  destruct (Qle_bool b a) eqn:Hle; destruct (a ?= b)%Q eqn:Hc; try reflexivity.
  - apply Qle_bool_iff in Hle. apply Qlt_alt in Hc. lra.
  - apply Qeq_alt in Hc. assert (Qle_bool b a = true); [|congruence].
    apply Qle_bool_iff. lra.
  - apply Qgt_alt in Hc. assert (Qle_bool b a = true); [|congruence].
    apply Qle_bool_iff. lra.
Qed.

Lemma fold_tmax_nums (qs : list Q) (q : Q) :
  fold_left tmax (Num <$> qs) (Num q) = Num (fold_left Qmax qs q).
Proof.
  revert q. induction qs as [|x qs IH]; intros q; simpl; [done|].
  change (fold_left tmax (Num <$> qs) (tmax (Num q) (Num x)) =
          Num (fold_left Qmax qs (Qmax q x))).
  rewrite tmax_nums. apply IH.
Qed.

Lemma tensor_max_nums (xs : list Q) :
  xs <> [] -> tensor_max (Num <$> xs) = Ok (Num (largest xs)).
Proof.
  destruct xs as [|x xs]; [done|]. intros _. rewrite fmap_cons.
  unfold tensor_max, largest. by rewrite fold_tmax_nums.
Qed.

Lemma fold_Qmax_ge (qs : list Q) (q : Q) :
  (q <= fold_left Qmax qs q)%Q /\ forall x, x ∈ qs -> (x <= fold_left Qmax qs q)%Q.
Proof.
  revert q. induction qs as [|y qs IH]; intros q; simpl.
  - split; [lra|]. intros x Hx. by apply elem_of_nil in Hx.
  - destruct (IH (Qmax q y)) as [H1 H2].
    pose proof (Q.le_max_l q y). pose proof (Q.le_max_r q y).
    split; [lra|]. intros x Hx. apply elem_of_cons in Hx as [->|Hx].
    + lra.
    + by apply H2.
Qed.

Lemma fold_Qmax_lub (qs : list Q) (q c : Q) :
  (q <= c)%Q -> (forall x, x ∈ qs -> (x <= c)%Q) -> (fold_left Qmax qs q <= c)%Q.
Proof.
  revert q. induction qs as [|y qs IH]; intros q Hq Hqs; simpl; [done|].
  apply IH.
  - apply Q.max_lub; [done|]. apply Hqs. by left.
  - intros x Hx. apply Hqs. by right.
Qed.

Lemma largest_ub (xs : list Q) (x : Q) : x ∈ xs -> (x <= largest xs)%Q.
Proof.
  destruct xs as [|y xs]; [by intros ?%elem_of_nil|].
  intros Hx. unfold largest. destruct (fold_Qmax_ge xs y) as [H1 H2].
  apply elem_of_cons in Hx as [->|Hx]; [done | by apply H2].
Qed.

Lemma largest_lub (xs : list Q) (c : Q) :
  xs <> [] -> (forall x, x ∈ xs -> (x <= c)%Q) -> (largest xs <= c)%Q.
Proof.
  destruct xs as [|y xs]; [done|]. intros _ Hc. unfold largest.
  apply fold_Qmax_lub.
  - apply Hc. by left.
  - intros x Hx. apply Hc. by right.
Qed.

Lemma largest_mono (xs ys : list Q) :
  Forall2 Qle xs ys -> (largest xs <= largest ys)%Q.
Proof.
  intros H. destruct xs as [|x xs].
  - apply Forall2_nil_inv_l in H as ->. apply Qle_refl.
  - apply largest_lub; [done|]. intros x' Hx'.
    apply list_elem_of_lookup_1 in Hx' as [i Hi].
    destruct (Forall2_lookup_l _ _ _ _ _ H Hi) as (y & Hy & Hle).
    eapply Qle_trans; [exact Hle|]. apply largest_ub.
    by eapply list_elem_of_lookup_2.
Qed.

Lemma column_nums (j : nat) (rows : list (list Q)) :
  Forall (fun row => j < length row) rows ->
  column j (fmap (M := list) Num <$> rows) = Num <$> entries j rows.
Proof.
  intros Hrows. unfold column, entries. rewrite <- !list_fmap_compose.
  apply list_fmap_ext. intros k row Hk. simpl.
  pose proof (Forall_lookup_1 _ _ _ _ Hrows Hk) as Hlt. simpl in Hlt.
  destruct (lookup_lt_is_Some_2 row j Hlt) as [x Hx].
  by rewrite list_lookup_fmap, Hx.
Qed.

Lemma mapM_result_fmap_ok {A B C} (f : B -> result C) (h : A -> B) (g : A -> C)
    (xs : list A) :
  Forall (fun x => f (h x) = Ok (g x)) xs ->
  mapM_result f (h <$> xs) = Ok (g <$> xs).
Proof.
  induction 1 as [|x xs Hx _ IH]; [done|].
  rewrite !fmap_cons. cbn [mapM_result]. rewrite Hx. cbn [mbind result_bind].
  by rewrite IH.
Qed.

Lemma update_utopian_nums (z : list Q) (tau : Q) (rows : list (list Q)) :
  Forall (fun row => length row = length z) rows ->
  update_utopian {| z_star := Num <$> z; threshold := tau |}
                 (fmap (M := list) Num <$> rows)
  = Ok {| z_star := Num <$> updated_z z rows; threshold := tau |}.
Proof.
  intros Hrows. unfold update_utopian, vstack. cbn [z_star threshold].
  assert (forallb (fun row : tensor => bool_decide (length row = length (Num <$> z)))
                  (fmap (M := list) Num <$> rows) = true) as ->.
  { apply forallb_forall. intros row Hin. apply list_elem_of_In in Hin.
    apply list_elem_of_fmap in Hin as (r & -> & Hr).
    apply bool_decide_eq_true. rewrite !length_fmap.
    exact (proj1 (Forall_forall _ _) Hrows r Hr). }
  cbn [mbind result_bind].
  rewrite (mapM_result_ok _
             (fun j => Num (largest (entries j rows ++ [default 0%Q (z !! j)])))).
  - cbn [mbind result_bind]. do 2 f_equal. unfold updated_z.
    by rewrite length_fmap, <- list_fmap_compose.
  - apply Forall_forall. intros j Hj. apply elem_of_seq in Hj as [_ Hj].
    rewrite length_fmap in Hj. simpl in Hj.
    destruct (lookup_lt_is_Some_2 z j Hj) as [zj Hzj].
    unfold column. rewrite fmap_app. fold (column j (fmap (M := list) Num <$> rows)).
    rewrite column_nums.
    + simpl. rewrite list_lookup_fmap, Hzj. simpl.
      change [Num zj] with (Num <$> [zj]). rewrite <- fmap_app.
      apply tensor_max_nums. by destruct (entries j rows).
    + eapply Forall_impl; [exact Hrows|]. intros row Hl. simpl in *. lia.
Qed.

(** X11. On numbers, [update_utopian] succeeds when every update
    vector has the length of the utopian point, and the new point is
    the least upper bound, entry by entry, of the old point and all
    update vectors: it never decreases, it dominates every update
    vector, and it is no larger than any other such bound. *)
Theorem update_utopian_least_upper_bound (z : list Q) (tau : Q)
    (rows : list (list Q)) :
  Forall (fun row => length row = length z) rows ->
  update_utopian {| z_star := Num <$> z; threshold := tau |}
                 (fmap (M := list) Num <$> rows)
  = Ok {| z_star := Num <$> updated_z z rows; threshold := tau |}
  /\ length (updated_z z rows) = length z
  /\ forall j old, z !! j = Some old ->
       exists new,
         updated_z z rows !! j = Some new
         /\ (old <= new)%Q
         /\ (forall row x, row ∈ rows -> row !! j = Some x -> (x <= new)%Q)
         /\ (forall u, (old <= u)%Q ->
               (forall row x, row ∈ rows -> row !! j = Some x -> (x <= u)%Q) ->
               (new <= u)%Q).
Proof.
  intros Hrows. split; [by apply update_utopian_nums|].
  split; [unfold updated_z; by rewrite length_fmap, length_seq|].
  intros j old Hold.
  pose proof (lookup_lt_Some _ _ _ Hold) as Hj.
  exists (largest (entries j rows ++ [old])).
  split.
  { unfold updated_z. rewrite list_lookup_fmap, lookup_seq_lt by done.
    simpl. by rewrite Hold. }
  split.
  { apply largest_ub. apply elem_of_app. right. by left. }
  split.
  { intros row x Hin Hx. apply largest_ub. apply elem_of_app. left.
    unfold entries. apply list_elem_of_fmap. exists row. by rewrite Hx. }
  intros u Hu Hrows_u. apply largest_lub; [by destruct (entries j rows)|].
  intros x Hx. apply elem_of_app in Hx as [Hx|Hx].
  - unfold entries in Hx. apply list_elem_of_fmap in Hx as (row & -> & Hin).
    pose proof (proj1 (Forall_forall _ _) Hrows row Hin) as Hl. simpl in Hl.
    destruct (lookup_lt_is_Some_2 row j) as [y Hy]; [lia|].
    rewrite Hy. simpl. by eapply Hrows_u.
  - apply list_elem_of_singleton in Hx as ->. done.
Qed.

Lemma update_utopian_least_upper_bound_witness :
  update_utopian {| z_star := [Num 0; Num 4]; threshold := 1 # 10 |}
                 [[Num 1; Num 3]; [Num 2; Num 1]]
  = Ok {| z_star := Num <$> updated_z [0; 4]%Q [[1; 3]; [2; 1]]%Q;
          threshold := 1 # 10 |}
  /\ length (updated_z [0; 4]%Q [[1; 3]; [2; 1]]%Q) = 2.
Proof.
  destruct (update_utopian_least_upper_bound [0; 4]%Q (1 # 10)
              [[1; 3]; [2; 1]]%Q) as (Hup & Hlen & _).
  - repeat constructor.
  - split; [exact Hup | exact Hlen].
Defined.

Lemma entries_length (j : nat) (rows : list (list Q)) :
  length (entries j rows) = length rows.
Proof. unfold entries. by rewrite length_fmap. Qed.

Lemma entries_lookup (a o : nat) (qs : list (list Q)) (A : nat) (q : Q) :
  Forall (fun row => length row = A) qs -> a < A ->
  entries a qs !! o = Some q <-> exists row, qs !! o = Some row /\ row !! a = Some q.
Proof.
  intros Hrows Ha. unfold entries. rewrite list_lookup_fmap. split.
  - destruct (qs !! o) as [row|] eqn:Hrow; [|done]. simpl. intros [= <-].
    exists row. split; [done|].
    pose proof (Forall_lookup_1 _ _ _ _ Hrows Hrow) as Hl. simpl in Hl.
    destruct (lookup_lt_is_Some_2 row a) as [x ->]; [lia | done].
  - intros (row & -> & Hq). simpl. by rewrite Hq.
Qed.

Lemma swapaxes_nums (A : nat) (qs : list (list Q)) :
  qs <> [] -> Forall (fun row => length row = A) qs ->
  swapaxes (fmap (M := list) Num <$> qs) = fmap (M := list) Num <$> per_action A qs.
Proof.
  intros Hne Hrows. unfold swapaxes, per_action.
  destruct qs as [|row qs]; [done|].
  rewrite fmap_cons, length_fmap, <- (fmap_cons (fmap (M := list) Num) row qs).
  replace (length row) with A by (by apply Forall_cons in Hrows as [-> _]).
  rewrite <- list_fmap_compose. apply list_fmap_ext. intros k a Hk.
  apply lookup_seq in Hk as [Hk HA]. simpl in Hk. subst k. cbn [compose].
  apply column_nums. eapply Forall_impl; [exact Hrows|].
  intros r Hl. simpl in *. lia.
Qed.

Lemma abs_diff_nums (r z : list Q) (tau : Q) :
  tabs <$> zip_with tsub (Num <$> r) ((fun x => tadd x (Num tau)) <$> (Num <$> z))
  = Num <$> zip_with (fun q zo => Qabs (q - (zo + tau)))%Q r z.
Proof.
  revert z. induction r as [|q r IH]; intros [|zo z]; try done.
  rewrite !fmap_cons. cbn [zip_with]. rewrite !fmap_cons. f_equal. apply IH.
Qed.

Lemma row_mul_nums (ws d : list Q) :
  length ws = length d ->
  row_mul (Num <$> ws) (Num <$> d) = Ok (Num <$> zip_with Qmult ws d).
Proof.
  intros Hlen. unfold row_mul. rewrite decide_True by (by rewrite !length_fmap).
  f_equal. clear Hlen. revert d.
  induction ws as [|w ws IH]; intros [|x d]; try done.
  rewrite !fmap_cons. cbn [zip_with]. rewrite fmap_cons. f_equal. apply IH.
Qed.

(** X12. On numbers, [ChebyshevScalarisation.scalarise_actions] first
    raises the utopian point to dominate the given Q-values and then
    returns, for every action, the largest weighted distance of its
    Q-values from the utopian point shifted by the threshold.  With
    non-negative weights and threshold the values are non-negative,
    and an action that is at least as good as another in every
    objective never gets the larger value. *)
Theorem chebyshev_value_decreases_with_quality (qs : list (list Q))
    (z ws : list Q) (tau : Q) (A : nat) :
  qs <> [] ->
  length z = length qs ->
  length ws = length qs ->
  Forall (fun row => length row = A) qs ->
  Forall (fun w => (0 <= w)%Q) ws ->
  (0 <= tau)%Q ->
  let z' := updated_z z (per_action A qs) in
  scalarise_actions {| z_star := Num <$> z; threshold := tau |}
                    (fmap (M := list) Num <$> qs) (Num <$> ws)
  = Ok ((fun a => Num (distance qs z' tau ws a)) <$> seq 0 A,
        {| z_star := Num <$> z'; threshold := tau |})
  /\ (forall a, a < A -> (0 <= distance qs z' tau ws a)%Q)
  /\ (forall a b, a < A -> b < A ->
        (forall row x y, row ∈ qs -> row !! a = Some x -> row !! b = Some y ->
                         (x <= y)%Q) ->
        (distance qs z' tau ws b <= distance qs z' tau ws a)%Q).
Proof.
  intros Hne Hz Hws Hrows Hpos Htau z'.
  assert (length z' = length qs) as Hz'.
  { unfold z', updated_z. by rewrite length_fmap, length_seq. }
  assert (forall a, length (zip_with Qmult ws
                      (zip_with (fun q zo => Qabs (q - (zo + tau)))%Q
                                (entries a qs) z')) = length qs) as Hlen.
  { intros a. rewrite !length_zip_with, entries_length. lia. }
  split; [|split].
  - unfold scalarise_actions.
    rewrite (swapaxes_nums A) by done.
    rewrite update_utopian_nums.
    2:{ unfold per_action. apply Forall_fmap, Forall_forall. intros a _. simpl.
        by rewrite entries_length. }
    cbn [mbind result_bind z_star threshold]. fold z'.
    unfold per_action. rewrite <- !list_fmap_compose.
    rewrite (mapM_result_fmap_ok _ _
               (fun a => Num <$> zip_with Qmult ws
                           (zip_with (fun q zo => Qabs (q - (zo + tau)))%Q
                                     (entries a qs) z'))).
    2:{ apply Forall_forall. intros a _. cbn [compose].
        rewrite (list_fmap_compose Num (fun x => tadd x (Num tau)) z').
        rewrite abs_diff_nums. apply row_mul_nums.
        rewrite length_zip_with, entries_length. lia. }
    cbn [mbind result_bind].
    rewrite (mapM_result_fmap_ok _ _ (fun a => Num (distance qs z' tau ws a))).
    + done.
    + apply Forall_forall. intros a _. unfold distance.
      apply tensor_max_nums. intros Hnil.
      specialize (Hlen a). rewrite Hnil in Hlen. by destruct qs.
  - intros a Ha. unfold distance.
    destruct (zip_with Qmult ws _) as [|x l] eqn:Hl.
    { specialize (Hlen a). rewrite Hl in Hlen. by destruct qs. }
    assert ((0 <= x)%Q) as Hx.
    { assert ((x :: l) !! 0 = Some x) as Hx0 by done.
      rewrite <- Hl in Hx0.
      apply lookup_zip_with_Some in Hx0 as (w & d & -> & Hw & Hd).
      apply lookup_zip_with_Some in Hd as (q & zo & -> & _ & _).
      pose proof (Forall_lookup_1 _ _ _ _ Hpos Hw) as Hw0. simpl in Hw0.
      pose proof (Qabs_nonneg (q - (zo + tau))). nra. }
    eapply Qle_trans; [exact Hx|]. apply largest_ub. by left.
  - intros a b Ha Hb Hdom. unfold distance. apply largest_mono.
    apply Forall2_same_length_lookup_2; [by rewrite !Hlen|].
    intros o xb xa Hxb Hxa.
    apply lookup_zip_with_Some in Hxb as (w & db & -> & Hw & Hdb).
    apply lookup_zip_with_Some in Hxa as (w' & da & -> & Hw' & Hda).
    rewrite Hw in Hw'. injection Hw' as <-.
    apply lookup_zip_with_Some in Hdb as (qb & zo & -> & Hqb & Hzo).
    apply lookup_zip_with_Some in Hda as (qa & zo' & -> & Hqa & Hzo').
    rewrite Hzo in Hzo'. injection Hzo' as <-.
    pose proof (Forall_lookup_1 _ _ _ _ Hpos Hw) as Hw0. simpl in Hw0.
    assert ((qa <= qb)%Q) as Hab.
    { apply (entries_lookup _ _ _ A) in Hqa as (row & Hrow & Hxa); [|done|done].
      apply (entries_lookup _ _ _ A) in Hqb as (row' & Hrow' & Hxb); [|done|done].
      rewrite Hrow in Hrow'. injection Hrow' as <-.
      eapply Hdom; [|exact Hxa|exact Hxb]. by eapply list_elem_of_lookup_2. }
    assert ((qb <= zo)%Q) as Hbz.
    { unfold z', updated_z in Hzo.
      rewrite list_lookup_fmap in Hzo.
      destruct (seq 0 (length z) !! o) as [o'|] eqn:Ho; [|done].
      apply lookup_seq in Ho as [Ho _]. simpl in Ho. subst o'.
      simpl in Hzo. injection Hzo as <-.
      apply largest_ub. apply elem_of_app. left.
      unfold entries at 1. apply list_elem_of_fmap.
      exists (entries b qs). split; [by rewrite Hqb|].
      unfold per_action. apply list_elem_of_fmap. exists b. split; [done|].
      apply elem_of_seq. lia. }
    assert ((Qabs (qb - (zo + tau)) <= Qabs (qa - (zo + tau)))%Q) as Habs.
    { rewrite !Qabs_neg by lra. lra. }
    nra.
Qed.

Lemma chebyshev_value_decreases_with_quality_witness :
  (0 <= distance [[1; 2]; [3; 5]] (updated_z [0; 0] (per_action 2 [[1; 2]; [3; 5]]))
                 (1 # 10) [1 # 4; 3 # 4] 0)%Q
  /\ (distance [[1; 2]; [3; 5]] (updated_z [0; 0] (per_action 2 [[1; 2]; [3; 5]]))
               (1 # 10) [1 # 4; 3 # 4] 1
      <= distance [[1; 2]; [3; 5]] (updated_z [0; 0] (per_action 2 [[1; 2]; [3; 5]]))
                  (1 # 10) [1 # 4; 3 # 4] 0)%Q.
Proof.
  destruct (chebyshev_value_decreases_with_quality [[1; 2]; [3; 5]]%Q [0; 0]%Q
              [1 # 4; 3 # 4]%Q (1 # 10) 2) as (_ & Hnonneg & Hmono).
  - done.
  - reflexivity.
  - reflexivity.
  - repeat constructor.
  - repeat constructor; discriminate.
  - discriminate.
  - split; [apply Hnonneg; lia|]. apply Hmono; [lia | lia |].
    intros row x y Hin Hx Hy.
    apply elem_of_cons in Hin as [->|Hin].
    + injection Hx as <-. injection Hy as <-. discriminate.
    + apply elem_of_cons in Hin as [->|Hin].
      * injection Hx as <-. injection Hy as <-. discriminate.
      * by apply elem_of_nil in Hin.
Defined.

End ScalarisationFacts.

(** ** random_objective_weights *)

Module RandomWeightsFacts.

Lemma qsum_nonneg (xs : list Q) :
  Forall (fun x => (0 <= x)%Q) xs -> (0 <= fold_left Qplus xs 0)%Q.
Proof.
  induction 1 as [|x xs Hx _ IH]; [apply Qle_refl|].
  rewrite qsum_cons. lra.
Qed.

Lemma qsum_ge_elem (xs : list Q) (x : Q) :
  Forall (fun x => (0 <= x)%Q) xs -> x ∈ xs -> (x <= fold_left Qplus xs 0)%Q.
Proof.
  induction 1 as [|y xs Hy Hxs IH]; [by intros ?%elem_of_nil|].
  intros Hin. rewrite qsum_cons. pose proof (qsum_nonneg xs Hxs).
  apply elem_of_cons in Hin as [->|Hin]; [lra|].
  specialize (IH Hin). lra.
Qed.

Lemma qsum_zero (xs : list Q) :
  Forall (fun x => (x == 0)%Q) xs -> (fold_left Qplus xs 0 == 0)%Q.
Proof.
  induction 1 as [|x xs Hx _ IH]; [reflexivity|].
  rewrite qsum_cons. lra.
Qed.

(** X13. [random_objective_weights] consumes exactly [num_objectives]
    draws and returns as many weights.  When one of the draws is
    positive the weights are numbers between 0 and 1 that sum to one;
    when all the draws are zero every weight is [nan]. *)
Theorem random_objective_weights_normalised (n : nat) (rng : Generator.t) :
  Generator.well_formed rng ->
  let out := random_objective_weights n rng in
  length out.1 = n
  /\ Generator.position out.2 = Generator.position rng + n
  /\ Generator.uniform out.2 = Generator.uniform rng
  /\ ((exists k, k < n
                 /\ (0 < Generator.uniform rng (Generator.position rng + k))%Q) ->
      exists qs, out.1 = Num <$> qs
                 /\ Forall (fun q => (0 <= q <= 1)%Q) qs
                 /\ (fold_left Qplus qs 0 == 1)%Q)
  /\ ((forall k, k < n ->
         (Generator.uniform rng (Generator.position rng + k) == 0)%Q) ->
      Forall (fun w => w = NaN) out.1).
Proof.
  intros Hrng out. unfold out, random_objective_weights, Generator.random.
  cbn [fst snd Generator.position Generator.uniform].
  set (draws := Generator.uniform rng <$> seq (Generator.position rng) n).
  set (total := fold_left Qplus draws 0%Q).
  assert (Forall (fun x => (0 <= x)%Q) draws) as Hnonneg.
  { unfold draws. apply Forall_fmap, Forall_forall. intros k _. simpl.
    apply Hrng. }
  split; [unfold draws; by rewrite !length_fmap, length_seq|].
  split; [done|]. split; [done|]. split.
  - intros (k & Hk & Hpos).
    assert (Generator.uniform rng (Generator.position rng + k) ∈ draws) as Hin.
    { unfold draws. apply list_elem_of_fmap. eexists. split; [done|].
      apply elem_of_seq. lia. }
    assert ((0 < total)%Q) as Htotal.
    { pose proof (qsum_ge_elem draws _ Hnonneg Hin). unfold total. lra. }
    exists ((fun w => w / total)%Q <$> draws). split; [|split].
    + rewrite <- list_fmap_compose. apply list_fmap_ext. intros i w _. simpl.
      by apply ReplayBufferFacts.tdiv_nums.
    + apply Forall_fmap, Forall_forall. intros w Hw. simpl.
      pose proof (proj1 (Forall_forall _ _) Hnonneg w Hw) as Hw0. simpl in Hw0.
      pose proof (qsum_ge_elem draws w Hnonneg Hw) as Hle. fold total in Hle.
      split.
      * apply Qle_shift_div_l; [done|]. lra.
      * apply Qle_shift_div_r; [done|]. lra.
    + rewrite (qsum_scale (fun w => w / total)%Q (fun w => w) (/ total)%Q).
      * rewrite list_fmap_id. fold total. field. lra.
      * intros w _. unfold Qdiv. apply Qmult_comm.
  - intros Hzero.
    assert ((total == 0)%Q) as Htotal.
    { unfold total. apply qsum_zero. unfold draws.
      apply Forall_fmap, Forall_forall. intros k Hk. simpl.
      apply elem_of_seq in Hk.
      replace k with (Generator.position rng + (k - Generator.position rng)) by lia.
      apply Hzero. lia. }
    apply Forall_fmap, Forall_forall. intros w _. simpl.
    assert (Qeq_bool total 0 = true) as -> by (by apply Qeq_bool_iff).
    done.
Qed.

Lemma random_objective_weights_normalised_witness :
  exists qs,
    (random_objective_weights 2 Examples.rng).1 = Num <$> qs
    /\ Forall (fun q => (0 <= q <= 1)%Q) qs
    /\ (fold_left Qplus qs 0 == 1)%Q.
Proof.
  destruct (random_objective_weights_normalised 2 Examples.rng)
    as (_ & _ & _ & Hsome & _).
  - intros k. simpl. destruct (Nat.even k); split; reflexivity || discriminate.
  - apply Hsome. exists 0. split; [lia | reflexivity].
Defined.

End RandomWeightsFacts.

(** ** MOMA_DQN: the epsilon schedule *)

Module EpsilonFacts.
Import MOMA_DQN.

Lemma leb_refl (x : float) : PrimFloat.is_nan x = false -> PrimFloat.leb x x = true.
Proof.
  unfold PrimFloat.is_nan. intros Hx. apply negb_false_iff in Hx.
  rewrite FloatAxioms.eqb_spec in Hx. rewrite FloatAxioms.leb_spec.
  unfold SpecFloat.SFeqb in Hx. unfold SpecFloat.SFleb.
  by destruct (SpecFloat.SFcompare _ _) as [[]|].
Qed.

Lemma ltb_leb (x y : float) : PrimFloat.ltb x y = true -> PrimFloat.leb x y = true.
Proof.
  rewrite FloatAxioms.ltb_spec, FloatAxioms.leb_spec.
  unfold SpecFloat.SFltb, SpecFloat.SFleb.
  by destruct (SpecFloat.SFcompare _ _) as [[]|].
Qed.

Lemma py_max_ge (a b : float) :
  PrimFloat.is_nan a = false -> PrimFloat.leb a (py_max a b) = true.
Proof.
  intros Ha. unfold py_max. destruct (PrimFloat.ltb a b) eqn:Hlt.
  - by apply ltb_leb.
  - by apply leb_refl.
Qed.

(** X14. Epsilon never falls below its floor: after any positive
    number of successful calls of [reduce_epsilon] with a floor
    [eps_end] that is a number, the value of epsilon is at least
    [eps_end], whatever the start value and the step are (a [nan]
    step included); and the last call either stopped at the floor or
    subtracted the step. *)
Theorem epsilon_never_below_floor (n : nat) (max_iteration eps_start eps_end
    eps e' : float) :
  PrimFloat.is_nan eps_end = false ->
  decay (S n) max_iteration eps_start eps_end eps = Ok e' ->
  PrimFloat.leb eps_end e' = true
  /\ exists e, decay n max_iteration eps_start eps_end eps = Ok e
               /\ (e' = eps_end
                   \/ e' = (e - (eps_start - eps_end) / max_iteration)%float).
Proof.
  intros Hfloor Hdecay. replace (S n) with (n + 1) in Hdecay by lia.
  rewrite MOMA_DQNFacts.decay_add in Hdecay.
  apply bind_ok in Hdecay as (e & He & Hstep).
  simpl in Hstep. unfold epsilon_step in Hstep.
  destruct (PrimFloat.eqb max_iteration 0); [done|]. simpl in Hstep.
  injection Hstep as <-. split; [by apply py_max_ge|].
  exists e. split; [done|]. unfold py_max.
  destruct (PrimFloat.ltb _ _); [by right | by left].
Qed.

Lemma epsilon_never_below_floor_witness :
  PrimFloat.leb 0%float 0x1.2p-52%float = true
  /\ exists e, decay 9 f10 f0_9 0%float f0_9 = Ok e
               /\ (0x1.2p-52%float = 0%float
                   \/ 0x1.2p-52%float = (e - (f0_9 - 0) / f10)%float).
Proof.
  apply (epsilon_never_below_floor 9 f10 f0_9 0%float f0_9 0x1.2p-52%float).
  - reflexivity.
  - reflexivity.
Defined.

End EpsilonFacts.

(** ** MOMA_DQN: training runs *)

Module TrainFacts.
Import MOMA_DQN.

Section Run.
Context {World : Type}.
Implicit Types s : t World.

Lemma bind_inv {A B} (m : M (World := World) A) (f : A -> M (World := World) B)
    s b s' :
  bind m f s = (Ok b, s') -> exists a s1, m s = (Ok a, s1) /\ f a s1 = (Ok b, s').
Proof.
  unfold bind. destruct (m s) as [[a|e] s1]; [|done]. intros H. by exists a, s1.
Qed.

Lemma frames_ret {A} (a : A) : frames (World := World) (ret a).
Proof. by intros s. Qed.

Lemma frames_raise {A} (e : exn) : frames (World := World) (raise (A := A) e).
Proof. by intros s. Qed.

Lemma frames_get : frames (World := World) get.
Proof. by intros s. Qed.

Lemma frames_lift_result {A} (r : result A) :
  frames (World := World) (lift_result r).
Proof. by intros s. Qed.

Lemma frames_lift_world {A} (f : World -> result A * World) : frames (lift_world f).
Proof. intros s. unfold lift_world. by destruct (f (world s)). Qed.

Lemma frames_modify (f : t World -> t World) :
  (forall s, reward_logger (f s) = reward_logger s
             /\ num_objectives (f s) = num_objectives s
             /\ epsilon (f s) = epsilon s) ->
  frames (modify f).
Proof. intros Hf s. apply Hf. Qed.

Lemma frames_bind {A B} (m : M (World := World) A) (f : A -> M (World := World) B) :
  frames m -> (forall a, frames (f a)) -> frames (bind m f).
Proof.
  intros Hm Hf s. unfold bind. specialize (Hm s).
  destruct (m s) as [[a|e] s1]; simpl in *; [|done].
  destruct (Hf a s1) as (H1 & H2 & H3). destruct Hm as (H4 & H5 & H6).
  repeat split; congruence.
Qed.

Lemma frames_compute_reward_summary rewards obj_weights :
  frames (fun s => compute_reward_summary s rewards obj_weights).
Proof. intros s. unfold compute_reward_summary. by destruct rewards. Qed.

Lemma frames_state {A} (m : M (World := World) A) s r s1 :
  frames m -> m s = (r, s1) ->
  reward_logger s1 = reward_logger s
  /\ num_objectives s1 = num_objectives s
  /\ epsilon s1 = epsilon s.
Proof. intros Hm Hs. specialize (Hm s). by rewrite Hs in Hm. Qed.

Ltac frames_prim :=
  first
    [ apply frames_ret
    | apply frames_raise
    | apply frames_get
    | apply frames_lift_result
    | apply frames_lift_world
    | apply frames_compute_reward_summary
    | apply frames_modify; by intros ? ].

Ltac frames_steps :=
  repeat first [ frames_prim | apply frames_bind; [|intros ?] ].

Ltac framed H :=
  match type of H with
  | ?m ?s = (?r, ?s1) =>
      let F := fresh in
      assert (frames m) as F by frames_steps;
      apply (frames_state m s r s1 F) in H; clear F
  end.

Variable env_reset : World -> result (list tensor) * World.
Variable resample_objective_weights : World -> World.
Variable act : float -> list tensor -> World -> result (list Z) * World.
Variable env_step : list Z -> World -> result step_out * World.
Variable update_weights : nat -> nat -> nat -> ReplayBuffer.t -> World
                          -> result unit * World.
Variable evaluate : nat -> rollout -> World -> result float * (rollout * World).
Variable train_setup : World -> World.
Variable prepare_logger_data : nat -> DataLogger.t -> World
                               -> result (list (list pyobj)).

Lemma frames_rollout_loop fuel episode_nr :
  frames (rollout_loop act env_step fuel episode_nr).
Proof.
  induction fuel as [|fuel IH]; simpl; [apply frames_raise|].
  apply frames_bind; [apply frames_get|]. intros s0.
  destruct (terminated (run s0) || truncated (run s0)); [apply frames_ret|].
  apply frames_bind; [|intros _; exact IH].
  unfold rollout_body, push_transitions. frames_steps.
Qed.

Lemma frames_optimisation p episode_nr steps :
  frames
    (if decide (inv_optimisation_frequency p = 0)
     then raise (World := World) ZeroDivisionError
     else
       bind get (fun s =>
         if bool_decide (episode_nr mod inv_optimisation_frequency p = 0)
            && bool_decide (ReplayBuffer.num_elements (buffer s) = rb_size s)
         then
           bind (lift_world (update_weights episode_nr steps
                               (inv_target_update_frequency p) (buffer s)))
                (fun _ => ret (steps + 1))
         else ret steps)).
Proof.
  case_decide; [frames_prim|].
  apply frames_bind; [frames_prim | intros s1].
  destruct (_ && _); frames_steps.
Qed.

Lemma frames_evaluation p (eval_interval : Z) episode_nr hv_logger :
  frames
    (if decide (num_evaluations p = 0) then ret (World := World) hv_logger
     else if decide (eval_interval = 0%Z) then raise ZeroDivisionError
     else if bool_decide ((Z.of_nat episode_nr mod eval_interval)%Z = 0%Z) then
       bind (fun s =>
               let '(r, (ro, w)) := evaluate (eval_seed p) (run s) (world s) in
               (r, set_world (set_run s ro) w))
            (fun hv => log_hypervolume hv_logger episode_nr hv)
     else ret hv_logger).
Proof.
  repeat case_decide; try frames_prim.
  destruct (bool_decide _); [|frames_prim].
  apply frames_bind.
  - intros s1. by destruct (evaluate _ _ _) as [r [ro w]].
  - intros hv. unfold log_hypervolume.
    destruct (DataLogger.add _ _ _) as [[u|e] l]; frames_prim.
Qed.

(** A positional call of [add] that returns has appended its
    arguments as the new row. *)
Lemma add_positional_ok (lg lg' : DataLogger.t) (z : Z) (rest : list pyobj) u :
  DataLogger.add lg (PyInt z :: rest) [] = (Ok u, lg') ->
  lg' = DataLogger.append lg (PyInt z :: rest).
Proof.
  unfold DataLogger.add. destruct rest as [|x rest]; simpl; [done|].
  unfold DataLogger._add_by_params.
  destruct (DataLogger.make_tuple _ _ _) as [row|e] eqn:Hrow; [|done].
  apply DataLoggerFacts.make_tuple_items in Hrow as [_ ->]. by intros [= <-].
Qed.

(** What one episode that returns has done to the agent. *)
Lemma train_episode_ok p fuel eval_interval mi episode_nr locals s r s' :
  train_episode env_reset resample_objective_weights act env_step update_weights
    evaluate p fuel eval_interval mi episode_nr locals s = (Ok r, s') ->
  num_objectives s' = num_objectives s
  /\ epsilon_step (epsilon s) mi (epsilon_start p) (epsilon_end p) = Ok (epsilon s')
  /\ DataLogger.tuple_list (reward_logger s')
     = DataLogger.tuple_list (reward_logger s)
       ++ [PyInt (Z.of_nat episode_nr) :: np_zeros (num_objectives s)].
Proof.
  unfold train_episode. destruct locals as [steps hv_logger]. intros H.
  apply bind_inv in H as (u1 & s1 & H1 & H).
  framed H1. destruct H1 as (L1 & N1 & E1).
  apply bind_inv in H as (raw & s2 & H2 & H).
  framed H2. destruct H2 as (L2 & N2 & E2).
  apply bind_inv in H as (u3 & s3 & H3 & H).
  framed H3. destruct H3 as (L3 & N3 & E3).
  apply bind_inv in H as (s3' & s4 & H4 & H).
  unfold get in H4. injection H4 as <- <-.
  apply bind_inv in H as (u5 & s5 & H5 & H).
  framed H5. destruct H5 as (L5 & N5 & E5).
  apply bind_inv in H as (u6 & s6 & H6 & H).
  apply (frames_state _ _ _ _ (frames_rollout_loop _ _)) in H6 as (L6 & N6 & E6).
  apply bind_inv in H as (steps' & s7 & H7 & H).
  apply (frames_state _ _ _ _ (frames_optimisation _ _ _)) in H7 as (L7 & N7 & E7).
  apply bind_inv in H as (hv' & s8 & H8 & H).
  apply (frames_state _ _ _ _ (frames_evaluation _ _ _ _)) in H8 as (L8 & N8 & E8).
  apply bind_inv in H as (u9 & s9 & H9 & H).
  apply bind_inv in H as (u10 & s10 & H10 & H).
  unfold ret in H. injection H as _ <-.
  unfold reduce_epsilon in H9.
  destruct (epsilon_step (epsilon s8) mi (epsilon_start p) (epsilon_end p))
    as [e|] eqn:Hstep; [|done].
  injection H9 as _ <-.
  destruct (DataLogger.add _ _ _) as [r10 l] eqn:Hadd.
  injection H10 as -> <-. simpl in Hadd.
  apply add_positional_ok in Hadd as ->. simpl.
  assert (epsilon s8 = epsilon s) as He by congruence.
  assert (reward_logger s8 = reward_logger s) as Hl by congruence.
  assert (num_objectives s8 = num_objectives s) as Hn by congruence.
  assert (num_objectives s3 = num_objectives s) as Hn3 by congruence.
  rewrite He in Hstep. rewrite Hl, Hn, Hn3. done.
Qed.

Lemma train_loop_ok p fuel eval_interval mi (k : nat) : forall a locals s r s',
  train_loop env_reset resample_objective_weights act env_step update_weights
    evaluate p fuel eval_interval mi (seq a k) locals s = (Ok r, s') ->
  num_objectives s' = num_objectives s
  /\ decay k mi (epsilon_start p) (epsilon_end p) (epsilon s) = Ok (epsilon s')
  /\ DataLogger.tuple_list (reward_logger s')
     = DataLogger.tuple_list (reward_logger s)
       ++ ((fun e => PyInt (Z.of_nat e) :: np_zeros (num_objectives s)) <$> seq a k).
Proof.
  induction k as [|k IH]; intros a locals s r s' H.
  - simpl in H. unfold ret in H. injection H as _ <-. simpl.
    by rewrite app_nil_r.
  - simpl in H. apply bind_inv in H as (locals' & s1 & H1 & H).
    apply train_episode_ok in H1 as (N1 & E1 & L1).
    apply IH in H as (N2 & E2 & L2).
    split; [congruence|]. split.
    + simpl. rewrite E1. simpl. exact E2.
    + rewrite L2, L1, N1, <- app_assoc. done.
Qed.

(** X15. A run of [train] that returns has appended to the reward
    logger exactly one row per episode, in order: the episode
    number followed by one zero per objective; and it has left
    epsilon at the value that [num_episodes] decay steps from
    [epsilon_start] give. *)
Theorem train_success_logs_every_episode (p : train_params) (fuel : nat) s
    (table : list (list pyobj)) s' :
  train env_reset resample_objective_weights act env_step update_weights evaluate
        train_setup prepare_logger_data p fuel s = (Ok table, s') ->
  DataLogger.tuple_list (reward_logger s')
  = DataLogger.tuple_list (reward_logger s)
    ++ ((fun e => PyInt (Z.of_nat e) :: np_zeros (num_objectives s))
        <$> seq 0 (num_episodes p))
  /\ exists max_eps_iteration,
       py_round_float (float_of_nat (num_episodes p) * epsilon_end_time p)%float
       = Ok max_eps_iteration
       /\ decay (num_episodes p) max_eps_iteration (epsilon_start p) (epsilon_end p)
                (epsilon_start p)
          = Ok (epsilon s').
Proof.
  unfold train. intros H.
  apply bind_inv in H as (u1 & s1 & H1 & H).
  framed H1. destruct H1 as (L1 & N1 & _).
  apply bind_inv in H as (hv_logger & s2 & H2 & H).
  framed H2. destruct H2 as (L2 & N2 & _).
  apply bind_inv in H as (u3 & s3 & H3 & H).
  unfold modify in H3. injection H3 as _ <-.
  apply bind_inv in H as (mi & s4 & H4 & H).
  unfold lift_result in H4. injection H4 as Hmi <-.
  apply bind_inv in H as (locals & s5 & H5 & H).
  assert (s' = s5) as ->.
  { revert H. unfold logger_data. destruct locals as [steps hv].
    destruct (decide (steps = 0)); unfold raise, bind, get, lift_result;
      intros Hend.
    - discriminate Hend.
    - by injection Hend as _ <-. }
  clear H.
  apply train_loop_ok in H5 as (N5 & E5 & L5). simpl in N5, E5, L5.
  split.
  - by rewrite L5, L2, L1, N2, N1.
  - exists mi. by split.
Qed.

Lemma raises_bind_l {A B} (m : M (World := World) A) (f : A -> M (World := World) B) :
  raises_quietly m -> raises_quietly (bind m f).
Proof.
  intros Hm s. unfold bind. specialize (Hm s).
  destruct (m s) as [[a|e] s1]; simpl in *; [|done].
  by destruct Hm.
Qed.

Lemma raises_bind_r {A B} (m : M (World := World) A) (f : A -> M (World := World) B) :
  (forall s, reward_logger (m s).2 = reward_logger s) ->
  (forall a, raises_quietly (f a)) -> raises_quietly (bind m f).
Proof.
  intros Hm Hf s. unfold bind. specialize (Hm s).
  destruct (m s) as [[a|e] s1]; simpl in *; [|done].
  destruct (Hf a s1) as [H1 H2]. split; [done | congruence].
Qed.

Lemma raises_bind_ok {A B} (a : A) (f : A -> M (World := World) B) :
  raises_quietly (f a) -> raises_quietly (bind (lift_result (Ok a)) f).
Proof. intros Hf s. apply Hf. Qed.

Lemma frames_logger {A} (m : M (World := World) A) :
  frames m -> forall s, reward_logger (m s).2 = reward_logger s.
Proof. intros Hm s. apply Hm. Qed.

Lemma train_episode_raises p fuel eval_interval mi episode_nr locals :
  PrimFloat.eqb mi 0 = true ->
  raises_quietly
    (train_episode env_reset resample_objective_weights act env_step
       update_weights evaluate p fuel eval_interval mi episode_nr locals).
Proof.
  intros Hmi. unfold train_episode. destruct locals as [steps hv_logger].
  apply raises_bind_r; [apply frames_logger; frames_prim | intros _].
  apply raises_bind_r; [apply frames_logger; frames_prim | intros raw].
  apply raises_bind_r; [apply frames_logger; frames_prim | intros _].
  apply raises_bind_r; [apply frames_logger; frames_prim | intros s0].
  apply raises_bind_r; [apply frames_logger; frames_prim | intros _].
  apply raises_bind_r; [apply frames_logger, frames_rollout_loop | intros _].
  apply raises_bind_r; [apply frames_logger, frames_optimisation | intros steps'].
  apply raises_bind_r; [apply frames_logger, frames_evaluation | intros hv'].
  apply raises_bind_l. intros s. unfold reduce_epsilon, epsilon_step.
  by rewrite Hmi.
Qed.

(** X16. When [num_episodes * epsilon_end_time] rounds to zero (as
    with [epsilon_end_time = 0]) and at least one episode is asked
    for, [train] never returns: if nothing fails before, the division
    in [reduce_epsilon] raises at the end of the first episode; and
    no row reaches the reward logger. *)
Theorem train_fails_without_decay_horizon (p : train_params) (fuel : nat) s
    (max_eps_iteration : float) :
  1 <= num_episodes p ->
  py_round_float (float_of_nat (num_episodes p) * epsilon_end_time p)%float
  = Ok max_eps_iteration ->
  PrimFloat.eqb max_eps_iteration 0 = true ->
  let out := train env_reset resample_objective_weights act env_step
                   update_weights evaluate train_setup prepare_logger_data p fuel s in
  is_ok out.1 = false /\ reward_logger out.2 = reward_logger s.
Proof.
  intros Hn Hmi Hzero out.
  assert (raises_quietly
            (train env_reset resample_objective_weights act env_step
               update_weights evaluate train_setup prepare_logger_data p fuel)) as Htrain.
  { destruct (seq 0 (num_episodes p)) as [|episode_nr rest] eqn:Hseq.
    { apply (f_equal length) in Hseq. rewrite length_seq in Hseq. simpl in Hseq. lia. }
    unfold train. rewrite Hseq, Hmi.
    apply raises_bind_r; [apply frames_logger; frames_prim | intros _].
    apply raises_bind_r; [apply frames_logger; frames_prim | intros hv_logger].
    apply raises_bind_r; [by intros ? | intros _].
    apply raises_bind_ok.
    apply raises_bind_l. cbn [train_loop].
    apply raises_bind_l. by apply train_episode_raises. }
  apply Htrain.
Qed.

Lemma raises_raise {A} (e : exn) : raises_quietly (World := World) (raise (A := A) e).
Proof. by intros s. Qed.

Lemma train_episode_raises_modulo p fuel (eval_interval : Z) mi episode_nr locals :
  inv_optimisation_frequency p = 0
  \/ (num_evaluations p <> 0 /\ eval_interval = 0%Z) ->
  raises_quietly
    (train_episode env_reset resample_objective_weights act env_step
       update_weights evaluate p fuel eval_interval mi episode_nr locals).
Proof.
  intros Hzero. unfold train_episode. destruct locals as [steps hv_logger].
  apply raises_bind_r; [apply frames_logger; frames_prim | intros _].
  apply raises_bind_r; [apply frames_logger; frames_prim | intros raw].
  apply raises_bind_r; [apply frames_logger; frames_prim | intros _].
  apply raises_bind_r; [apply frames_logger; frames_prim | intros s0].
  apply raises_bind_r; [apply frames_logger; frames_prim | intros _].
  apply raises_bind_r; [apply frames_logger, frames_rollout_loop | intros _].
  destruct Hzero as [Hopt | [Hne Hint]].
  - apply raises_bind_l. rewrite decide_True by done. apply raises_raise.
  - apply raises_bind_r; [apply frames_logger, frames_optimisation | intros steps'].
    apply raises_bind_l. rewrite decide_False by done.
    rewrite decide_True by done. apply raises_raise.
Qed.

(** X25. A modulus of zero stops [train] in its first episode: when
    [inv_optimisation_frequency] is 0, or when evaluations are asked
    for and [num_episodes / num_evaluations] rounds to 0 (more than
    twice as many evaluations as episodes), a run of at least one
    episode never returns, and no row reaches the reward logger. *)
Theorem train_fails_on_zero_modulus (p : train_params) (fuel : nat) s :
  1 <= num_episodes p ->
  inv_optimisation_frequency p = 0
  \/ (num_evaluations p <> 0
      /\ py_round (inject_Z (Z.of_nat (num_episodes p))
                   / inject_Z (Z.of_nat (num_evaluations p))) = 0%Z) ->
  let out := train env_reset resample_objective_weights act env_step
                   update_weights evaluate train_setup prepare_logger_data p fuel s in
  is_ok out.1 = false /\ reward_logger out.2 = reward_logger s.
Proof.
  intros Hn Hzero out.
  assert (raises_quietly
            (train env_reset resample_objective_weights act env_step
               update_weights evaluate train_setup prepare_logger_data p fuel)) as Htrain.
  { destruct (seq 0 (num_episodes p)) as [|episode_nr rest] eqn:Hseq.
    { apply (f_equal length) in Hseq. rewrite length_seq in Hseq. simpl in Hseq. lia. }
    unfold train. rewrite Hseq.
    apply raises_bind_r; [apply frames_logger; frames_prim | intros _].
    apply raises_bind_r; [apply frames_logger; frames_prim | intros hv_logger].
    apply raises_bind_r; [by intros ? | intros _].
    apply raises_bind_r; [apply frames_logger; frames_prim | intros mi].
    apply raises_bind_l. cbn [train_loop].
    apply raises_bind_l. apply train_episode_raises_modulo.
    destruct Hzero as [Hopt | [Hne Hint]]; [by left|]. right.
    split; [done|]. by rewrite decide_False. }
  apply Htrain.
Qed.

(** X17. A step of the rollout loop that returns has run with at
    least two controlled vehicles (with one, [push] takes the
    single-sample branch and fails on the list of observations; with
    none, its first assertion fails), and it has stored one
    transition per controlled vehicle in a well-formed buffer. *)
Theorem rollout_step_stores_one_transition_per_vehicle (episode_nr : nat) s s' u :
  rollout_body act env_step episode_nr s = (Ok u, s') ->
  2 <= num_controlled_vehicles s
  /\ num_controlled_vehicles s' = num_controlled_vehicles s
  /\ (ReplayBuffer.wf (buffer s) ->
      ReplayBuffer.wf (buffer s')
      /\ ReplayBuffer.running_index (buffer s')
         = (ReplayBuffer.running_index (buffer s) + num_controlled_vehicles s)
           mod ReplayBuffer.size (buffer s)
      /\ ReplayBuffer.num_elements (buffer s')
         = Nat.min (ReplayBuffer.num_elements (buffer s) + num_controlled_vehicles s)
                   (ReplayBuffer.size (buffer s))).
Proof.
  unfold rollout_body. intros H.
  apply bind_inv in H as (s0 & s1 & H1 & H).
  unfold get in H1. injection H1 as <- <-.
  apply bind_inv in H as (actions & s2 & H2 & H).
  unfold lift_world in H2. destruct (act _ _ _) as [r2 w2]. injection H2 as -> <-.
  apply bind_inv in H as (out & s3 & H3 & H).
  unfold lift_world in H3. destruct (env_step _ _) as [r3 w3].
  injection H3 as -> <-.
  apply bind_inv in H as (u4 & s4 & H4 & H).
  unfold modify in H4. injection H4 as _ <-.
  apply bind_inv in H as (u5 & s5 & H5 & H).
  unfold modify in H5. injection H5 as _ <-.
  apply bind_inv in H as (summary & s6 & H6 & H).
  unfold compute_reward_summary in H6.
  destruct (so_rewards out) as [|r0 rest]; [done|]. injection H6 as _ <-.
  apply bind_inv in H as (u7 & s7 & H7 & H).
  unfold modify in H. injection H as _ <-.
  unfold push_transitions in H7.
  apply bind_inv in H7 as (s6' & s8 & H8 & H7).
  unfold get in H8. injection H8 as <- <-.
  apply bind_inv in H7 as (b & s9 & H9 & H7).
  unfold lift_result in H9. injection H9 as Hpush <-.
  unfold modify in H7. injection H7 as _ <-.
  simpl in Hpush. simpl.
  apply ReplayBufferPush.push_multi_inv in Hpush as (Hn & id' & Hrows).
  split; [done|]. split; [done|]. intros Hwf.
  apply ReplayBufferPush.push_rows_counters in Hrows as (Hwf' & _ & Hix & Hct);
    [|done].
  rewrite length_seq in Hix, Hct. done.
Qed.

End Run.

Lemma train_fails_without_decay_horizon_witness :
  is_ok (train Examples.env_reset (fun w => w) Examples.act Examples.env_step
               Examples.update_weights Examples.evaluate (fun w => w)
           Examples.prepare_logger_data
               Examples.no_decay_horizon 2 Examples.two_agents).1 = false
  /\ reward_logger
       (train Examples.env_reset (fun w => w) Examples.act Examples.env_step
              Examples.update_weights Examples.evaluate (fun w => w)
           Examples.prepare_logger_data
              Examples.no_decay_horizon 2 Examples.two_agents).2
     = Examples.reward_logger.
Proof.
  apply (train_fails_without_decay_horizon Examples.env_reset (fun w => w)
           Examples.act Examples.env_step Examples.update_weights
           Examples.evaluate (fun w => w)
           Examples.prepare_logger_data Examples.no_decay_horizon 2
           Examples.two_agents 0%float).
  - simpl. lia.
  - reflexivity.
  - reflexivity.
Defined.

Lemma train_fails_on_zero_modulus_witness :
  is_ok (train Examples.env_reset (fun w => w) Examples.act Examples.env_step
               Examples.update_weights Examples.evaluate (fun w => w)
           Examples.prepare_logger_data
               Examples.two_evaluations 2 Examples.two_agents).1 = false
  /\ reward_logger
       (train Examples.env_reset (fun w => w) Examples.act Examples.env_step
              Examples.update_weights Examples.evaluate (fun w => w)
           Examples.prepare_logger_data
              Examples.two_evaluations 2 Examples.two_agents).2
     = Examples.reward_logger.
Proof.
  apply (train_fails_on_zero_modulus Examples.env_reset (fun w => w)
           Examples.act Examples.env_step Examples.update_weights
           Examples.evaluate (fun w => w)
           Examples.prepare_logger_data Examples.two_evaluations 2
           Examples.two_agents).
  - simpl. lia.
  - right. split; [simpl; lia | reflexivity].
Defined.

Lemma rollout_step_stores_one_transition_per_vehicle_witness :
  2 <= num_controlled_vehicles Examples.two_agents_running
  /\ ReplayBuffer.num_elements
       (buffer (rollout_body Examples.act Examples.env_step 0
                  Examples.two_agents_running).2) = 2.
Proof.
  destruct (rollout_body Examples.act Examples.env_step 0
              Examples.two_agents_running) as [r s'] eqn:Hrun.
  assert (r = Ok ()) as -> by (by vm_compute in Hrun; injection Hrun as <- _).
  destruct (rollout_step_stores_one_transition_per_vehicle Examples.act
              Examples.env_step 0 Examples.two_agents_running s' () Hrun)
    as (Hn & _ & Hbuf).
  split; [exact Hn|].
  destruct Hbuf as (_ & _ & Hct).
  - apply ReplayBufferFacts.init_wf. lia.
  - exact Hct.
Defined.

(** X28. Without an episode [train] never returns: no optimisation
    step is conducted, the loss logger stays empty, and the table of
    its rows has no column [episode]; the run ends with a key error,
    unless the rounding of [num_episodes * epsilon_end_time] has
    failed before; the reward logger is left as it was. *)
Theorem train_without_episode_raises {World : Type}
    (env_reset : World -> result (list tensor) * World)
    (resample_objective_weights : World -> World)
    (act : float -> list tensor -> World -> result (list Z) * World)
    (env_step : list Z -> World -> result step_out * World)
    (update_weights : nat -> nat -> nat -> ReplayBuffer.t -> World
                      -> result unit * World)
    (evaluate : nat -> rollout -> World -> result float * (rollout * World))
    (train_setup : World -> World)
    (prepare_logger_data : nat -> DataLogger.t -> World
                           -> result (list (list pyobj)))
    (p : train_params) (fuel : nat) (s : t World) :
  num_episodes p = 0 ->
  let out := train env_reset resample_objective_weights act env_step
                   update_weights evaluate train_setup prepare_logger_data
                   p fuel s in
  out.1 = match py_round_float (float_of_nat 0 * epsilon_end_time p)%float with
          | Ok _ => Err KeyError
          | Err e => Err e
          end
  /\ reward_logger out.2 = reward_logger s.
Proof.
  intros Hn out. unfold out, train. rewrite Hn. cbn [seq train_loop].
  unfold bind, modify, lift_result, ret. cbn [DataLogger.init].
  change (DataLogger.init "hv_logger" ["episode"; "hypervolume"]%string)
    with (Ok (DataLogger.mk "hv_logger" ["episode"; "hypervolume"]%string [])).
  cbv iota beta.
  by destruct (py_round_float _).
Qed.

Lemma train_without_episode_raises_witness :
  (train Examples.env_reset (fun w => w) Examples.act Examples.env_step
         Examples.update_weights Examples.evaluate (fun w => w)
         Examples.prepare_logger_data
         (mk_train_params 0 1 5 f0_9 0%float 1%float 0 11) 2
         Examples.two_agents).1 = Err KeyError
  /\ reward_logger
       (train Examples.env_reset (fun w => w) Examples.act Examples.env_step
              Examples.update_weights Examples.evaluate (fun w => w)
              Examples.prepare_logger_data
              (mk_train_params 0 1 5 f0_9 0%float 1%float 0 11) 2
              Examples.two_agents).2
     = Examples.reward_logger.
Proof.
  apply (train_without_episode_raises Examples.env_reset (fun w => w)
           Examples.act Examples.env_step Examples.update_weights
           Examples.evaluate (fun w => w) Examples.prepare_logger_data
           (mk_train_params 0 1 5 f0_9 0%float 1%float 0 11) 2
           Examples.two_agents).
  reflexivity.
Defined.

Lemma train_success_logs_every_episode_witness :
  exists table s',
    train Examples.env_reset (fun w => w) Examples.act Examples.env_step
          Examples.update_weights Examples.evaluate (fun w => w)
           Examples.prepare_logger_data
          Examples.one_episode 2 Examples.two_agents = (Ok table, s')
    /\ DataLogger.tuple_list (reward_logger s')
       = [[PyInt 0; PyFloat 0; PyFloat 0]]
    /\ epsilon s' = 0%float.
Proof.
  destruct (train Examples.env_reset (fun w => w) Examples.act Examples.env_step
              Examples.update_weights Examples.evaluate (fun w => w)
           Examples.prepare_logger_data
              Examples.one_episode 2 Examples.two_agents) as [r s'] eqn:Hrun.
  assert (r = Ok [[PyInt 0; PyFloat 0%float]])
    as -> by (by vm_compute in Hrun; injection Hrun as <- _).
  destruct (train_success_logs_every_episode Examples.env_reset (fun w => w)
              Examples.act Examples.env_step Examples.update_weights
              Examples.evaluate (fun w => w)
           Examples.prepare_logger_data Examples.one_episode 2
              Examples.two_agents _ s' Hrun) as (Hrows & mi & Hmi & Heps).
  eexists _, s'. split; [done|]. split; [exact Hrows|].
  vm_compute in Hmi. injection Hmi as <-. vm_compute in Heps. by injection Heps.
Defined.

End TrainFacts.

(** ** MOMA_DQN: the reward summary *)

Module RewardSummaryFacts.
Import MOMA_DQN.

Section Summary.
Context {World : Type}.
Implicit Types s : t World.

(** The weights after the substitution of the all-zero rows, and the
    check of the rows of [r] beyond them. *)
Lemma weighted_summary_trim s (r ws : list tensor) (c : nat) :
  num_objectives s <> 0 ->
  ws <> [] ->
  Forall (fun w => length w = c) ws ->
  weighted_summary s r ws
  = (r' ← (if decide (length ws < length r) then
             if forallb (forallb isnan) (drop (length ws) r)
             then Ok (take (length ws) r)
             else Err AssertionError
           else Ok r);
     weighted_reward ←
       broadcast_mul r'
         (fill_zero_rows (Num (1 / inject_Z (Z.of_nat (num_objectives s)))) ws);
     summarise (reward_structure s)
       (ncols_of weighted_reward
          (fill_zero_rows (Num (1 / inject_Z (Z.of_nat (num_objectives s)))) ws))
       weighted_reward).
Proof.
  intros Hn Hne Hwc. unfold weighted_summary.
  rewrite (stack_ok ws c Hne Hwc). cbn [mbind result_bind].
  rewrite decide_False by done. cbn [mbind result_bind].
  by rewrite fill_zero_rows_length.
Qed.

(** X18. With the reward structure "ego_reward", the summary of a
    vehicle that has not crashed is its own reward row multiplied,
    entry by entry, with its own weight vector, where an all-zero
    weight vector counts as equal weights [1/num_objectives]; the
    rewards and weights of the surrounding vehicles do not enter. *)
Theorem ego_reward_uses_own_row s (rewards obj_weights : list (list tensor))
    (i : nat) (r ws : list tensor) (c : nat) (r0 w0 : tensor) :
  reward_structure s = "ego_reward"%string ->
  crashed s !! i = Some false ->
  num_objectives s <> 0 ->
  rewards !! i = Some r ->
  obj_weights !! i = Some ws ->
  r !! 0 = Some r0 ->
  ws !! 0 = Some w0 ->
  Forall (fun w => length w = c) ws ->
  length ws <= length r ->
  Forall (fun row => length row = c) (take (length ws) r) ->
  Forall (Forall (fun x => isnan x = true)) (drop (length ws) r) ->
  vehicle_summary s rewards obj_weights i
  = Ok (zip_with tmul r0
          (if forallb is_zero w0
           then (fun _ => Num (1 / inject_Z (Z.of_nat (num_objectives s)))) <$> w0
           else w0)).
Proof.
  intros Hst Hc Hn Hr Hw Hr0 Hw0 Hwc Hlen Hrc Hnan.
  assert (ws <> []) as Hne by (by destruct ws).
  unfold vehicle_summary. rewrite Hr, Hc. cbn [mbind result_bind of_option].
  rewrite Hw. cbn [mbind result_bind of_option].
  rewrite (weighted_summary_trim s r ws c Hn Hne Hwc).
  set (fill := Num (1 / inject_Z (Z.of_nat (num_objectives s)))).
  assert ((if decide (length ws < length r)
           then if forallb (forallb isnan) (drop (length ws) r)
                then Ok (take (length ws) r) else Err AssertionError
           else Ok r) = Ok (take (length ws) r)) as ->.
  { case_decide.
    - by rewrite MOMA_DQNFacts.forallb_all_nan.
    - f_equal. symmetry. apply take_ge. lia. }
  cbn [mbind result_bind]. unfold broadcast_mul.
  rewrite decide_True by (rewrite length_take, fill_zero_rows_length; lia).
  rewrite (zip_rows_ok _ _ c Hrc (fill_zero_rows_width fill ws c Hwc)).
  cbn [mbind result_bind]. unfold summarise. rewrite Hst.
  rewrite decide_False by done. rewrite decide_True by done.
  rewrite lookup_zip_with.
  rewrite lookup_take_lt by (destruct ws; simpl in *; [done | lia]).
  rewrite Hr0. cbn [mbind option_bind].
  by rewrite (fill_zero_rows_lookup fill ws 0 w0 Hw0).
Qed.

(** X19. For a vehicle that has not crashed, a reward row beyond the
    weight vectors must consist of [nan] only: a single number in
    such a row makes the summary fail with an assertion error,
    whatever the reward structure is. *)
Theorem excess_reward_rows_must_be_nan s (rewards obj_weights : list (list tensor))
    (i : nat) (r ws : list tensor) (c : nat) (row : tensor) (x : tval) :
  crashed s !! i = Some false ->
  num_objectives s <> 0 ->
  rewards !! i = Some r ->
  obj_weights !! i = Some ws ->
  ws <> [] ->
  Forall (fun w => length w = c) ws ->
  row ∈ drop (length ws) r ->
  x ∈ row ->
  isnan x = false ->
  vehicle_summary s rewards obj_weights i = Err AssertionError.
Proof.
  intros Hc Hn Hr Hw Hne Hwc Hrow Hx Hnan.
  unfold vehicle_summary. rewrite Hr, Hc. cbn [mbind result_bind of_option].
  rewrite Hw. cbn [mbind result_bind of_option].
  rewrite (weighted_summary_trim s r ws c Hn Hne Hwc).
  assert (length ws < length r) as Hlt.
  { destruct (decide (length ws < length r)) as [|Hge]; [done|].
    rewrite drop_ge in Hrow by lia. by apply elem_of_nil in Hrow. }
  rewrite decide_True by done.
  assert (forallb (forallb isnan) (drop (length ws) r) = false) as ->; [|done].
  apply not_true_is_false. intros Hall.
  rewrite forallb_forall in Hall. apply list_elem_of_In in Hrow.
  specialize (Hall row Hrow). rewrite forallb_forall in Hall.
  apply list_elem_of_In in Hx. specialize (Hall x Hx). congruence.
Qed.

End Summary.

Lemma ego_reward_uses_own_row_witness :
  vehicle_summary (Examples.agent "ego_reward" [false]) Examples.rewards
                  Examples.weights 0
  = Ok (zip_with tmul [Num 1; Num (1 # 2)] [Num (1 # 4); Num (3 # 4)]).
Proof.
  apply (ego_reward_uses_own_row (Examples.agent "ego_reward" [false])
           Examples.rewards Examples.weights 0
           [[Num 1; Num (1 # 2)]; [Num (1 # 2); Num (1 # 4)]; [NaN; NaN]]
           [[Num (1 # 4); Num (3 # 4)]; [Num 0; Num 0]] 2
           [Num 1; Num (1 # 2)] [Num (1 # 4); Num (3 # 4)]).
  - reflexivity.
  - reflexivity.
  - simpl. lia.
  - reflexivity.
  - reflexivity.
  - reflexivity.
  - reflexivity.
  - repeat constructor.
  - simpl. lia.
  - repeat constructor.
  - repeat constructor.
Defined.

Lemma excess_reward_rows_must_be_nan_witness :
  vehicle_summary (Examples.agent "mean_reward" [false])
    [[[Num 1; Num (1 # 2)]; [Num (1 # 2); NaN]]] [[[Num (1 # 4); Num (3 # 4)]]] 0
  = Err AssertionError.
Proof.
  apply (excess_reward_rows_must_be_nan (Examples.agent "mean_reward" [false])
           [[[Num 1; Num (1 # 2)]; [Num (1 # 2); NaN]]]
           [[[Num (1 # 4); Num (3 # 4)]]] 0
           [[Num 1; Num (1 # 2)]; [Num (1 # 2); NaN]]
           [[Num (1 # 4); Num (3 # 4)]] 2 [Num (1 # 2); NaN] (Num (1 # 2))).
  - reflexivity.
  - simpl. lia.
  - reflexivity.
  - reflexivity.
  - done.
  - repeat constructor.
  - simpl. by left.
  - by left.
  - reflexivity.
Defined.

End RewardSummaryFacts.

(** ** MOHighwayEnv: the reward of the ego vehicle *)

Module RewardFacts.
Import MOHighwayEnv.
Local Open Scope Q_scope.

Lemma lmap_unit_mono (v v' lo hi : Q) :
  lo < hi -> v <= v' -> linear_map v (lo, hi) (0, 1) <= linear_map v' (lo, hi) (0, 1).
Proof.
  intros Hlh Hv. unfold linear_map. simpl.
  apply Qplus_le_r. unfold Qdiv. apply Qmult_le_compat_r.
  - nra.
  - apply Qlt_le_weak, Qinv_lt_0_compat. lra.
Qed.

Lemma lmap_unit_pos (v lo hi : Q) :
  lo < hi -> lo < v -> 0 < linear_map v (lo, hi) (0, 1).
Proof.
  intros Hlh Hv. unfold linear_map. simpl.
  assert (0 < (v - lo) * (1 - 0) / (hi - lo)) as H0
    by (apply Qlt_shift_div_l; lra).
  remember ((v - lo) * (1 - 0) / (hi - lo)) as x. lra.
Qed.

Lemma clip_unit_mono (x y : Q) : x <= y -> Qmin (Qmax x 0) 1 <= Qmin (Qmax y 0) 1.
Proof.
  intros Hxy. apply Q.min_le_compat_r. by apply Q.max_le_compat_r.
Qed.

(** X20. Under normalisation and the conventional signs of the
    coefficients, a zero reward identifies a crash: [_reward] is the
    vector [0, 0] exactly when the ego vehicle has crashed; for a
    vehicle that has not crashed both components are strictly
    positive. *)
Theorem zero_reward_iff_crashed (compute_efficiency : vehicle -> bool -> Q)
    (numpy_efficiency : bool) (cfg : config) (v : vehicle) (side_lanes : nat) :
  normalize_reward cfg = true ->
  conventional cfg ->
  (lane_of v < side_lanes)%nat ->
  0 <= compute_efficiency v true ->
  (_reward compute_efficiency numpy_efficiency cfg v side_lanes = Ok [Fin 0; Fin 0]
   <-> crashed v = true)
  /\ (crashed v = false ->
      exists speed_reward energy_reward,
        _reward compute_efficiency numpy_efficiency cfg v side_lanes
        = Ok [Fin speed_reward; Fin energy_reward]
        /\ 0 < speed_reward /\ 0 < energy_reward).
Proof.
  intros Hnorm (Hcol & Hrl & Hhs & Hen & Hrange) Hlane Heff.
  pose proof (MOHighwayEnvFacts.right_lane_bounds _ _ Hlane) as Hlt.
  pose proof (MOHighwayEnvFacts.clip_unit_bounds
                (linear_map (speed v * cos_heading v) (reward_speed_range cfg) (0, 1)))
    as Hsp.
  rewrite MOHighwayEnvFacts._reward_finite; [|lra|intros _; split; lra].
  rewrite Hnorm.
  set (rl := inject_Z (Z.of_nat (lane_of v))
             / inject_Z (Z.of_nat (Nat.max (side_lanes - 1) 1))) in *.
  set (hs := Qmin (Qmax (linear_map (speed v * cos_heading v)
                           (reward_speed_range cfg) (0, 1)) 0) 1) in *.
  set (en := compute_efficiency v true) in *.
  destruct (crashed v).
  - rewrite MOHighwayEnvFacts.Qeq_bool_false by lra. cbn [negb].
    split; [done|]. discriminate.
  - rewrite (proj2 (Qeq_bool_iff (collision_reward cfg * 0) 0)) by lra.
    cbn [negb].
    assert (0 < linear_map (hs * high_speed_reward cfg + right_lane_reward cfg * rl
                            + collision_reward cfg * 0)
                  (collision_reward cfg,
                   high_speed_reward cfg + right_lane_reward cfg) (0, 1)) as Hs
      by (apply lmap_unit_pos; nra).
    assert (0 < linear_map (energy_consumption_reward cfg * en
                            + right_lane_reward cfg * rl + collision_reward cfg * 0)
                  (collision_reward cfg,
                   energy_consumption_reward cfg + right_lane_reward cfg) (0, 1))
      as He by (apply lmap_unit_pos; nra).
    set (sr := linear_map _ (collision_reward cfg, high_speed_reward cfg + _) _) in *.
    split.
    + split; [|discriminate]. intros Hzero.
      assert (sr = 0) as Hz by congruence. rewrite Hz in Hs. lra.
    + intros _. eexists _, _. split; [reflexivity|]. by split.
Qed.

Lemma zero_reward_iff_crashed_witness :
  (_reward Examples.efficiency true default_config (Examples.ego true) 4
   = Ok [Fin 0; Fin 0]
   <-> crashed (Examples.ego true) = true)
  /\ (crashed (Examples.ego true) = false ->
      exists speed_reward energy_reward,
        _reward Examples.efficiency true default_config (Examples.ego true) 4
        = Ok [Fin speed_reward; Fin energy_reward]
        /\ 0 < speed_reward /\ 0 < energy_reward).
Proof.
  apply (zero_reward_iff_crashed Examples.efficiency true default_config
           (Examples.ego true) 4).
  - reflexivity.
  - apply MOHighwayEnvFacts.default_config_conventional.
  - cbv. lia.
  - unfold Examples.efficiency. by vm_compute.
Defined.

(** X21. The reward is zeroed on the weighted collision term, not on
    the crash itself: with [collision_reward] set to 0, a speed range
    with a width and, under normalisation, reward ranges with a
    width, a crashed vehicle gets the reward of a vehicle that drives
    the same and has not crashed, with or without normalisation. *)
Theorem zero_collision_reward_hides_crash (compute_efficiency : vehicle -> bool -> Q)
    (numpy_efficiency : bool) (cfg : config) (v v' : vehicle) (side_lanes : nat) :
  collision_reward cfg == 0 ->
  ~ (reward_speed_range cfg).1 == (reward_speed_range cfg).2 ->
  (normalize_reward cfg = true ->
   ~ collision_reward cfg == high_speed_reward cfg + right_lane_reward cfg
   /\ ~ collision_reward cfg
        == energy_consumption_reward cfg + right_lane_reward cfg) ->
  speed v = speed v' ->
  cos_heading v = cos_heading v' ->
  lane_of v = lane_of v' ->
  compute_efficiency v (normalize_reward cfg)
  = compute_efficiency v' (normalize_reward cfg) ->
  exists s e s' e',
    _reward compute_efficiency numpy_efficiency cfg v side_lanes = Ok [Fin s; Fin e]
    /\ _reward compute_efficiency numpy_efficiency cfg v' side_lanes
       = Ok [Fin s'; Fin e']
    /\ s == s' /\ e == e'.
Proof.
  intros Hcol Hrange Hnorm Hspeed Hcos Hlane Heff.
  rewrite !MOHighwayEnvFacts._reward_finite;
    [|lra|intros Hn; destruct (Hnorm Hn); split; lra
     |lra|intros Hn; destruct (Hnorm Hn); split; lra].
  rewrite Hspeed, Hcos, Hlane, Heff.
  assert (forall t, Qeq_bool (collision_reward cfg * t) 0 = true) as Hz.
  { intros t. apply Qeq_bool_iff. rewrite Hcol. lra. }
  rewrite !Hz. cbn [negb]. eexists _, _, _, _.
  split; [reflexivity|]. split; [reflexivity|].
  destruct (normalize_reward cfg); unfold linear_map; cbn [fst snd];
    split; rewrite !Hcol; destruct (crashed v), (crashed v'); reflexivity.
Qed.

Lemma zero_collision_reward_hides_crash_witness :
  exists s e s' e',
    _reward Examples.efficiency true Examples.no_penalty (Examples.ego true) 4
    = Ok [Fin s; Fin e]
    /\ _reward Examples.efficiency true Examples.no_penalty (Examples.ego false) 4
       = Ok [Fin s'; Fin e']
    /\ s == s' /\ e == e'.
Proof.
  apply (zero_collision_reward_hides_crash Examples.efficiency true
           Examples.no_penalty (Examples.ego true) (Examples.ego false) 4).
  - reflexivity.
  - by vm_compute.
  - intros _. split; by vm_compute.
  - reflexivity.
  - reflexivity.
  - reflexivity.
  - reflexivity.
Defined.

(** X22. Driving faster never lowers the speed reward: of two
    vehicles on the same lane that have not crashed, the one with
    the larger forward speed gets at least the speed component of the
    other, with or without normalisation. *)
Theorem speed_reward_monotone (compute_efficiency : vehicle -> bool -> Q)
    (numpy_efficiency : bool) (cfg : config) (v v' : vehicle) (side_lanes : nat) :
  conventional cfg ->
  crashed v = false ->
  crashed v' = false ->
  lane_of v = lane_of v' ->
  speed v * cos_heading v <= speed v' * cos_heading v' ->
  exists s e s' e',
    _reward compute_efficiency numpy_efficiency cfg v side_lanes = Ok [Fin s; Fin e]
    /\ _reward compute_efficiency numpy_efficiency cfg v' side_lanes
       = Ok [Fin s'; Fin e']
    /\ s <= s'.
Proof.
  intros (Hcol & Hrl & Hhs & Hen & Hrange) Hc Hc' Hlane Hfs.
  rewrite !MOHighwayEnvFacts._reward_finite;
    [|lra|intros _; split; lra|lra|intros _; split; lra].
  rewrite Hc, Hc', Hlane.
  rewrite (proj2 (Qeq_bool_iff (collision_reward cfg * 0) 0)) by lra.
  cbn [negb]. eexists _, _, _, _. split; [reflexivity|]. split; [reflexivity|].
  pose proof (clip_unit_mono _ _
                (lmap_unit_mono _ _ _ _ Hrange Hfs)) as Hclip.
  destruct (reward_speed_range cfg) as [lo hi]. cbn [fst snd] in *.
  set (hs := Qmin (Qmax (linear_map (speed v * cos_heading v) (lo, hi) (0, 1)) 0) 1)
    in *.
  set (hs' := Qmin (Qmax (linear_map (speed v' * cos_heading v') (lo, hi) (0, 1)) 0) 1)
    in *.
  destruct (normalize_reward cfg).
  - apply lmap_unit_mono; nra.
  - nra.
Qed.

Lemma speed_reward_monotone_witness :
  exists s e s' e',
    _reward Examples.efficiency true default_config
      (mk_vehicle 22 1 1%nat (Some 1%nat) false) 4
    = Ok [Fin s; Fin e]
    /\ _reward Examples.efficiency true default_config (Examples.ego false) 4
       = Ok [Fin s'; Fin e']
    /\ s <= s'.
Proof.
  apply (speed_reward_monotone Examples.efficiency true default_config
           (mk_vehicle 22 1 1%nat (Some 1%nat) false) (Examples.ego false) 4).
  - apply MOHighwayEnvFacts.default_config_conventional.
  - reflexivity.
  - reflexivity.
  - reflexivity.
  - by vm_compute.
Defined.

End RewardFacts.

(** ** MOMA_DQN: the targets of the weight update *)

Module TargetFacts.
Import MOMA_DQN.

Lemma argmax_from_nums (xs : list Q) : forall (b : Q) (bi i : nat),
  argmax_from (Num b) bi i (Num <$> xs) = qargmax_from b bi i xs.
Proof.
  induction xs as [|x xs IH]; intros b bi i; [done|].
  rewrite fmap_cons. cbn [argmax_from qargmax_from beats].
  destruct (Qle_bool x b); simpl; apply IH.
Qed.

Lemma argmax_nums (xs : list Q) :
  xs <> [] -> argmax (Num <$> xs) = Ok (qargmax xs).
Proof.
  destruct xs as [|x xs]; [done|]. intros _. rewrite fmap_cons.
  unfold argmax, qargmax. by rewrite argmax_from_nums.
Qed.

Lemma qargmax_from_lt (xs : list Q) : forall (b : Q) (bi i : nat),
  bi < i -> qargmax_from b bi i xs < i + length xs.
Proof.
  induction xs as [|x xs IH]; intros b bi i Hbi; simpl; [lia|].
  destruct (Qle_bool x b).
  - specialize (IH b bi (S i)). lia.
  - specialize (IH x i (S i)). lia.
Qed.

Lemma qargmax_lt (xs : list Q) : xs <> [] -> qargmax xs < length xs.
Proof.
  destruct xs as [|x xs]; [done|]. intros _. unfold qargmax.
  pose proof (qargmax_from_lt xs x 0 1). simpl in *. lia.
Qed.

(** The entry at the position that [qargmax_from] returns bounds the
    best entry so far and all the entries still to come. *)
Lemma qargmax_from_max (full xs : list Q) : forall (b : Q) (bi i : nat),
  full !! bi = Some b ->
  (forall k x, xs !! k = Some x -> full !! (i + k) = Some x) ->
  exists v, full !! qargmax_from b bi i xs = Some v
            /\ (b <= v)%Q /\ forall x, x ∈ xs -> (x <= v)%Q.
Proof.
  induction xs as [|x xs IH]; intros b bi i Hb Hxs; simpl.
  - exists b. split; [done|]. split; [apply Qle_refl|].
    intros y Hy. by apply elem_of_nil in Hy.
  - assert (forall k y, xs !! k = Some y -> full !! (S i + k) = Some y) as Hxs'.
    { intros k y Hk. replace (S i + k) with (i + S k) by lia. by apply Hxs. }
    destruct (Qle_bool x b) eqn:Hle.
    + apply Qle_bool_iff in Hle.
      destruct (IH b bi (S i) Hb Hxs') as (v & Hv & Hbv & Hall).
      exists v. split; [done|]. split; [done|].
      intros y Hy. apply elem_of_cons in Hy as [->|Hy]; [lra | by apply Hall].
    + assert ((b < x)%Q) as Hlt.
      { apply Qnot_le_lt. intros Hc. apply Qle_bool_iff in Hc. congruence. }
      assert (full !! i = Some x) as Hx.
      { specialize (Hxs 0 x eq_refl). by rewrite Nat.add_0_r in Hxs. }
      destruct (IH x i (S i) Hx Hxs') as (v & Hv & Hxv & Hall).
      exists v. split; [done|]. split; [lra|].
      intros y Hy. apply elem_of_cons in Hy as [->|Hy]; [done | by apply Hall].
Qed.

Lemma qargmax_max (xs : list Q) :
  xs <> [] ->
  exists v, xs !! qargmax xs = Some v /\ forall x, x ∈ xs -> (x <= v)%Q.
Proof.
  destruct xs as [|x xs]; [done|]. intros _. unfold qargmax.
  destruct (qargmax_from_max (x :: xs) xs x 0 1) as (v & Hv & Hxv & Hall);
    [done | by intros k y Hk |].
  exists v. split; [done|]. intros y Hy.
  apply elem_of_cons in Hy as [->|Hy]; [done | by apply Hall].
Qed.

(** The next values of one sample. *)
Lemma sample_argmax (ps ts : list (list Q)) :
  Forall2 (fun p t : list Q => p <> [] /\ length p = length t) ps ts ->
  mapM_result argmax (fmap (M := list) Num <$> ps) = Ok (qargmax <$> ps).
Proof.
  induction 1 as [|p t ps ts [Hp _] _ IH]; [done|].
  rewrite !fmap_cons. cbn [mapM_result]. rewrite (argmax_nums p Hp).
  cbn [mbind result_bind]. by rewrite IH.
Qed.

Lemma sample_gather (ps ts : list (list Q)) :
  Forall2 (fun p t : list Q => p <> [] /\ length p = length t) ps ts ->
  gather (fmap (M := list) Num <$> ts) (qargmax <$> ps)
  = Ok (Num <$> zip_with (next_value true) ps ts).
Proof.
  intros H. unfold gather.
  rewrite decide_True by (rewrite !length_fmap; apply Forall2_length in H; lia).
  induction H as [|p t ps ts [Hp Hlen] _ IH]; [done|].
  rewrite !fmap_cons. cbn [zip zip_with mapM_result fst snd].
  pose proof (qargmax_lt p Hp) as Hlt.
  destruct (lookup_lt_is_Some_2 t (qargmax p)) as [v Hv]; [lia|].
  rewrite list_lookup_fmap, Hv. cbn [of_option fmap option_fmap option_map].
  cbn [mbind result_bind]. rewrite IH. cbn [mbind result_bind].
  rewrite fmap_cons. unfold next_value at 2. by rewrite Hv.
Qed.

Lemma sample_max (ps ts : list (list Q)) :
  Forall2 (fun p t : list Q => p <> [] /\ length p = length t) ps ts ->
  mapM_result tensor_max (fmap (M := list) Num <$> ts)
  = Ok (Num <$> zip_with (next_value false) ps ts).
Proof.
  induction 1 as [|p t ps ts [Hp Hlen] _ IH]; [done|].
  rewrite !fmap_cons. cbn [zip_with mapM_result].
  rewrite ScalarisationFacts.tensor_max_nums by (destruct t, p; simpl in *; done).
  cbn [mbind result_bind]. rewrite IH. cbn [mbind result_bind].
  by rewrite fmap_cons.
Qed.

Lemma batch_values (dq : bool) (P T : list (list (list Q))) :
  same_shape P T ->
  next_state_values dq (fmap (M := list) (fmap (M := list) Num) <$> P)
                    (fmap (M := list) (fmap (M := list) Num) <$> T)
  = Ok (fmap (M := list) Num
          <$> zip_with (zip_with (next_value dq)) P T).
Proof.
  intros H. unfold next_state_values. destruct dq.
  - assert (mapM_result (mapM_result argmax)
              (fmap (M := list) (fmap (M := list) Num) <$> P)
            = Ok (fmap (M := list) qargmax <$> P)) as ->.
    { induction H as [|ps ts P T Hs _ IH]; [done|].
      rewrite !fmap_cons. cbn [mapM_result]. rewrite (sample_argmax ps ts Hs).
      cbn [mbind result_bind]. by rewrite IH. }
    cbn [mbind result_bind]. unfold gather_batch.
    rewrite decide_True by (rewrite !length_fmap; apply Forall2_length in H; lia).
    induction H as [|ps ts P T Hs _ IH]; [done|].
    rewrite !fmap_cons. cbn [zip zip_with mapM_result fst snd].
    rewrite (sample_gather ps ts Hs). cbn [mbind result_bind].
    rewrite IH. cbn [mbind result_bind]. by rewrite fmap_cons.
  - induction H as [|ps ts P T Hs _ IH]; [done|].
    rewrite !fmap_cons. cbn [zip_with mapM_result].
    rewrite (sample_max ps ts Hs). cbn [mbind result_bind].
    rewrite IH. cbn [mbind result_bind]. by rewrite fmap_cons.
Qed.

Lemma masked_row (gamma : Q) (f : bool) (v r : list Q) :
  length v = length r ->
  row_add (map (fun x => tmul x (Num gamma))
               (if f then (fun _ => tzero) <$> (Num <$> v) else Num <$> v))
          (Num <$> r)
  = Ok (Num <$> zip_with (fun x r => (if f then 0 else x) * gamma + r)%Q v r).
Proof.
  intros Hlen. unfold row_add.
  rewrite decide_True by (destruct f; by rewrite length_map, ?length_fmap).
  f_equal. revert r Hlen. induction v as [|x v IH]; intros [|y r] Hlen;
    try discriminate Hlen.
  - by destruct f.
  - simpl in Hlen. specialize (IH r ltac:(lia)).
    destruct f; rewrite !fmap_cons; cbn [map zip_with]; rewrite fmap_cons;
      f_equal; exact IH.
Qed.

Lemma masked_rows (gamma : Q) (V R : list (list Q)) : forall flags,
  Forall2 (fun v r : list Q => length v = length r) V R ->
  length flags = length V ->
  add_rows (map (map (fun x => tmul x (Num gamma)))
                (zip_with (fun (b : bool) (row : tensor) =>
                             if b then (fun _ => tzero) <$> row else row)
                          flags (fmap (M := list) Num <$> V)))
           (fmap (M := list) Num <$> R)
  = Ok (fmap (M := list) Num
          <$> zip_with (fun (v : list Q) (fr : bool * list Q) =>
                          zip_with (fun x r => (if fr.1 then 0 else x) * gamma + r)%Q
                                   v fr.2)
                       V (zip flags R)).
Proof.
  intros flags H. revert flags.
  induction H as [|v r V R Hlen _ IH]; intros [|f flags] Hfl; try done.
  simpl in Hfl. assert (length flags = length V) as Hfl' by lia.
  clear Hfl. rename Hfl' into Hfl. rewrite !fmap_cons.
  cbn [zip_with map add_rows zip fst snd].
  rewrite (masked_row gamma f v r Hlen). cbn [mbind result_bind].
  rewrite (IH flags Hfl). cbn [mbind result_bind]. by rewrite fmap_cons.
Qed.

(** The targets on numbers are the Bellman backup. *)
Lemma expected_values_nums (dq : bool) (gamma : Q) (P T : list (list (list Q)))
    (flags : list bool) (R : list (list Q)) :
  same_shape P T ->
  Forall2 (fun t r => length t = length r) T R ->
  length flags = length T ->
  expected_state_action_values dq gamma
    (fmap (M := list) (fmap (M := list) Num) <$> P)
    (fmap (M := list) (fmap (M := list) Num) <$> T)
    flags (fmap (M := list) Num <$> R)
  = Ok (fmap (M := list) Num <$> targets dq gamma P T flags R).
Proof.
  intros Hshape HR Hfl. unfold expected_state_action_values.
  rewrite (batch_values dq P T Hshape). cbn [mbind result_bind].
  set (V := zip_with (zip_with (next_value dq)) P T).
  assert (length V = length T) as HV.
  { unfold V. rewrite length_zip_with. apply Forall2_length in Hshape. lia. }
  assert (Forall2 (fun v r : list Q => length v = length r) V R) as HVR.
  { apply Forall2_same_length_lookup_2.
    - rewrite HV. by apply Forall2_length in HR.
    - intros b v r Hv Hr. unfold V in Hv.
      apply lookup_zip_with_Some in Hv as (ps & ts & -> & Hps & Hts).
      pose proof (Forall2_lookup_lr _ _ _ _ _ _ Hshape Hps Hts) as Hs.
      pose proof (Forall2_lookup_lr _ _ _ _ _ _ HR Hts Hr) as Hl.
      rewrite length_zip_with. apply Forall2_length in Hs. simpl in Hl. lia. }
  unfold zero_where. rewrite decide_True by (rewrite length_fmap; lia).
  cbn [mbind result_bind]. unfold broadcast_add.
  rewrite decide_True.
  2:{ rewrite length_map, length_zip_with, !length_fmap.
      apply Forall2_length in HR. lia. }
  rewrite (masked_rows gamma V R flags HVR) by lia.
  f_equal. f_equal. unfold targets, sample_targets, V.
  clear. revert T flags R. induction P as [|ps P IH]; intros [|ts T] flags R; try done.
  destruct flags as [|f flags], R as [|r R]; try done.
  cbn [zip zip_with fst snd]. f_equal. apply IH.
Qed.

(** X23. On numbers, with network outputs of one shape and one
    reward per objective, the targets that [__update_weights]
    regresses on are the Bellman backup: reward plus [gamma] times the
    value of the next state (the target net's estimate at the action
    the policy net prefers, or its largest estimate), and for a
    terminal sample the reward alone. *)
Theorem targets_are_bellman_backups (dq : bool) (gamma : Q)
    (P T : list (list (list Q))) (flags : list bool) (R : list (list Q)) :
  same_shape P T ->
  Forall2 (fun t r => length t = length r) T R ->
  length flags = length T ->
  expected_state_action_values dq gamma
    (fmap (M := list) (fmap (M := list) Num) <$> P)
    (fmap (M := list) (fmap (M := list) Num) <$> T)
    flags (fmap (M := list) Num <$> R)
  = Ok (fmap (M := list) Num <$> targets dq gamma P T flags R)
  /\ length (targets dq gamma P T flags R) = length R
  /\ forall b o row x r,
       flags !! b = Some true ->
       targets dq gamma P T flags R !! b = Some row ->
       row !! o = Some x ->
       R !! b = Some r ->
       exists y, r !! o = Some y /\ (x == y)%Q.
Proof.
  intros Hshape HR Hfl. split; [by apply expected_values_nums|].
  pose proof (Forall2_length _ _ _ Hshape) as HPT.
  pose proof (Forall2_length _ _ _ HR) as HTR.
  split.
  { unfold targets. rewrite length_zip_with, !length_zip. lia. }
  intros b o row x r Hf Hrow Hx Hr.
  unfold targets in Hrow.
  apply lookup_zip_with_Some in Hrow as ([ps ts] & [f r'] & -> & _ & Hfr).
  apply lookup_zip_with_Some in Hfr as (f' & r'' & [= -> ->] & Hf' & Hr').
  rewrite Hf in Hf'. injection Hf' as <-. rewrite Hr in Hr'. injection Hr' as <-.
  unfold sample_targets in Hx. cbn [fst snd] in Hx.
  apply lookup_zip_with_Some in Hx as (v & y & -> & _ & Hy).
  exists y. split; [done|]. lra.
Qed.

Lemma targets_are_bellman_backups_witness :
  expected_state_action_values true (9 # 10)
    [[[Num 1; Num 3]]; [[Num 2; Num 0]]] [[[Num 5; Num 4]]; [[Num 1; Num 7]]]
    [false; true] [[Num 1]; [Num 2]]
  = Ok (fmap (M := list) Num
          <$> targets true (9 # 10) [[[1; 3]]; [[2; 0]]]%Q [[[5; 4]]; [[1; 7]]]%Q
                      [false; true] [[1]; [2]]%Q)
  /\ length (targets true (9 # 10) [[[1; 3]]; [[2; 0]]]%Q [[[5; 4]]; [[1; 7]]]%Q
                     [false; true] [[1]; [2]]%Q) = 2.
Proof.
  destruct (targets_are_bellman_backups true (9 # 10)
              [[[1; 3]]; [[2; 0]]]%Q [[[5; 4]]; [[1; 7]]]%Q
              [false; true] [[1]; [2]]%Q) as (Hval & Hlen & _).
  - repeat constructor; done.
  - repeat constructor.
  - reflexivity.
  - split; [exact Hval | exact Hlen].
Defined.

Lemma next_value_le (p t : list Q) :
  p <> [] -> length p = length t ->
  (next_value true p t <= next_value false p t)%Q.
Proof.
  intros Hp Hlen. unfold next_value.
  pose proof (qargmax_lt p Hp) as Hlt.
  destruct (lookup_lt_is_Some_2 t (qargmax p)) as [v Hv]; [lia|].
  rewrite Hv. simpl. apply ScalarisationFacts.largest_ub.
  by eapply list_elem_of_lookup_2.
Qed.

Lemma next_value_agree (t : list Q) :
  t <> [] -> (next_value true t t == next_value false t t)%Q.
Proof.
  intros Ht. apply Qle_antisym; [by apply next_value_le|].
  unfold next_value. destruct (qargmax_max t Ht) as (v & Hv & Hall).
  rewrite Hv. simpl. by apply ScalarisationFacts.largest_lub.
Qed.

(** X24. With a non-negative discount, double Q-learning never gives
    a larger target than plain Q-learning, entry by entry; and when
    the policy net and the target net give the same estimates the two
    targets agree. *)
Theorem double_q_targets_never_exceed_max (gamma : Q)
    (P T : list (list (list Q))) (flags : list bool) (R : list (list Q)) :
  (0 <= gamma)%Q ->
  same_shape P T ->
  Forall2 (fun t r => length t = length r) T R ->
  length flags = length T ->
  exists double plain,
    expected_state_action_values true gamma
      (fmap (M := list) (fmap (M := list) Num) <$> P)
      (fmap (M := list) (fmap (M := list) Num) <$> T)
      flags (fmap (M := list) Num <$> R)
    = Ok (fmap (M := list) Num <$> double)
    /\ expected_state_action_values false gamma
         (fmap (M := list) (fmap (M := list) Num) <$> P)
         (fmap (M := list) (fmap (M := list) Num) <$> T)
         flags (fmap (M := list) Num <$> R)
       = Ok (fmap (M := list) Num <$> plain)
    /\ Forall2 (Forall2 Qle) double plain
    /\ (P = T -> Forall2 (Forall2 Qeq) double plain).
Proof.
  intros Hgamma Hshape HR Hfl.
  exists (targets true gamma P T flags R), (targets false gamma P T flags R).
  split; [by apply expected_values_nums|].
  split; [by apply expected_values_nums|].
  assert (forall (rel : Q -> Q -> Prop),
            (forall p t, p <> [] -> length p = length t ->
                         (P = T -> p = t) ->
                         rel (next_value true p t) (next_value false p t)) ->
            (forall v v' (f : bool) r, rel v v' ->
               rel ((if f then 0 else v) * gamma + r)%Q
                   ((if f then 0 else v') * gamma + r)%Q) ->
            (forall b, forall ps ts, P !! b = Some ps -> T !! b = Some ts ->
               forall o p t, ps !! o = Some p -> ts !! o = Some t ->
               P = T -> p = t) ->
            Forall2 (Forall2 rel) (targets true gamma P T flags R)
                                  (targets false gamma P T flags R)) as Hrel.
  { intros rel Hnext Hstep Hsame. unfold targets.
    apply Forall2_same_length_lookup_2; [by rewrite !length_zip_with|].
    intros b row row' Hrow Hrow'.
    apply lookup_zip_with_Some in Hrow as ([ps ts] & [f r] & -> & Hpt & Hfr).
    apply lookup_zip_with_Some in Hrow' as (pt' & fr' & -> & Hpt' & Hfr').
    rewrite Hpt in Hpt'. injection Hpt' as <-.
    rewrite Hfr in Hfr'. injection Hfr' as <-.
    apply lookup_zip_with_Some in Hpt as (ps' & ts' & [= <- <-] & Hps & Hts).
    pose proof (Forall2_lookup_lr _ _ _ _ _ _ Hshape Hps Hts) as Hs.
    unfold sample_targets. cbn [fst snd].
    apply Forall2_same_length_lookup_2; [by rewrite !length_zip_with|].
    intros o x x' Hx Hx'.
    apply lookup_zip_with_Some in Hx as (v & y & -> & Hv & Hy).
    apply lookup_zip_with_Some in Hx' as (v' & y' & -> & Hv' & Hy').
    rewrite Hy in Hy'. injection Hy' as <-.
    apply lookup_zip_with_Some in Hv as (p & t & -> & Hp & Ht).
    apply lookup_zip_with_Some in Hv' as (p' & t' & -> & Hp' & Ht').
    rewrite Hp in Hp'. injection Hp' as <-. rewrite Ht in Ht'. injection Ht' as <-.
    destruct (Forall2_lookup_lr _ _ _ _ _ _ Hs Hp Ht) as [Hne Hlen].
    apply Hstep, Hnext; try done. by eapply Hsame. }
  split.
  - apply Hrel.
    + intros p t Hp Hlen _. by apply next_value_le.
    + intros v v' f r Hle. destruct f; [lra | nra].
    + intros b ps ts Hps Hts o p t Hp Ht Heq. subst T. congruence.
  - intros Heq. apply Hrel.
    + intros p t Hp Hlen Hpt. rewrite <- (Hpt Heq). by apply next_value_agree.
    + intros v v' f r Hvv. destruct f; [lra | rewrite Hvv; lra].
    + intros b ps ts Hps Hts o p t Hp Ht _. subst T. congruence.
Qed.

Lemma double_q_targets_never_exceed_max_witness :
  exists double plain,
    expected_state_action_values true (9 # 10)
      [[[Num 1; Num 3]]; [[Num 2; Num 0]]] [[[Num 5; Num 4]]; [[Num 1; Num 7]]]
      [false; true] [[Num 1]; [Num 2]]
    = Ok (fmap (M := list) Num <$> double)
    /\ expected_state_action_values false (9 # 10)
         [[[Num 1; Num 3]]; [[Num 2; Num 0]]] [[[Num 5; Num 4]]; [[Num 1; Num 7]]]
         [false; true] [[Num 1]; [Num 2]]
       = Ok (fmap (M := list) Num <$> plain)
    /\ Forall2 (Forall2 Qle) double plain.
Proof.
  destruct (double_q_targets_never_exceed_max (9 # 10)
              [[[1; 3]]; [[2; 0]]]%Q [[[5; 4]]; [[1; 7]]]%Q
              [false; true] [[1]; [2]]%Q)
    as (double & plain & Hd & Hp & Hle & _).
  - discriminate.
  - repeat constructor; done.
  - repeat constructor.
  - reflexivity.
  - exists double, plain. split; [exact Hd|]. split; [exact Hp | exact Hle].
Defined.

End TargetFacts.

(** ** MOMA_DQN: the greedy action *)

Module PolicyFacts.
Import MOMA_DQN.

(** X27. The greedy branch of [act] with the linear scalarisation
    picks an action of largest utility: for numeric Q-values with at
    least one action and one weight per objective, the action it
    returns is a valid action, and no action has a larger weighted
    sum of Q-values. *)
Theorem greedy_action_maximises_utility (qs : list (list Q)) (ws : list Q)
    (A : nat) :
  1 <= A ->
  qs <> [] ->
  length qs = length ws ->
  Forall (fun row => length row = A) qs ->
  exists a,
    greedy_action (fmap (M := list) Num <$> qs) (Num <$> ws) = Ok a
    /\ a < A
    /\ forall b, b < A ->
         (LinearScalarisation.utility qs ws b
          <= LinearScalarisation.utility qs ws a)%Q.
Proof.
  intros HA Hne Hlen Hrows.
  set (us := LinearScalarisation.utility qs ws <$> seq 0 A).
  assert (us <> []) as Hus.
  { unfold us. destruct A; [lia | done]. }
  assert (length us = A) as Hlu by (unfold us; by rewrite length_fmap, length_seq).
  exists (qargmax us). split; [|split].
  - unfold greedy_action.
    rewrite (ScalarisationFacts.scalarise_actions_nums qs ws A) by done.
    cbn [mbind result_bind].
    rewrite (list_fmap_compose (LinearScalarisation.utility qs ws) Num).
    fold us. by apply TargetFacts.argmax_nums.
  - rewrite <- Hlu. by apply TargetFacts.qargmax_lt.
  - intros b Hb.
    destruct (TargetFacts.qargmax_max us Hus) as (v & Hv & Hall).
    assert (us !! qargmax us
            = Some (LinearScalarisation.utility qs ws (qargmax us))) as Hv'.
    { pose proof (TargetFacts.qargmax_lt us Hus) as Hlt. rewrite Hlu in Hlt.
      unfold us. unfold us in Hlt.
      by rewrite list_lookup_fmap, lookup_seq_lt. }
    rewrite Hv in Hv'. injection Hv' as ->.
    apply Hall. unfold us. apply list_elem_of_fmap. exists b.
    split; [done|]. apply elem_of_seq. lia.
Qed.

Lemma greedy_action_maximises_utility_witness :
  exists a,
    greedy_action [[Num 1; Num 2]; [Num 3; Num 5]] [Num (1 # 4); Num (3 # 4)] = Ok a
    /\ a < 2
    /\ forall b, b < 2 ->
         (LinearScalarisation.utility [[1; 2]; [3; 5]] [1 # 4; 3 # 4] b
          <= LinearScalarisation.utility [[1; 2]; [3; 5]] [1 # 4; 3 # 4] a)%Q.
Proof.
  apply (greedy_action_maximises_utility [[1; 2]; [3; 5]]%Q [1 # 4; 3 # 4]%Q 2).
  - lia.
  - done.
  - reflexivity.
  - repeat constructor.
Defined.

End PolicyFacts.
